(** * Nachos: file headers (filesys/filehdr.cc) and the multilevel scheduler
      (threads/scheduler.cc)

    A shallow embedding of [FileHeader::Allocate], [FileHeader::Deallocate],
    [FileHeader::ByteToSector] and of [Scheduler::ReadyToRun],
    [Scheduler::FindNextToRun], [Scheduler::Run] and [Scheduler::Aging],
    followed by the properties of the specification stated over them.

    C++ [int] values are modelled as [Z].  Sizes, sector counts and
    differences of tick counts stay within the magnitude of their inputs
    and of the geometry constants, and no wrap-around is written for them;
    the one sum of two [int]s that can leave the range, in
    [Scheduler::Run], is written with its wrap-around. *)

From Stdlib Require Import ZArith List Bool Lia QArith Sorted Permutation.
Import ListNotations.
Open Scope Z_scope.

(** ** Results of a call *)

(** A call either returns, or stops the kernel (a failed [ASSERT], or
    behaviour C++ leaves undefined such as an index outside an array), or the
    recursion bound given to the model was too small. *)
Inductive Outcome (A : Type) : Type :=
| Done (a : A)
| Fatal
| NoFuel.

Arguments Done {A} a.
Arguments Fatal {A}.
Arguments NoFuel {A}.

Definition bind {A B : Type} (c : Outcome A) (k : A -> Outcome B) : Outcome B :=
  match c with
  | Done a => k a
  | Fatal => Fatal
  | NoFuel => NoFuel
  end.

Notation "x <- c ;; k" := (bind c (fun x => k))
  (at level 61, c at next level, right associativity).
Notation "' p <- c ;; k" := (bind c (fun x => let 'p := x in k))
  (at level 61, p pattern, c at next level, right associativity).

(** [ASSERT(b)] *)
Definition ASSERT (b : bool) : Outcome unit := if b then Done tt else Fatal.

(** In-place update of the [n]-th cell of an array; the callers check the
    bounds. *)
Fixpoint upd {A : Type} (n : nat) (x : A) (l : list A) : list A :=
  match l, n with
  | [], _ => []
  | _ :: r, O => x :: r
  | a :: r, S n' => a :: upd n' x r
  end.

(** Modelled from the spec: the macros [divRoundUp] and [divRoundDown] of
    lib/utility.h, which is not among the sources.  The spec reads them as
    ceiling and floor of the quotient; on C [int]s [/] and [%] truncate. *)
Definition divRoundDown (n s : Z) : Z := Z.quot n s.

Definition divRoundUp (n s : Z) : Z :=
  Z.quot n s + (if Z.rem n s >? 0 then 1 else 0).

(** ** The free-sector pool *)

Module Bitmap.

(** Modelled from the spec: the free-sector bitmap ([PersistentBitmap],
    lib/bitmap.h) is an external collaborator with the interface
    [FindAndSet() -> sector|None], [Clear(sector)], [Test(sector) -> bool],
    [NumClear() -> count].  One bit per sector, [true] = in use.  The callers
    store the result of [FindAndSet] in an [int]; "none" is [-1]. *)
Definition t := list bool.

Fixpoint NumClear (m : t) : Z :=
  match m with
  | [] => 0
  | b :: r => (if b then 0 else 1) + NumClear r
  end.

Fixpoint FindAndSet (m : t) : Z * t :=
  match m with
  | [] => (-1, [])
  | false :: r => (0, true :: r)
  | true :: r =>
      let '(i, r') := FindAndSet r in
      ((if i <? 0 then -1 else i + 1), true :: r')
  end.

(** A sector outside the map is not a marked sector. *)
Definition Test (m : t) (which : Z) : bool :=
  (0 <=? which) && nth (Z.to_nat which) m false.

Definition Clear (m : t) (which : Z) : t :=
  if 0 <=? which then upd (Z.to_nat which) false m else m.

End Bitmap.

(** ** File headers *)

Module Filehdr.

(** The on-disk and in-memory header: [numBytes], [numSectors] and the table
    [dataSectors[NumDirect]]. *)
Record FileHeader : Type := mkHdr {
  numBytes : Z;
  numSectors : Z;
  dataSectors : list Z
}.

(** Modelled from the spec: the synchronous disk ([ReadSector],
    [WriteSector]) is an external collaborator.  This code only moves whole
    headers through it, so a disk maps a sector index to the header stored
    there.  A negative index (the [-1] of an exhausted pool) addresses no
    sector: the transfer stops the kernel. *)
Definition Disk := Z -> FileHeader.

Definition WriteSector (d : Disk) (sector : Z) (h : FileHeader) : Disk :=
  fun s => if s =? sector then h else d s.

(** [FileHeader::FetchFrom] *)
Definition FetchFrom (d : Disk) (sector : Z) : Outcome FileHeader :=
  if sector <? 0 then Fatal else Done (d sector).

(** [FileHeader::WriteBack] *)
Definition WriteBack (h : FileHeader) (d : Disk) (sector : Z) : Outcome Disk :=
  if sector <? 0 then Fatal else Done (WriteSector d sector h).

Section Geometry.

(** [SectorSize] (machine/disk.h) and [NumDirect] (filesys/filehdr.h) are
    compile-time constants declared outside the sources. *)
Variables SectorSize NumDirect : Z.

(** Modelled from the spec: [SingleSize = NumDirect * SectorSize],
    [DoubleSize = NumDirect * SingleSize],
    [TripleSize = NumDirect * DoubleSize] (declared in filesys/filehdr.h). *)
Definition SingleSize : Z := NumDirect * SectorSize.
Definition DoubleSize : Z := NumDirect * SingleSize.
Definition TripleSize : Z := NumDirect * DoubleSize.

(** [FileHeader::FileHeader]: every field is [-1]. *)
Definition newFileHeader : FileHeader :=
  mkHdr (-1) (-1) (repeat (-1) (Z.to_nat NumDirect)).

(** [dataSectors[i] = v]; an index outside the table is undefined. *)
Definition setSector (h : FileHeader) (i v : Z) : Outcome FileHeader :=
  if (0 <=? i) && (i <? NumDirect)
  then Done (mkHdr (numBytes h) (numSectors h) (upd (Z.to_nat i) v (dataSectors h)))
  else Fatal.

(** [dataSectors[i]] *)
Definition getSector (h : FileHeader) (i : Z) : Outcome Z :=
  if (0 <=? i) && (i <? NumDirect)
  then Done (nth (Z.to_nat i) (dataSectors h) (-1))
  else Fatal.

(** What a call of [Allocate] leaves behind: its return value, the header,
    the pool and the disk. *)
Definition AllocResult : Type := bool * FileHeader * Bitmap.t * Disk.

(** What one of the three indirect loops leaves behind. [written] is the
    final value of the loop variable [i], the number of table entries the
    loop wrote; [childOk] lists what the recursive calls returned, in order
    (the source drops these values). *)
Record LoopResult : Type := mkLoop {
  written : Z;
  childOk : list bool;
  loopHdr : FileHeader;
  loopMap : Bitmap.t;
  loopDisk : Disk
}.

(** The loop shared by the three indirect branches of [Allocate], for
    [chunk] one of [TripleSize], [DoubleSize], [SingleSize]:
<<
    for (int i = 0; fileSize > 0; ++i) {
        dataSectors[i] = freeMap->FindAndSet();
        FileHeader *hdr = new FileHeader();
        if (fileSize > chunk) hdr->Allocate(freeMap, chunk);
        else                  hdr->Allocate(freeMap, fileSize);
        fileSize -= chunk;
        hdr->WriteBack(dataSectors[i]);
        delete hdr;
    }
>>
    [alloc] is the recursive call; [fuel] bounds the iterations. *)
Fixpoint AllocateChildren
    (alloc : FileHeader -> Bitmap.t -> Disk -> Z -> Outcome AllocResult)
    (chunk : Z) (fuel : nat) (i : Z) (oks : list bool) (fileSize : Z)
    (this : FileHeader) (freeMap : Bitmap.t) (disk : Disk)
  : Outcome LoopResult :=
  if fileSize >? 0 then
    match fuel with
    | O => NoFuel
    | S fuel' =>
        let '(s, freeMap1) := Bitmap.FindAndSet freeMap in
        this1 <- setSector this i s ;;
        '(ok, hdr, freeMap2, disk2) <-
           alloc newFileHeader freeMap1 disk
                 (if fileSize >? chunk then chunk else fileSize) ;;
        disk3 <- WriteBack hdr disk2 s ;;
        AllocateChildren alloc chunk fuel' (i + 1) (oks ++ [ok])
                         (fileSize - chunk) this1 freeMap2 disk3
    end
  else Done (mkLoop i oks this freeMap disk).

(** The direct loop of [Allocate]:
    [for (int i = 0; i < numSectors; ++i) dataSectors[i] = freeMap->FindAndSet();]
    run for the [n] iterations that remain from index [i]. *)
Fixpoint AllocateDirect (n : nat) (i : Z) (this : FileHeader) (freeMap : Bitmap.t)
  : Outcome (FileHeader * Bitmap.t) :=
  match n with
  | O => Done (this, freeMap)
  | S n' =>
      let '(s, freeMap1) := Bitmap.FindAndSet freeMap in
      this1 <- setSector this i s ;;
      AllocateDirect n' (i + 1) this1 freeMap1
  end.

Definition finishLoop (r : LoopResult) : Outcome AllocResult :=
  Done (true, loopHdr r, loopMap r, loopDisk r).

(** [FileHeader::Allocate].  [depth] bounds the nesting of recursive calls
    (four levels always suffice: a child gets at most the chunk of the band
    below). *)
Fixpoint Allocate (depth : nat) (this : FileHeader) (freeMap : Bitmap.t)
    (disk : Disk) (fileSize : Z) : Outcome AllocResult :=
  match depth with
  | O => NoFuel
  | S d =>
      let this := mkHdr fileSize (divRoundUp fileSize SectorSize) (dataSectors this) in
      if Bitmap.NumClear freeMap <? numSectors this then
        Done (false, this, freeMap, disk)
      else if fileSize >? TripleSize then
        r <- AllocateChildren (Allocate d) TripleSize (Z.to_nat fileSize) 0 []
                              fileSize this freeMap disk ;;
        finishLoop r
      else if fileSize >? DoubleSize then
        r <- AllocateChildren (Allocate d) DoubleSize (Z.to_nat fileSize) 0 []
                              fileSize this freeMap disk ;;
        finishLoop r
      else if fileSize >? SingleSize then
        r <- AllocateChildren (Allocate d) SingleSize (Z.to_nat fileSize) 0 []
                              fileSize this freeMap disk ;;
        finishLoop r
      else
        '(this1, freeMap1) <-
           AllocateDirect (Z.to_nat (numSectors this)) 0 this freeMap ;;
        Done (true, this1, freeMap1, disk)
  end.

(** The leaf loop of [Deallocate]:
<<
    for (int i = 0; i < numSectors; ++i) {
        ASSERT(freeMap->Test((int) dataSectors[i]));
        freeMap->Clear((int) dataSectors[i]);
    }
>> *)
Fixpoint DeallocateDirect (n : nat) (i : Z) (this : FileHeader) (freeMap : Bitmap.t)
  : Outcome Bitmap.t :=
  match n with
  | O => Done freeMap
  | S n' =>
      s <- getSector this i ;;
      _ <- ASSERT (Bitmap.Test freeMap s) ;;
      DeallocateDirect n' (i + 1) this (Bitmap.Clear freeMap s)
  end.

(** The indirect loop of [Deallocate]:
<<
    for (int i = 0; i < sectors; ++i) {
        FileHeader *hdr = new FileHeader();
        hdr->FetchFrom(dataSectors[i]);
        hdr->Deallocate(freeMap);
        delete hdr;
    }
>> *)
Fixpoint DeallocateChildren
    (dealloc : FileHeader -> Bitmap.t -> Outcome Bitmap.t) (disk : Disk)
    (n : nat) (i : Z) (this : FileHeader) (freeMap : Bitmap.t)
  : Outcome Bitmap.t :=
  match n with
  | O => Done freeMap
  | S n' =>
      s <- getSector this i ;;
      hdr <- FetchFrom disk s ;;
      freeMap1 <- dealloc hdr freeMap ;;
      DeallocateChildren dealloc disk n' (i + 1) this freeMap1
  end.

(** [FileHeader::Deallocate].  The disk is only read. *)
Fixpoint Deallocate (depth : nat) (disk : Disk) (this : FileHeader)
    (freeMap : Bitmap.t) : Outcome Bitmap.t :=
  match depth with
  | O => NoFuel
  | S d =>
      if numBytes this >? SingleSize then
        let sectors := divRoundUp (numSectors this) NumDirect in
        DeallocateChildren (Deallocate d disk) disk (Z.to_nat sectors) 0 this freeMap
      else
        DeallocateDirect (Z.to_nat (numSectors this)) 0 this freeMap
  end.

(** [FileHeader::ByteToSector] *)
Fixpoint ByteToSector (depth : nat) (disk : Disk) (this : FileHeader)
    (offset : Z) : Outcome Z :=
  match depth with
  | O => NoFuel
  | S d =>
      let descend (chunk : Z) : Outcome Z :=
        let sector := divRoundDown offset chunk in
        s <- getSector this sector ;;
        hdr <- FetchFrom disk s ;;
        ByteToSector d disk hdr (offset - sector * chunk) in
      if numBytes this >? TripleSize then descend TripleSize
      else if numBytes this >? DoubleSize then descend DoubleSize
      else if numBytes this >? SingleSize then descend SingleSize
      else getSector this (Z.quot offset SectorSize)
  end.

(** [FileHeader::FileLength] *)
Definition FileLength (this : FileHeader) : Z := numBytes this.

End Geometry.

(** *** Concrete geometry and inputs *)

(** The geometry of the Nachos distribution: sectors of 128 bytes
    (machine/disk.h) and a table of [(128 - 2 * sizeof(int)) / sizeof(int)]
    = 30 entries, so that a header fills one sector. *)
Definition NachosSectorSize : Z := 128.
Definition NachosNumDirect : Z := 30.

(** A pool of [n] sectors, all free. *)
Definition freePool (n : nat) : Bitmap.t := repeat false n.

(** A disk on which no header has been written yet. *)
Definition blankDisk : Disk := fun _ => newFileHeader NachosNumDirect.

(** [Allocate] on a new header, then, if it returned, [Deallocate] on the
    same header: the return value of [Allocate] and the free count after
    each of the two calls. *)
Definition roundTrip (SectorSize NumDirect : Z) (freeMap : Bitmap.t)
    (disk : Disk) (fileSize : Z) : Outcome (bool * Z * Outcome Z) :=
  '(ok, hdr, freeMap1, disk1) <-
     Allocate SectorSize NumDirect 4 (newFileHeader NumDirect) freeMap disk fileSize ;;
  Done (ok, Bitmap.NumClear freeMap1,
        freeMap2 <- Deallocate SectorSize NumDirect 4 disk1 hdr freeMap1 ;;
        Done (Bitmap.NumClear freeMap2)).

(** *** What a call may change *)

(** Views used by the statements about the pool and the disk. *)

(** A pool that has only gained marks. *)
Definition onlyMarked (m m' : Bitmap.t) : Prop :=
  length m' = length m /\
  (forall k, nth k m false = true -> nth k m' false = true) /\
  Bitmap.NumClear m' <= Bitmap.NumClear m.

(** A disk on which only sectors taken between [m] and [m'] were written. *)
Definition onlyTaken (m m' : Bitmap.t) (d d' : Disk) : Prop :=
  forall k, Bitmap.Test m k = true \/ Bitmap.Test m' k = false -> d' k = d k.

(** What [Allocate] and its loops keep, for a recursive call [alloc] that
    keeps it. *)
Definition framed
    (alloc : FileHeader -> Bitmap.t -> Disk -> Z -> Outcome AllocResult) : Prop :=
  forall h m d size ok h' m' d',
    alloc h m d size = Done (ok, h', m', d') ->
    onlyMarked m m' /\ onlyTaken m m' d d'.

(** *** The layout of a file of the Single band *)

(** A child header as [Allocate] lays it out: the sector that holds the
    header and the data sectors the header maps, in file order. *)
Definition Child : Type := (nat * list nat)%type.

(** The sectors that hold the child headers. *)
Definition headerSectors (C : list Child) : list nat := map fst C.

(** The data sectors of the file, in file order. *)
Definition fileSectors (C : list Child) : list nat := flat_map snd C.

(** [h] is a header of the leaf band for [size] bytes whose table starts
    with the sectors [L]. *)
Definition leafHeader (SectorSize NumDirect : Z) (h : FileHeader) (size : Z)
    (L : list nat) : Prop :=
  numBytes h = size /\
  0 <= size <= SingleSize SectorSize NumDirect /\
  numSectors h = Z.of_nat (length L) /\
  Z.of_nat (length L) = divRoundUp size SectorSize /\
  Z.of_nat (length (dataSectors h)) = NumDirect /\
  forall j, (j < length L)%nat ->
    nth j (dataSectors h) (-1) = Z.of_nat (nth j L 0%nat).

(** The entries of [table] from index [i] on name the header sectors of the
    children [C], and [disk] holds there leaf headers for the successive
    chunks of [SingleSize] bytes of a file of [fileSize] bytes. *)
Fixpoint childrenAt (SectorSize NumDirect : Z) (disk : Disk) (table : list Z)
    (i : nat) (fileSize : Z) (C : list Child) : Prop :=
  match C with
  | [] => True
  | c :: C' =>
      nth i table (-1) = Z.of_nat (fst c) /\
      leafHeader SectorSize NumDirect (disk (Z.of_nat (fst c)))
                 (Z.min (SingleSize SectorSize NumDirect) fileSize) (snd c) /\
      childrenAt SectorSize NumDirect disk table (S i)
                 (fileSize - SingleSize SectorSize NumDirect) C'
  end.

End Filehdr.

(** ** The scheduler *)

Module Scheduler.

(** Modelled from the spec: the thread states of threads/thread.h. *)
Inductive ThreadStatus : Type := READY | RUNNING | BLOCKED | TERMINATED.

(** Modelled from the spec: the fields of [Thread] (threads/thread.h) the
    scheduler reads and writes through [getID], [getPriority],
    [getBurstTime], [getBurstStart], [getWaitTime] and their setters, all
    [int]s (the source prints each with [%d]); [space] says whether the
    thread owns a user address space; [stackIntact] says whether the end
    of the thread's stack is as it was set up, which is what
    [CheckOverflow] looks at. *)
Record Thread : Type := mkThread {
  ID : Z;
  status : ThreadStatus;
  priority : Z;
  burstTime : Z;
  burstStart : Z;
  waitTime : Z;
  space : bool;
  stackIntact : bool
}.

(** A [Thread *]: the address of a thread object. *)
Definition ThreadRef := nat.

(** [kernel->interrupt->getLevel()] *)
Inductive IntStatus : Type := IntOff | IntOn.

Definition isIntOff (l : IntStatus) : bool :=
  match l with IntOff => true | IntOn => false end.

(** The scheduler with the parts of the kernel it touches.  [threads] is the
    heap of thread objects: the queues, [currentThread] and [toBeDestroyed]
    hold addresses, so a write through one is seen through all.
    [preempts] counts the calls of [kernel->interrupt->Preempt()], the
    preemption request handed to the interrupt layer.  The trace output
    ([printf], [DEBUG]) is left out. *)
Record State : Type := mkState {
  threads : ThreadRef -> Thread;
  L1Q_ : list ThreadRef;
  L2Q_ : list ThreadRef;
  L3Q_ : list ThreadRef;
  toBeDestroyed : option ThreadRef;
  currentThread : ThreadRef;
  totalTicks : Z;
  level : IntStatus;
  preempts : nat
}.

(** *** Writes to a thread object *)

Definition store (s : State) (t : ThreadRef) (th : Thread) : State :=
  mkState (fun r => if Nat.eqb r t then th else threads s r)
          (L1Q_ s) (L2Q_ s) (L3Q_ s) (toBeDestroyed s) (currentThread s)
          (totalTicks s) (level s) (preempts s).

Definition setStatus (s : State) (t : ThreadRef) (st : ThreadStatus) : State :=
  let th := threads s t in
  store s t (mkThread (ID th) st (priority th) (burstTime th) (burstStart th)
                      (waitTime th) (space th) (stackIntact th)).

Definition setPriority (s : State) (t : ThreadRef) (p : Z) : State :=
  let th := threads s t in
  store s t (mkThread (ID th) (status th) p (burstTime th) (burstStart th)
                      (waitTime th) (space th) (stackIntact th)).

Definition setBurstTime (s : State) (t : ThreadRef) (b : Z) : State :=
  let th := threads s t in
  store s t (mkThread (ID th) (status th) (priority th) b (burstStart th)
                      (waitTime th) (space th) (stackIntact th)).

Definition setBurstStart (s : State) (t : ThreadRef) (b : Z) : State :=
  let th := threads s t in
  store s t (mkThread (ID th) (status th) (priority th) (burstTime th) b
                      (waitTime th) (space th) (stackIntact th)).

Definition setWaitTime (s : State) (t : ThreadRef) (w : Z) : State :=
  let th := threads s t in
  store s t (mkThread (ID th) (status th) (priority th) (burstTime th)
                      (burstStart th) w (space th) (stackIntact th)).

(** *** Writes to the scheduler and the kernel *)

Definition setL1 (s : State) (q : list ThreadRef) : State :=
  mkState (threads s) q (L2Q_ s) (L3Q_ s) (toBeDestroyed s) (currentThread s)
          (totalTicks s) (level s) (preempts s).

Definition setL2 (s : State) (q : list ThreadRef) : State :=
  mkState (threads s) (L1Q_ s) q (L3Q_ s) (toBeDestroyed s) (currentThread s)
          (totalTicks s) (level s) (preempts s).

Definition setL3 (s : State) (q : list ThreadRef) : State :=
  mkState (threads s) (L1Q_ s) (L2Q_ s) q (toBeDestroyed s) (currentThread s)
          (totalTicks s) (level s) (preempts s).

Definition setToBeDestroyed (s : State) (t : option ThreadRef) : State :=
  mkState (threads s) (L1Q_ s) (L2Q_ s) (L3Q_ s) t (currentThread s)
          (totalTicks s) (level s) (preempts s).

Definition setCurrentThread (s : State) (t : ThreadRef) : State :=
  mkState (threads s) (L1Q_ s) (L2Q_ s) (L3Q_ s) (toBeDestroyed s) t
          (totalTicks s) (level s) (preempts s).

(** [kernel->interrupt->Preempt()] *)
Definition Preempt (s : State) : State :=
  mkState (threads s) (L1Q_ s) (L2Q_ s) (L3Q_ s) (toBeDestroyed s)
          (currentThread s) (totalTicks s) (level s) (S (preempts s)).

(** *** The queues *)

(** Modelled from the spec: [List<T>] and [SortedList<T>] of lib/list.h,
    which is not among the sources.  [Append] adds at the tail; [Insert]
    keeps the order of the comparator and is stable (the new item goes
    before the first item that compares greater); [RemoveFront] takes the
    head; [Remove] takes an item out. *)
Definition IsEmpty (q : list ThreadRef) : bool :=
  match q with [] => true | _ => false end.

Definition Append (q : list ThreadRef) (t : ThreadRef) : list ThreadRef := q ++ [t].

Fixpoint Insert (compare : ThreadRef -> ThreadRef -> Z) (q : list ThreadRef)
    (t : ThreadRef) : list ThreadRef :=
  match q with
  | [] => [t]
  | x :: r => if compare t x <? 0 then t :: q else x :: Insert compare r t
  end.

Definition RemoveFront (q : list ThreadRef) : Outcome (ThreadRef * list ThreadRef) :=
  match q with
  | [] => Fatal
  | t :: r => Done (t, r)
  end.

Fixpoint Remove (q : list ThreadRef) (t : ThreadRef) : list ThreadRef :=
  match q with
  | [] => []
  | x :: r => if Nat.eqb x t then r else x :: Remove r t
  end.

(** Modelled from the spec: the comparators [Thread::cmpBurstTime] (L1:
    shortest estimated burst first) and [Thread::cmpPriority] (L2: highest
    priority first) of threads/thread.cc. *)
Definition cmpBurstTime (s : State) (x y : ThreadRef) : Z :=
  burstTime (threads s x) - burstTime (threads s y).

Definition cmpPriority (s : State) (x y : ThreadRef) : Z :=
  priority (threads s y) - priority (threads s x).

(** *** Burst estimates *)

(** A value as a 32-bit [int] holds it: reduced modulo [2^32] into
    [-2^31, 2^31). *)
Definition int32 (z : Z) : Z := (z + 2 ^ 31) mod 2 ^ 32 - 2 ^ 31.

(** The conversion of a [double] to [int]: truncation toward zero. *)
Definition double_to_int (q : Q) : Z := Z.quot (Qnum q) (Zpos (Qden q)).

(** [0.5 * lastEstimate + 0.5 * elapsed] as the source computes it in
    [double].  Halves of [int]s and their sums are represented exactly, so
    the value is this rational number. *)
Definition estimate (lastEstimate elapsed : Z) : Q :=
  (1 # 2) * inject_Z lastEstimate + (1 # 2) * inject_Z elapsed.

(** *** [Scheduler::ReadyToRun] *)

Definition ReadyToRun (s : State) (thread : ThreadRef) : Outcome State :=
  _ <- ASSERT (isIntOff (level s)) ;;
  let s := setStatus s thread READY in
  let p := priority (threads s thread) in
  let ticks := totalTicks s in
  let s := setWaitTime s thread ticks in
  if p <? 50 then
    Done (setL3 s (Append (L3Q_ s) thread))
  else if p <? 100 then
    let s := setL2 s (Insert (cmpPriority s) (L2Q_ s) thread) in
    if (p >? priority (threads s (currentThread s)))
       && negb (ID (threads s (currentThread s)) =? 0)
    then Done (Preempt s)
    else Done s
  else
    let s := setL1 s (Insert (cmpBurstTime s) (L1Q_ s) thread) in
    let ti := double_to_int
                (estimate (burstTime (threads s (currentThread s)))
                          (ticks - burstStart (threads s (currentThread s)))) in
    if negb (ID (threads s thread) =? ID (threads s (currentThread s)))
       && negb (ID (threads s (currentThread s)) =? 0)
    then
      if priority (threads s (currentThread s)) >=? 100 then
        if burstTime (threads s thread) <? ti
        then Done (Preempt s)
        else Done s
      else Done (Preempt s)
    else Done s.

(** *** [Scheduler::FindNextToRun] *)

Definition FindNextToRun (s : State) : Outcome (option ThreadRef * State) :=
  _ <- ASSERT (isIntOff (level s)) ;;
  if negb (IsEmpty (L1Q_ s)) then
    '(ret, q) <- RemoveFront (L1Q_ s) ;; Done (Some ret, setL1 s q)
  else if negb (IsEmpty (L2Q_ s)) then
    '(ret, q) <- RemoveFront (L2Q_ s) ;; Done (Some ret, setL2 s q)
  else if negb (IsEmpty (L3Q_ s)) then
    '(ret, q) <- RemoveFront (L3Q_ s) ;; Done (Some ret, setL3 s q)
  else Done (None, s).

(** *** [Scheduler::Run] *)

(** Modelled from the spec: [Thread::CheckOverflow] (threads/thread.cc),
    "check the outgoing task's stack for overflow (fatal if detected)". *)
Definition CheckOverflow (th : Thread) : Outcome unit :=
  ASSERT (stackIntact th).

(** The function up to the call of [SWITCH], where control leaves the
    outgoing thread.  Saving the user registers and the address space acts
    on machine state outside this model.  [oldThread->getBurstTime() +
    duration] is a sum of two [int]s, taken before the conversion to
    [double]. *)
Definition Run (s : State) (nextThread : ThreadRef) (finishing : bool)
  : Outcome State :=
  let oldThread := currentThread s in
  _ <- ASSERT (isIntOff (level s)) ;;
  if ID (threads s oldThread) =? ID (threads s nextThread) then Done s
  else
    s <- (if finishing then
            _ <- ASSERT (match toBeDestroyed s with None => true | Some _ => false end) ;;
            Done (setToBeDestroyed s (Some oldThread))
          else Done s) ;;
    _ <- CheckOverflow (threads s oldThread) ;;
    let s := setCurrentThread s nextThread in
    let s := setStatus s nextThread RUNNING in
    let ticks := totalTicks s in
    let duration := ticks - burstStart (threads s oldThread) in
    let ti := double_to_int
                (inject_Z (int32 (burstTime (threads s oldThread) + duration))
                 * (1 # 2)) in
    let s := setBurstStart s (currentThread s) ticks in
    let s := setBurstTime s oldThread ti in
    Done s.


(** *** [Scheduler::Aging] *)

(** [ticks - thread->getWaitTime() > 1500] *)
Definition waitedLong (ticks : Z) (th : Thread) : bool :=
  ticks - waitTime th >? 1500.

(** Modelled from the spec: [ListIterator<T>] of lib/list.h, which is not
    among the sources; the spec says of [Aging] that it "scans L1 and L2"
    and of its iterators nothing.  An iterator stands on a cell of the list
    and [Next()] follows the link of that cell, so on a list that is not
    changed under it the iterator visits the items from the head on.
    [Remove] frees the cell of the item it takes out: [Next()] on an
    iterator that stands on that cell reads a cell that is no more, and
    what the scan does from there on is undefined. *)
Definition ListIterator (q : list ThreadRef) : list ThreadRef := q.

(** Where an iterator stands when a scan ends: behind the last cell, or on
    a cell that [Remove] has freed. *)
Inductive Cursor : Type := AtEnd | OnFreedCell.

(** The scan of L1: priority and waiting time are written in place. *)
Fixpoint AgingL1 (ticks : Z) (it1 : list ThreadRef) (s : State) : State :=
  match it1 with
  | [] => s
  | thread :: it1' =>
      if waitedLong ticks (threads s thread) then
        let priority_ := priority (threads s thread) in
        let new_priority := Z.min (priority_ + 10) 149 in
        let s := setPriority s thread new_priority in
        let s := setWaitTime s thread ticks in
        AgingL1 ticks it1' s
      else AgingL1 ticks it1' s
  end.

(** The scan of L2, up to the point where it ends or where [it2->Next()]
    is called on a freed cell: the thread [it2] stands on is taken out of
    L2, which frees its cell, and handed to [ReadyToRun]; the call of
    [it2->Next()] that follows finds the iterator on that cell.  The
    result is the state reached and where the iterator stands. *)
Fixpoint AgingL2 (ticks : Z) (it2 : list ThreadRef) (s : State)
  : Outcome (State * Cursor) :=
  match it2 with
  | [] => Done (s, AtEnd)
  | thread :: it2' =>
      if waitedLong ticks (threads s thread) then
        let s := setL2 s (Remove (L2Q_ s) thread) in
        let priority_ := priority (threads s thread) in
        let new_priority := Z.min (priority_ + 10) 149 in
        let s := setPriority s thread new_priority in
        let s := setWaitTime s thread ticks in
        s <- ReadyToRun s thread ;;
        Done (s, OnFreedCell)
      else AgingL2 ticks it2' s
  end.

(** [Scheduler::Aging].  A scan of L2 that ends behind the last cell
    returns; one that calls [it2->Next()] on a freed cell has no defined
    continuation. *)
Definition Aging (s : State) : Outcome State :=
  let it1 := ListIterator (L1Q_ s) in
  let it2 := ListIterator (L2Q_ s) in
  let ticks := totalTicks s in
  '(s, cursor) <- AgingL2 ticks it2 (AgingL1 ticks it1 s) ;;
  match cursor with
  | AtEnd => Done s
  | OnFreedCell => Fatal
  end.

(** *** Views used by the statements *)

(** The two writes [ReadyToRun] makes to the admitted thread before it
    chooses a queue: [setStatus(READY)] and [setWaitTime(ticks)]. *)
Definition admitted (s : State) (thread : ThreadRef) : State :=
  setWaitTime (setStatus s thread READY) thread (totalTicks s).

(** The two writes [Aging] makes to a thread that waited long:
    [setPriority(min(priority + 10, 149))] and [setWaitTime(ticks)]. *)
Definition promote (ticks : Z) (th : Thread) : Thread :=
  mkThread (ID th) (status th) (Z.min (priority th + 10) 149) (burstTime th)
           (burstStart th) ticks (space th) (stackIntact th).

(** A thread object as [ReadyToRun] leaves it. *)
Definition readied (ticks : Z) (th : Thread) : Thread :=
  mkThread (ID th) READY (priority th) (burstTime th) (burstStart th) ticks
           (space th) (stackIntact th).

(** Membership of an address in a queue, as a boolean. *)
Definition queued (t : ThreadRef) (q : list ThreadRef) : bool :=
  existsb (Nat.eqb t) q.

(** The queue of the band a priority belongs to. *)
Definition bandQueue (s : State) (p : Z) : list ThreadRef :=
  if p <? 50 then L3Q_ s else if p <? 100 then L2Q_ s else L1Q_ s.

(** The state in which the scan of L2 hands a thread that waited long to
    [ReadyToRun]: taken out of L2, priority raised, waiting time reset. *)
Definition dequeuedL2 (ticks : Z) (s : State) (thread : ThreadRef) : State :=
  let s1 := setL2 s (Remove (L2Q_ s) thread) in
  let s2 := setPriority s1 thread (Z.min (priority (threads s1 thread) + 10) 149) in
  setWaitTime s2 thread ticks.

(** *** [Scheduler::Scheduler] *)

(** The constructor: three empty queues and no thread to destroy.  The
    kernel around the scheduler ([threads], [currentThread], the clock, the
    interrupt level) is whatever it is. *)
Definition newScheduler (s : State) : State :=
  mkState (threads s) [] [] [] None (currentThread s) (totalTicks s)
          (level s) (preempts s).

(** *** The ready queues as a whole *)

(** The queued threads, in the order [FindNextToRun] serves them. *)
Definition allQueued (s : State) : list ThreadRef :=
  L1Q_ s ++ L2Q_ s ++ L3Q_ s.

(** A queue in the order of [cmpBurstTime]: shortest estimate first. *)
Definition burstOrdered (s : State) (q : list ThreadRef) : Prop :=
  StronglySorted
    (fun x y => burstTime (threads s x) <= burstTime (threads s y)) q.

(** A queue in the order of [cmpPriority]: highest priority first. *)
Definition priorityOrdered (s : State) (q : list ThreadRef) : Prop :=
  StronglySorted
    (fun x y => priority (threads s y) <= priority (threads s x)) q.

(** The shape the scheduler keeps its queues in: a thread is queued at most
    once, in the queue of its priority band, L1 is in burst order and L2 in
    priority order. *)
Definition wellFormed (s : State) : Prop :=
  NoDup (allQueued s) /\
  (forall t, In t (L1Q_ s) -> 100 <= priority (threads s t)) /\
  (forall t, In t (L2Q_ s) -> 50 <= priority (threads s t) < 100) /\
  (forall t, In t (L3Q_ s) -> priority (threads s t) < 50) /\
  burstOrdered s (L1Q_ s) /\
  priorityOrdered s (L2Q_ s).

(** *** Concrete states *)

(** Thread objects: at address 0 a thread of the L1 band whose last burst
    estimate is 3 and whose burst started at tick 0; at 1 a thread of the L1
    band with estimate 2; at 2 a thread of the L2 band waiting since tick
    100; at 3 a thread of the L3 band. *)
Definition exThreads : ThreadRef -> Thread :=
  fun r =>
    match r with
    | 0%nat => mkThread 1 RUNNING 120 3 0 0 false true
    | 1%nat => mkThread 2 BLOCKED 110 2 0 0 false true
    | 2%nat => mkThread 3 READY 60 5 0 100 false true
    | 3%nat => mkThread 4 READY 10 5 0 0 false true
    | _ => mkThread 0 BLOCKED 0 0 0 0 false true
    end.

(** Tick 2, thread 0 running, nothing queued. *)
Definition srtfState : State :=
  mkState exThreads [] [] [] None 0%nat 2 IntOff 0%nat.

(** Tick 2, the L3 thread 3 running, nothing queued. *)
Definition lowState : State :=
  mkState exThreads [] [] [] None 3%nat 2 IntOff 0%nat.

(** Tick 2000, thread 0 running, one thread in each queue. *)
Definition queueState : State :=
  mkState exThreads [1%nat] [2%nat] [3%nat] None 0%nat 2000 IntOff 0%nat.

(** Tick 2, the idle thread (ID 0, at address 4) running, nothing queued. *)
Definition idleState : State :=
  mkState exThreads [] [] [] None 4%nat 2 IntOff 0%nat.

(** Tick 1600, one thread in each queue: thread 1 of L1 has waited 1600
    ticks, thread 2 of L2 has waited 1500. *)
Definition earlyState : State :=
  mkState exThreads [1%nat] [2%nat] [3%nat] None 0%nat 1600 IntOff 0%nat.

(** The threads above and, at address 5, a thread of the L2 band with
    priority 90, waiting since tick 0. *)
Definition agingThreads : ThreadRef -> Thread :=
  fun r =>
    match r with
    | 5%nat => mkThread 6 READY 90 5 0 0 false true
    | _ => exThreads r
    end.

(** Tick 2000, thread 0 running, thread 1 in L1, the threads 5 and 2 in L2
    in the order of their priorities, thread 3 in L3. *)
Definition agingState : State :=
  mkState agingThreads [1%nat] [5%nat; 2%nat] [3%nat] None 0%nat 2000 IntOff
          0%nat.

(** Tick 1, thread 0 running with the largest estimate an [int] holds. *)
Definition wrapState : State :=
  mkState (fun r => match r with
                    | 0%nat => mkThread 1 RUNNING 120 2147483647 0 0 false true
                    | _ => exThreads r
                    end)
          [] [] [] None 0%nat 1 IntOff 0%nat.

End Scheduler.

(** ** Proof steps that recur *)

(** A size test [x >? y] that fails. *)
Ltac not_above := symmetry; rewrite Z.gtb_ltb; apply Z.ltb_ge; lia.

(** An index within the table: [(0 <=? i) && (i <? NumDirect)] holds. *)
Ltac in_table :=
  symmetry; apply andb_true_iff; split; [apply Z.leb_le | apply Z.ltb_lt]; lia.

(** * Properties *)

Import Filehdr.
Import Scheduler.

(** ** File headers *)

(** *** Rounding up *)

Lemma divRoundUp_ceil (n s : Z) :
  0 <= n -> 0 < s -> divRoundUp n s = (n + s - 1) / s.
Proof.
  intros Hn Hs. unfold divRoundUp.
  rewrite Z.quot_div_nonneg, Z.rem_mod_nonneg by lia.
  pose proof (Z.div_mod n s ltac:(lia)) as E.
  pose proof (Z.mod_pos_bound n s Hs) as B.
  destruct (n mod s >? 0) eqn:G.
  - apply Z.gtb_lt in G. apply Z.div_unique with (r := n mod s - 1); lia.
  - rewrite Z.gtb_ltb in G. apply Z.ltb_ge in G.
    apply Z.div_unique with (r := s - 1); lia.
Qed.

Lemma ceil_spec (n s k : Z) :
  0 < s -> ((n + s - 1) / s = k <-> (k - 1) * s < n <= k * s).
Proof.
  intros Hs. pose proof (Z.div_mod (n + s - 1) s ltac:(lia)) as E.
  pose proof (Z.mod_pos_bound (n + s - 1) s Hs) as B.
  split.
  - intros <-. nia.
  - intros H. symmetry. apply Z.div_unique with (r := n + s - 1 - s * k); nia.
Qed.

Lemma divRoundUp_spec (n s k : Z) :
  0 <= n -> 0 < s -> (divRoundUp n s = k <-> (k - 1) * s < n <= k * s).
Proof. intros Hn Hs. rewrite divRoundUp_ceil by assumption. now apply ceil_spec. Qed.

Lemma divRoundUp_nonneg (n s : Z) : 0 <= n -> 0 < s -> 0 <= divRoundUp n s.
Proof.
  intros Hn Hs. rewrite divRoundUp_ceil by assumption.
  apply Z.div_pos; lia.
Qed.

(** Rounding up twice is rounding up once by the product. *)
Lemma divRoundUp_twice (n s d : Z) :
  0 <= n -> 0 < s -> 0 < d ->
  divRoundUp (divRoundUp n s) d = divRoundUp n (d * s).
Proof.
  intros Hn Hs Hd.
  pose proof (divRoundUp_nonneg n s Hn Hs) as Hq.
  assert (Hds : 0 < d * s) by nia.
  destruct (proj1 (divRoundUp_spec n s _ Hn Hs) eq_refl) as [A1 A2].
  destruct (proj1 (divRoundUp_spec n (d * s) _ Hn Hds) eq_refl) as [B1 B2].
  apply divRoundUp_spec; [assumption | assumption |].
  set (q := divRoundUp n s) in *. set (k := divRoundUp n (d * s)) in *.
  split.
  - assert ((k - 1) * d * s < q * s) by nia. nia.
  - assert ((q - 1) * s < k * d * s) by nia.
    assert (q - 1 < k * d) by nia. lia.
Qed.

(** *** Arrays *)

Lemma upd_length {A : Type} (n : nat) (x : A) (l : list A) :
  length (upd n x l) = length l.
Proof.
  revert n. induction l as [|a l IH]; intros [|n]; cbn; auto.
Qed.

Lemma nth_upd {A : Type} (n k : nat) (x d : A) (l : list A) :
  nth k (upd n x l) d =
  if Nat.eqb k n && Nat.ltb n (length l) then x else nth k l d.
Proof.
  revert n k. induction l as [|a l IH]; intros n k.
  - cbn. rewrite andb_false_r. destruct n; reflexivity.
  - destruct n as [|n], k as [|k]; cbn [upd nth length]; try reflexivity.
    rewrite IH. reflexivity.
Qed.

(** *** The pool *)

Lemma NumClear_nonneg (m : Bitmap.t) : 0 <= Bitmap.NumClear m.
Proof. induction m as [|[] m IH]; cbn [Bitmap.NumClear]; lia. Qed.

(** A pool with a free sector hands out a sector of the map that was free,
    and marks it. *)
Lemma FindAndSet_found (m : Bitmap.t) :
  0 < Bitmap.NumClear m ->
  exists i : nat,
    Bitmap.FindAndSet m = (Z.of_nat i, upd i true m) /\
    (i < length m)%nat /\ nth i m false = false /\
    Bitmap.NumClear (upd i true m) = Bitmap.NumClear m - 1.
Proof.
  induction m as [|b m IH]; cbn [Bitmap.NumClear]; [lia|].
  destruct b; intros H.
  - destruct (IH ltac:(lia)) as (i & E & L & N & C).
    exists (S i). cbn [Bitmap.FindAndSet]. rewrite E.
    replace (Z.of_nat i <? 0) with false by (symmetry; apply Z.ltb_ge; lia).
    split; [cbn [upd]; f_equal; lia|]. cbn [length nth upd Bitmap.NumClear].
    split; [lia|]. split; [assumption|]. lia.
  - exists 0%nat. cbn [Bitmap.FindAndSet upd length nth Bitmap.NumClear].
    split; [reflexivity|]. split; [lia|]. split; [reflexivity|]. lia.
Qed.

(** A pool without a free sector hands out [-1] and stays as it is. *)
Lemma FindAndSet_none (m : Bitmap.t) :
  Bitmap.NumClear m = 0 -> Bitmap.FindAndSet m = (-1, m).
Proof.
  induction m as [|b m IH]; cbn [Bitmap.NumClear Bitmap.FindAndSet]; [reflexivity|].
  pose proof (NumClear_nonneg m) as P. destruct b; intros H; [|lia].
  rewrite IH by lia. reflexivity.
Qed.

Lemma Test_nat (m : Bitmap.t) (i : nat) :
  Bitmap.Test m (Z.of_nat i) = nth i m false.
Proof.
  unfold Bitmap.Test. rewrite Nat2Z.id.
  replace (0 <=? Z.of_nat i) with true by (symmetry; apply Z.leb_le; lia).
  reflexivity.
Qed.

Lemma Clear_nat (m : Bitmap.t) (i : nat) :
  Bitmap.Clear m (Z.of_nat i) = upd i false m.
Proof.
  unfold Bitmap.Clear. rewrite Nat2Z.id.
  replace (0 <=? Z.of_nat i) with true by (symmetry; apply Z.leb_le; lia).
  reflexivity.
Qed.

Lemma NumClear_Clear (m : Bitmap.t) (i : nat) :
  nth i m false = true ->
  Bitmap.NumClear (upd i false m) = Bitmap.NumClear m + 1.
Proof.
  revert i. induction m as [|b m IH]; intros [|i]; cbn [nth upd Bitmap.NumClear];
    try discriminate.
  - intros ->. lia.
  - intros H. rewrite IH by assumption. lia.
Qed.

Lemma existsb_In (k : nat) (L : list nat) :
  existsb (Nat.eqb k) L = true <-> In k L.
Proof.
  rewrite existsb_exists. split.
  - intros (x & Hx & E). apply Nat.eqb_eq in E. now subst.
  - intros H. exists k. split; [assumption | apply Nat.eqb_refl].
Qed.

(** *** The capacity ladder *)

Section Ladder.

Variables SectorSize NumDirect : Z.
Hypothesis SectorSize_pos : 0 < SectorSize.
Hypothesis NumDirect_pos : 0 < NumDirect.

Lemma ladder :
  SingleSize SectorSize NumDirect <= DoubleSize SectorSize NumDirect /\
  DoubleSize SectorSize NumDirect <= TripleSize SectorSize NumDirect /\
  0 < SingleSize SectorSize NumDirect.
Proof using SectorSize_pos NumDirect_pos.
  unfold TripleSize, DoubleSize, SingleSize. nia.
Qed.

(** One level of [Allocate]. *)
Lemma Allocate_unfold (depth : nat) (this : FileHeader) (freeMap : Bitmap.t)
    (disk : Disk) (fileSize : Z) :
  Allocate SectorSize NumDirect (S depth) this freeMap disk fileSize =
  let this := mkHdr fileSize (divRoundUp fileSize SectorSize) (dataSectors this) in
  if Bitmap.NumClear freeMap <? numSectors this then
    Done (false, this, freeMap, disk)
  else if fileSize >? TripleSize SectorSize NumDirect then
    r <- AllocateChildren NumDirect (Allocate SectorSize NumDirect depth)
           (TripleSize SectorSize NumDirect) (Z.to_nat fileSize) 0 []
           fileSize this freeMap disk ;;
    finishLoop r
  else if fileSize >? DoubleSize SectorSize NumDirect then
    r <- AllocateChildren NumDirect (Allocate SectorSize NumDirect depth)
           (DoubleSize SectorSize NumDirect) (Z.to_nat fileSize) 0 []
           fileSize this freeMap disk ;;
    finishLoop r
  else if fileSize >? SingleSize SectorSize NumDirect then
    r <- AllocateChildren NumDirect (Allocate SectorSize NumDirect depth)
           (SingleSize SectorSize NumDirect) (Z.to_nat fileSize) 0 []
           fileSize this freeMap disk ;;
    finishLoop r
  else
    '(this1, freeMap1) <-
       AllocateDirect NumDirect (Z.to_nat (numSectors this)) 0 this freeMap ;;
    Done (true, this1, freeMap1, disk).
Proof using Type. reflexivity. Qed.

End Ladder.

(** *** The direct loops *)

Section Direct.

Variable NumDirect : Z.

(** The direct loop of [Allocate] on a pool with enough free sectors: it
    returns, and the [n] entries it writes from index [i] on are [n]
    different sectors [L] of the pool, free before and marked after; no
    other bit of the pool and no entry below [i] changes. *)
Lemma AllocateDirect_spec (n : nat) :
  forall (i : nat) (this : FileHeader) (freeMap : Bitmap.t),
  Z.of_nat n <= Bitmap.NumClear freeMap ->
  (i + n <= length (dataSectors this))%nat ->
  Z.of_nat (length (dataSectors this)) = NumDirect ->
  exists (this' : FileHeader) (freeMap' : Bitmap.t) (L : list nat),
    AllocateDirect NumDirect n (Z.of_nat i) this freeMap = Done (this', freeMap') /\
    length L = n /\ NoDup L /\
    (forall s, In s L -> (s < length freeMap)%nat /\ nth s freeMap false = false) /\
    length freeMap' = length freeMap /\
    (forall k, nth k freeMap' false = existsb (Nat.eqb k) L || nth k freeMap false) /\
    Bitmap.NumClear freeMap' = Bitmap.NumClear freeMap - Z.of_nat n /\
    numBytes this' = numBytes this /\ numSectors this' = numSectors this /\
    length (dataSectors this') = length (dataSectors this) /\
    (forall j, (j < n)%nat ->
       nth (i + j) (dataSectors this') (-1) = Z.of_nat (nth j L 0%nat)) /\
    (forall j, (j < i)%nat ->
       nth j (dataSectors this') (-1) = nth j (dataSectors this) (-1)).
Proof.
  induction n as [|n IH]; intros i this freeMap Hfree Hlen Hnd.
  - exists this, freeMap, []. cbn [AllocateDirect length existsb orb].
    split; [reflexivity|]. split; [reflexivity|]. split; [constructor|].
    split; [intros s []|]. split; [reflexivity|]. split; [reflexivity|].
    split; [cbn; lia|]. split; [reflexivity|]. split; [reflexivity|].
    split; [reflexivity|]. split; [intros j Hj; lia | reflexivity].
  - destruct (FindAndSet_found freeMap ltac:(lia)) as (s & Efs & Hs & Hclear & Hcount).
    cbn [AllocateDirect]. rewrite Efs. unfold setSector.
    replace ((0 <=? Z.of_nat i) && (Z.of_nat i <? NumDirect)) with true
      by in_table.
    cbn [bind]. rewrite Nat2Z.id.
    set (this1 := mkHdr _ _ _).
    replace (Z.of_nat i + 1) with (Z.of_nat (S i)) by lia.
    destruct (IH (S i) this1 (upd s true freeMap))
      as (this' & freeMap' & L & Erun & HL & Hdup & Hin & Hlen' & Hnth & Hnum
          & Hb & Hsec & Hds & Hwritten & Hbelow).
    { lia. }
    { unfold this1. cbn [dataSectors]. rewrite upd_length. lia. }
    { unfold this1. cbn [dataSectors]. rewrite upd_length. exact Hnd. }
    assert (Hmarked : nth s (upd s true freeMap) false = true).
    { rewrite nth_upd, Nat.eqb_refl. apply Nat.ltb_lt in Hs. now rewrite Hs. }
    exists this', freeMap', (s :: L). split; [exact Erun|].
    split; [cbn; lia|]. split.
    { constructor; [|assumption]. intros Hs'. apply Hin in Hs'. destruct Hs'. congruence. }
    split.
    { intros s' [<-|Hs']; [split; assumption|]. destruct (Hin s' Hs') as [A B].
      rewrite upd_length in A. split; [assumption|].
      rewrite nth_upd in B. destruct (Nat.eqb s' s && Nat.ltb s (length freeMap));
        [discriminate | assumption]. }
    split; [now rewrite Hlen', upd_length|]. split.
    { intros k. rewrite Hnth, nth_upd. cbn [existsb].
      apply Nat.ltb_lt in Hs. rewrite Hs, andb_true_r.
      destruct (Nat.eqb k s), (existsb (Nat.eqb k) L); reflexivity. }
    split; [lia|]. split; [exact Hb|]. split; [exact Hsec|].
    split; [rewrite Hds; unfold this1; cbn [dataSectors]; apply upd_length|].
    split.
    { intros [|j] Hj.
      - rewrite Nat.add_0_r, Hbelow by lia. unfold this1. cbn [dataSectors nth].
        rewrite nth_upd, Nat.eqb_refl.
        replace (Nat.ltb i (length (dataSectors this))) with true
          by (symmetry; apply Nat.ltb_lt; lia).
        reflexivity.
      - replace (i + S j)%nat with (S i + j)%nat by lia. cbn [nth].
        apply Hwritten. lia. }
    { intros j Hj. rewrite Hbelow by lia. unfold this1. cbn [dataSectors].
      rewrite nth_upd.
      replace (Nat.eqb j i) with false by (symmetry; apply Nat.eqb_neq; lia).
      reflexivity. }
Qed.

(** The direct loop of [Deallocate] on [n] entries that hold [n] different
    marked sectors [L]: every [ASSERT] holds, the loop returns, and exactly
    the sectors [L] have been cleared. *)
Lemma DeallocateDirect_spec (n : nat) :
  forall (i : nat) (this : FileHeader) (freeMap : Bitmap.t) (L : list nat),
  length L = n -> NoDup L ->
  (forall s, In s L -> nth s freeMap false = true) ->
  (i + n <= length (dataSectors this))%nat ->
  Z.of_nat (length (dataSectors this)) = NumDirect ->
  (forall j, (j < n)%nat ->
     nth (i + j) (dataSectors this) (-1) = Z.of_nat (nth j L 0%nat)) ->
  exists freeMap' : Bitmap.t,
    DeallocateDirect NumDirect n (Z.of_nat i) this freeMap = Done freeMap' /\
    length freeMap' = length freeMap /\
    (forall k, nth k freeMap' false =
               negb (existsb (Nat.eqb k) L) && nth k freeMap false) /\
    Bitmap.NumClear freeMap' = Bitmap.NumClear freeMap + Z.of_nat n.
Proof.
  induction n as [|n IH]; intros i this freeMap L HL Hdup Hset Hlen Hnd Hent.
  - destruct L; [|discriminate]. exists freeMap. cbn [DeallocateDirect existsb negb andb].
    split; [reflexivity|]. split; [reflexivity|]. split; [reflexivity|]. cbn; lia.
  - destruct L as [|s L]; [discriminate|]. injection HL as HL.
    apply NoDup_cons_iff in Hdup as [Hs HdupL].
    cbn [DeallocateDirect]. unfold getSector.
    replace ((0 <=? Z.of_nat i) && (Z.of_nat i <? NumDirect)) with true
      by in_table.
    cbn [bind]. rewrite Nat2Z.id.
    pose proof (Hent 0%nat ltac:(lia)) as E0. rewrite Nat.add_0_r in E0.
    cbn [nth] in E0. rewrite E0, Test_nat, (Hset s (or_introl eq_refl)).
    cbn [ASSERT bind]. rewrite Clear_nat.
    replace (Z.of_nat i + 1) with (Z.of_nat (S i)) by lia.
    destruct (IH (S i) this (upd s false freeMap) L HL HdupL)
      as (freeMap' & Erun & Hlen' & Hnth & Hnum).
    { intros s' Hs'. rewrite nth_upd.
      replace (Nat.eqb s' s) with false
        by (symmetry; apply Nat.eqb_neq; intros ->; contradiction).
      cbn [andb]. apply Hset. now right. }
    { lia. }
    { exact Hnd. }
    { intros j Hj. replace (S i + j)%nat with (i + S j)%nat by lia.
      rewrite Hent by lia. reflexivity. }
    assert (Hsin : (s < length freeMap)%nat).
    { destruct (Nat.lt_ge_cases s (length freeMap)) as [|Hge]; [assumption|].
      pose proof (Hset s (or_introl eq_refl)) as T.
      rewrite nth_overflow in T by assumption. discriminate. }
    exists freeMap'. split; [exact Erun|]. split; [now rewrite Hlen', upd_length|].
    split.
    { intros k. rewrite Hnth, nth_upd. cbn [existsb].
      apply Nat.ltb_lt in Hsin. rewrite Hsin, andb_true_r.
      destruct (Nat.eqb k s), (existsb (Nat.eqb k) L); cbn [negb orb andb];
        reflexivity || apply andb_false_r. }
    rewrite Hnum, NumClear_Clear by (apply Hset; now left). lia.
Qed.

End Direct.

(** *** The indirect loops of [Allocate] *)

Section Loops.

Variables SectorSize NumDirect : Z.

(** Whatever the recursive calls do, a loop that returns has written one
    table entry per chunk of the size it was given. *)
Lemma AllocateChildren_written
    (alloc : FileHeader -> Bitmap.t -> Disk -> Z -> Outcome AllocResult)
    (chunk : Z) (fuel : nat) :
  0 < chunk ->
  forall (i : Z) (oks : list bool) (fileSize : Z) (this : FileHeader)
         (freeMap : Bitmap.t) (disk : Disk) (r : LoopResult),
  AllocateChildren NumDirect alloc chunk fuel i oks fileSize this freeMap disk = Done r ->
  written r = i + (if fileSize >? 0 then divRoundUp fileSize chunk else 0) /\
  numBytes (loopHdr r) = numBytes this /\
  numSectors (loopHdr r) = numSectors this.
Proof.
  intros Hc. induction fuel as [|fuel IH]; intros i oks fileSize this freeMap disk r;
    cbn [AllocateChildren]; destruct (fileSize >? 0) eqn:G;
    try (intros [= <-]; cbn; repeat split; lia); try discriminate.
  apply Z.gtb_lt in G.
  destruct (Bitmap.FindAndSet freeMap) as [s freeMap1].
  unfold setSector.
  destruct ((0 <=? i) && (i <? NumDirect)); cbn [bind]; try discriminate.
  destruct (alloc _ _ _ _) as [[[[ok hdr] freeMap2] disk2]| |]; cbn [bind]; try discriminate.
  destruct (WriteBack hdr disk2 s) as [disk3| |]; cbn [bind]; try discriminate.
  intros H. apply IH in H. cbn [numBytes numSectors] in H.
  destruct H as (H & Hb & Hn). split; [|split; assumption]. rewrite H.
  assert (E : divRoundUp fileSize chunk =
              1 + (if fileSize - chunk >? 0 then divRoundUp (fileSize - chunk) chunk else 0)).
  { destruct (fileSize - chunk >? 0) eqn:G'.
    - apply Z.gtb_lt in G'.
      rewrite !divRoundUp_ceil by lia.
      replace (fileSize + chunk - 1) with (fileSize - chunk + chunk - 1 + 1 * chunk) by ring.
      rewrite Z.div_add by lia. ring.
    - rewrite Z.gtb_ltb in G'. apply Z.ltb_ge in G'.
      apply divRoundUp_spec; lia. }
  lia.
Qed.

End Loops.

(** *** The recursion bound of [Allocate] *)

Section Fuel.

Variables SectorSize NumDirect : Z.
Hypothesis SectorSize_pos : 0 < SectorSize.
Hypothesis NumDirect_pos : 0 < NumDirect.

Lemma AllocateDirect_fuel (n : nat) :
  forall (i : Z) (this : FileHeader) (freeMap : Bitmap.t),
  AllocateDirect NumDirect n i this freeMap <> NoFuel.
Proof using Type.
  induction n as [|n IH]; intros i this freeMap; cbn [AllocateDirect]; [discriminate|].
  destruct (Bitmap.FindAndSet freeMap) as [s freeMap1].
  destruct (setSector NumDirect this i s) as [this1| |] eqn:E; cbn [bind];
    [apply IH | discriminate |].
  unfold setSector in E. destruct (_ && _); discriminate.
Qed.

Lemma AllocateChildren_fuel
    (alloc : FileHeader -> Bitmap.t -> Disk -> Z -> Outcome AllocResult)
    (chunk : Z) :
  0 < chunk ->
  (forall h m d size, size <= chunk -> alloc h m d size <> NoFuel) ->
  forall (fuel : nat) (i : Z) (oks : list bool) (fileSize : Z)
         (this : FileHeader) (freeMap : Bitmap.t) (disk : Disk),
  fileSize <= Z.of_nat fuel ->
  AllocateChildren NumDirect alloc chunk fuel i oks fileSize this freeMap disk <> NoFuel.
Proof using Type.
  intros Hc Halloc. induction fuel as [|fuel IH];
    intros i oks fileSize this freeMap disk Hf; cbn [AllocateChildren];
    destruct (fileSize >? 0) eqn:G; try discriminate.
  - apply Z.gtb_lt in G. lia.
  - apply Z.gtb_lt in G.
    destruct (Bitmap.FindAndSet freeMap) as [s freeMap1].
    unfold setSector. destruct (_ && _); cbn [bind]; [|discriminate].
    match goal with |- context [alloc ?h ?m ?d ?size] =>
      pose proof (Halloc h m d size) as Ha;
      destruct (alloc h m d size) as [[[[ok hdr] freeMap2] disk2]| |]
    end; cbn [bind]; try discriminate.
    + unfold WriteBack. destruct (s <? 0); cbn [bind]; [discriminate|].
      apply IH. lia.
    + exfalso. apply Ha; [|reflexivity]. destruct (fileSize >? chunk) eqn:G2; [lia|].
      rewrite Z.gtb_ltb in G2. apply Z.ltb_ge in G2. exact G2.
Qed.

Lemma Allocate_fuel_loop (depth : nat) (chunk : Z) (this : FileHeader)
    (freeMap : Bitmap.t) (disk : Disk) (fileSize : Z) :
  0 < chunk ->
  (forall h m d size, size <= chunk ->
     Allocate SectorSize NumDirect depth h m d size <> NoFuel) ->
  bind (AllocateChildren NumDirect (Allocate SectorSize NumDirect depth) chunk
          (Z.to_nat fileSize) 0 [] fileSize this freeMap disk)
       (finishLoop) <> NoFuel.
Proof using Type.
  intros Hc Halloc.
  pose proof (AllocateChildren_fuel (Allocate SectorSize NumDirect depth) chunk Hc
                Halloc (Z.to_nat fileSize) 0 [] fileSize this freeMap disk
                ltac:(lia)) as H.
  destruct (AllocateChildren _ _ _ _ _ _ _ _ _ _) as [r| |]; cbn [bind finishLoop];
    [discriminate | discriminate | congruence].
Qed.

(** One more level of recursion serves the next band: [Allocate] with
    bound [S depth] does not run out on a size whose chunks the bound
    [depth] serves. *)
Lemma Allocate_fuel_step (depth : nat) (this : FileHeader) (freeMap : Bitmap.t)
    (disk : Disk) (fileSize : Z) :
  (TripleSize SectorSize NumDirect < fileSize ->
   forall h m d size, size <= TripleSize SectorSize NumDirect ->
     Allocate SectorSize NumDirect depth h m d size <> NoFuel) ->
  (DoubleSize SectorSize NumDirect < fileSize ->
   forall h m d size, size <= DoubleSize SectorSize NumDirect ->
     Allocate SectorSize NumDirect depth h m d size <> NoFuel) ->
  (SingleSize SectorSize NumDirect < fileSize ->
   forall h m d size, size <= SingleSize SectorSize NumDirect ->
     Allocate SectorSize NumDirect depth h m d size <> NoFuel) ->
  Allocate SectorSize NumDirect (S depth) this freeMap disk fileSize <> NoFuel.
Proof using SectorSize_pos NumDirect_pos.
  intros HT HD HS.
  destruct (ladder SectorSize NumDirect SectorSize_pos NumDirect_pos) as (L1 & L2 & L3).
  rewrite Allocate_unfold. cbv zeta. destruct (_ <? _); [discriminate|].
  destruct (fileSize >? TripleSize SectorSize NumDirect) eqn:GT.
  { apply Z.gtb_lt in GT. apply Allocate_fuel_loop; [lia | now apply HT]. }
  destruct (fileSize >? DoubleSize SectorSize NumDirect) eqn:GD.
  { apply Z.gtb_lt in GD. apply Allocate_fuel_loop; [lia | now apply HD]. }
  destruct (fileSize >? SingleSize SectorSize NumDirect) eqn:GS.
  { apply Z.gtb_lt in GS. apply Allocate_fuel_loop; [lia | now apply HS]. }
  match goal with |- context [AllocateDirect ?nd ?n ?i ?t ?m0] =>
    pose proof (AllocateDirect_fuel n i t m0) as Hd;
    destruct (AllocateDirect nd n i t m0) as [[this1 freeMap1]| |]
  end; cbn [bind]; [discriminate | discriminate | congruence].
Qed.

End Fuel.

(** X5: with [SectorSize] and [NumDirect] positive, four levels of recursion
    are enough for [Allocate] whatever the size, the pool and the disk: the
    model with bound 4 never stops for lack of recursion depth or of loop
    iterations (the call returns, or stops the kernel). *)
Theorem Allocate_depth_four (SectorSize NumDirect : Z) (this : FileHeader)
    (freeMap : Bitmap.t) (disk : Disk) (fileSize : Z) :
  0 < SectorSize -> 0 < NumDirect ->
  Allocate SectorSize NumDirect 4 this freeMap disk fileSize <> NoFuel.
Proof.
  intros HSS HND.
  destruct (ladder SectorSize NumDirect HSS HND) as (L1 & L2 & L3).
  assert (A1 : forall d h m k size, size <= SingleSize SectorSize NumDirect ->
            Allocate SectorSize NumDirect (S d) h m k size <> NoFuel).
  { intros d h m k size Hs. apply Allocate_fuel_step; try assumption; intros; lia. }
  assert (A2 : forall d h m k size, size <= DoubleSize SectorSize NumDirect ->
            Allocate SectorSize NumDirect (S (S d)) h m k size <> NoFuel).
  { intros d h m k size Hs. apply Allocate_fuel_step; try assumption;
      intros; try lia. now apply A1. }
  assert (A3 : forall d h m k size, size <= TripleSize SectorSize NumDirect ->
            Allocate SectorSize NumDirect (S (S (S d))) h m k size <> NoFuel).
  { intros d h m k size Hs. apply Allocate_fuel_step; try assumption;
      intros; try lia; [now apply A2 | now apply A1]. }
  apply Allocate_fuel_step; try assumption; intros;
    [now apply A3 | now apply A2 | now apply A1].
Qed.

(** X5, witness: the geometry of Nachos, a file of 4000 bytes on a pool of
    64 free sectors. *)
Lemma Allocate_depth_four_witness :
  Allocate NachosSectorSize NachosNumDirect 4 (newFileHeader NachosNumDirect)
           (freePool 64) blankDisk 4000 <> NoFuel.
Proof.
  apply (Allocate_depth_four NachosSectorSize NachosNumDirect); reflexivity.
Defined.

(** *** The leaf band *)

Section Leaf.

Variables SectorSize NumDirect : Z.
Hypothesis SectorSize_pos : 0 < SectorSize.
Hypothesis NumDirect_pos : 0 < NumDirect.

Lemma leaf_sectors (fileSize : Z) :
  0 <= fileSize <= SingleSize SectorSize NumDirect ->
  0 <= divRoundUp fileSize SectorSize <= NumDirect.
Proof using SectorSize_pos NumDirect_pos.
  intros H. split; [apply divRoundUp_nonneg; lia|].
  destruct (proj1 (divRoundUp_spec fileSize SectorSize _ ltac:(lia) SectorSize_pos) eq_refl)
    as [A B].
  unfold SingleSize in H. nia.
Qed.

(** [Allocate] in the leaf band, on a pool with enough free sectors. *)
Lemma Allocate_leaf (depth : nat) (this : FileHeader) (freeMap : Bitmap.t)
    (disk : Disk) (fileSize : Z) :
  0 <= fileSize <= SingleSize SectorSize NumDirect ->
  Z.of_nat (length (dataSectors this)) = NumDirect ->
  divRoundUp fileSize SectorSize <= Bitmap.NumClear freeMap ->
  exists (hdr : FileHeader) (freeMap' : Bitmap.t) (L : list nat),
    Allocate SectorSize NumDirect (S depth) this freeMap disk fileSize =
      Done (true, hdr, freeMap', disk) /\
    numBytes hdr = fileSize /\
    numSectors hdr = divRoundUp fileSize SectorSize /\
    Z.of_nat (length L) = divRoundUp fileSize SectorSize /\
    NoDup L /\
    (forall s, In s L -> (s < length freeMap)%nat /\ nth s freeMap false = false) /\
    length freeMap' = length freeMap /\
    (forall k, nth k freeMap' false = existsb (Nat.eqb k) L || nth k freeMap false) /\
    Bitmap.NumClear freeMap' = Bitmap.NumClear freeMap - divRoundUp fileSize SectorSize /\
    Z.of_nat (length (dataSectors hdr)) = NumDirect /\
    (forall j, (j < length L)%nat ->
       nth j (dataSectors hdr) (-1) = Z.of_nat (nth j L 0%nat)).
Proof using SectorSize_pos NumDirect_pos.
  intros HS Hnd Hfree.
  destruct (ladder SectorSize NumDirect SectorSize_pos NumDirect_pos) as (L1 & L2 & L3).
  pose proof (leaf_sectors fileSize HS) as Hn.
  cbn [Allocate numSectors].
  replace (Bitmap.NumClear freeMap <? divRoundUp fileSize SectorSize) with false
    by (symmetry; apply Z.ltb_ge; lia).
  replace (fileSize >? TripleSize SectorSize NumDirect) with false by not_above.
  replace (fileSize >? DoubleSize SectorSize NumDirect) with false by not_above.
  replace (fileSize >? SingleSize SectorSize NumDirect) with false by not_above.
  set (this0 := mkHdr _ _ _).
  destruct (AllocateDirect_spec NumDirect (Z.to_nat (divRoundUp fileSize SectorSize))
              0%nat this0 freeMap)
    as (hdr & freeMap' & L & Erun & HL & Hdup & Hin & Hlen & Hnth & Hnum
        & Hb & Hsec & Hds & Hwritten & _).
  { lia. }
  { unfold this0. cbn [dataSectors]. lia. }
  { exact Hnd. }
  change (Z.of_nat 0) with 0 in Erun. rewrite Erun. cbn [bind].
  exists hdr, freeMap', L. split; [reflexivity|].
  split; [exact Hb|]. split; [exact Hsec|]. split; [lia|]. split; [exact Hdup|].
  split; [exact Hin|]. split; [exact Hlen|]. split; [exact Hnth|].
  split; [lia|]. split; [rewrite Hds; exact Hnd|].
  intros j Hj. apply (Hwritten j). lia.
Qed.

End Leaf.

(** *** [Allocate], [Deallocate] and [ByteToSector] *)

(** The test at the head of [Allocate]: when the pool has fewer free
    sectors than the [divRoundUp(fileSize, SectorSize)] data sectors alone,
    [Allocate] returns FALSE; the pool and the disk are what they were, the
    table [dataSectors] is untouched, and the header holds the requested
    size and its sector count. *)
Theorem Allocate_fails_without_space (SectorSize NumDirect : Z) (depth : nat)
    (this : FileHeader) (freeMap : Bitmap.t) (disk : Disk) (fileSize : Z) :
  Bitmap.NumClear freeMap < divRoundUp fileSize SectorSize ->
  Allocate SectorSize NumDirect (S depth) this freeMap disk fileSize =
  Done (false,
        mkHdr fileSize (divRoundUp fileSize SectorSize) (dataSectors this),
        freeMap, disk).
Proof.
  intros H. cbn [Allocate numSectors].
  apply Z.ltb_lt in H. rewrite H. reflexivity.
Qed.

(** 3 sectors asked of a pool with 2 free sectors. *)
Lemma Allocate_fails_without_space_witness :
  Bitmap.NumClear [true; false; false] < divRoundUp 300 NachosSectorSize /\
  Allocate NachosSectorSize NachosNumDirect 4 (newFileHeader NachosNumDirect)
           [true; false; false] blankDisk 300 =
  Done (false, mkHdr 300 3 (dataSectors (newFileHeader NachosNumDirect)),
        [true; false; false], blankDisk).
Proof.
  split; [vm_compute; reflexivity|].
  apply (Allocate_fails_without_space NachosSectorSize NachosNumDirect 3
           (newFileHeader NachosNumDirect) [true; false; false] blankDisk 300).
  vm_compute; reflexivity.
Defined.

(** C2, at the failing inputs.  A file of 4096 bytes takes 34 sectors, 32
    for its data and 2 for its child headers, as the call on a pool of 34
    free sectors shows.  On a pool of 33 free sectors, one fewer than the
    file requires, [Allocate] returns TRUE, not FALSE, and the pool is not
    left as it was: 32 sectors are taken, and the last two sectors of the
    file do not exist ([ByteToSector] answers [-1] from offset 3840 on).  A
    file of 3841 bytes takes 33 sectors; on a pool of 31 free sectors
    [Allocate] does not return FALSE either: it stops the kernel when it
    writes the second child header back to sector [-1]. *)
Lemma Allocate_overcommits_the_pool :
  (exists hdr freeMap disk,
     Allocate NachosSectorSize NachosNumDirect 4 (newFileHeader NachosNumDirect)
              (freePool 34) blankDisk 4096 = Done (true, hdr, freeMap, disk) /\
     Bitmap.NumClear freeMap = 0 /\
     ByteToSector NachosSectorSize NachosNumDirect 4 disk hdr 4095 = Done 33) /\
  Bitmap.NumClear (freePool 33) = 33 /\
  (exists hdr freeMap disk,
     Allocate NachosSectorSize NachosNumDirect 4 (newFileHeader NachosNumDirect)
              (freePool 33) blankDisk 4096 = Done (true, hdr, freeMap, disk) /\
     Bitmap.NumClear freeMap = 1 /\
     ByteToSector NachosSectorSize NachosNumDirect 4 disk hdr 3839 = Done 30 /\
     ByteToSector NachosSectorSize NachosNumDirect 4 disk hdr 3840 = Done (-1) /\
     ByteToSector NachosSectorSize NachosNumDirect 4 disk hdr 4095 = Done (-1)) /\
  Bitmap.NumClear (freePool 31) = divRoundUp 3841 NachosSectorSize /\
  Allocate NachosSectorSize NachosNumDirect 4 (newFileHeader NachosNumDirect)
           (freePool 31) blankDisk 3841 = Fatal.
Proof.
  split.
  { do 3 eexists. split; [vm_compute; reflexivity|]. split; vm_compute; reflexivity. }
  split; [vm_compute; reflexivity|]. split.
  { do 3 eexists. split; [vm_compute; reflexivity|].
    repeat split; vm_compute; reflexivity. }
  split; vm_compute; reflexivity.
Qed.

(** C1, at the failing input: a file of [SingleSize + 1] = 3841 bytes on a
    pool of 64 free sectors.  [Allocate] returns TRUE and leaves 31 sectors
    free (31 data sectors and 2 child headers are taken); [Deallocate]
    returns with 62 sectors free, not 64: the two child headers stay
    marked. *)
Lemma Allocate_Deallocate_leaks_child_headers :
  Bitmap.NumClear (freePool 64) = 64 /\
  roundTrip NachosSectorSize NachosNumDirect (freePool 64) blankDisk 3841 =
  Done (true, 31, Done 62).
Proof. split; vm_compute; reflexivity. Qed.

(** C3, at the failing input: a file of 4096 bytes (32 sectors) on a pool
    of exactly 32 free sectors.  The loop over [SingleSize] chunks writes
    two entries; its second recursive call returns FALSE (one header and 30
    data sectors are gone, one more header is taken, none is left for the
    two data sectors); [Allocate] returns TRUE all the same, with the pool
    exhausted. *)
Lemma Allocate_ignores_failed_child :
  Bitmap.NumClear (freePool 32) = 32 /\
  (exists r,
     AllocateChildren NachosNumDirect
       (Allocate NachosSectorSize NachosNumDirect 3)
       (SingleSize NachosSectorSize NachosNumDirect) (Z.to_nat 4096) 0 [] 4096
       (mkHdr 4096 32 (dataSectors (newFileHeader NachosNumDirect)))
       (freePool 32) blankDisk = Done r /\
     written r = 2 /\ childOk r = [true; false]) /\
  (exists hdr freeMap disk,
     Allocate NachosSectorSize NachosNumDirect 4 (newFileHeader NachosNumDirect)
              (freePool 32) blankDisk 4096 = Done (true, hdr, freeMap, disk) /\
     Bitmap.NumClear freeMap = 0).
Proof.
  split; [vm_compute; reflexivity|]. split.
  - eexists. split; [vm_compute; reflexivity|]. split; vm_compute; reflexivity.
  - do 3 eexists. split; [vm_compute; reflexivity|]. vm_compute; reflexivity.
Qed.

(** X6: the value [Allocate] returns is decided by the free-count test at
    its head alone: a call that returns, returns FALSE exactly when the pool
    had fewer free sectors than [divRoundUp(fileSize, SectorSize)], whatever
    happens in the loops. *)
Theorem Allocate_returns_the_free_count_test (SectorSize NumDirect : Z)
    (depth : nat) (this : FileHeader) (freeMap : Bitmap.t) (disk : Disk)
    (fileSize : Z) (ok : bool) (hdr : FileHeader) (freeMap' : Bitmap.t)
    (disk' : Disk) :
  Allocate SectorSize NumDirect depth this freeMap disk fileSize =
    Done (ok, hdr, freeMap', disk') ->
  ok = negb (Bitmap.NumClear freeMap <? divRoundUp fileSize SectorSize).
Proof.
  destruct depth as [|depth]; [discriminate|].
  rewrite Allocate_unfold. cbv zeta. cbn [numSectors].
  destruct (Bitmap.NumClear freeMap <? divRoundUp fileSize SectorSize);
    [intros [= <- _ _ _]; reflexivity|].
  destruct (fileSize >? TripleSize SectorSize NumDirect);
    [|destruct (fileSize >? DoubleSize SectorSize NumDirect);
      [|destruct (fileSize >? SingleSize SectorSize NumDirect)]];
    match goal with
    | |- bind ?c _ = _ -> _ => destruct c as [r| |]
    end; cbn [bind finishLoop]; try discriminate;
    try (destruct r as [this1 freeMap1]); intros [= <- _ _ _]; reflexivity.
Qed.

(** X6, witness: 4096 bytes on a pool of exactly 32 free sectors. *)
Lemma Allocate_returns_the_free_count_test_witness :
  exists hdr freeMap' disk',
    Allocate NachosSectorSize NachosNumDirect 4 (newFileHeader NachosNumDirect)
             (freePool 32) blankDisk 4096 = Done (true, hdr, freeMap', disk') /\
    true = negb (Bitmap.NumClear (freePool 32) <? divRoundUp 4096 NachosSectorSize).
Proof.
  do 3 eexists. split; [vm_compute; reflexivity|].
  match goal with |- _ = negb (Bitmap.NumClear ?m <? divRoundUp ?n ?s) =>
    eapply (Allocate_returns_the_free_count_test s NachosNumDirect 4
              (newFileHeader NachosNumDirect) m blankDisk n)
  end.
  vm_compute. reflexivity.
Defined.

(** C4, at the failing input: a header of [DoubleSize + 1] = 115201 bytes
    (901 sectors) on a pool of 1024 free sectors.  The loop of [Allocate]
    over [DoubleSize] chunks writes 2 child headers; the bound of the loop
    of [Deallocate], [divRoundUp(numSectors, NumDirect)], is 31, and
    [Deallocate] stops the kernel on the third entry, which is still
    [-1]. *)
Lemma Deallocate_bound_exceeds_children :
  exists r,
    AllocateChildren NachosNumDirect
      (Allocate NachosSectorSize NachosNumDirect 3)
      (DoubleSize NachosSectorSize NachosNumDirect) (Z.to_nat 115201) 0 [] 115201
      (mkHdr 115201 901 (dataSectors (newFileHeader NachosNumDirect)))
      (freePool 1024) blankDisk = Done r /\
    Allocate NachosSectorSize NachosNumDirect 4 (newFileHeader NachosNumDirect)
             (freePool 1024) blankDisk 115201 =
    Done (true, loopHdr r, loopMap r, loopDisk r) /\
    written r = 2 /\ childOk r = [true; true] /\
    numBytes (loopHdr r) = DoubleSize NachosSectorSize NachosNumDirect + 1 /\
    divRoundUp (numSectors (loopHdr r)) NachosNumDirect = 31 /\
    nth 2 (dataSectors (loopHdr r)) 0 = -1 /\
    Deallocate NachosSectorSize NachosNumDirect 4 (loopDisk r) (loopHdr r)
               (loopMap r) = Fatal.
Proof.
  eexists. split; [vm_compute; reflexivity|].
  repeat split; vm_compute; reflexivity.
Qed.

(** C5, at the failing input: after [Allocate] returned TRUE for 4096 bytes
    on a pool of exactly 32 free sectors, [ByteToSector] answers [-1], which
    is no sector, for the offsets 3840 and 3968 of two different sectors of
    the file. *)
Lemma ByteToSector_after_short_allocation :
  exists hdr freeMap disk,
    Allocate NachosSectorSize NachosNumDirect 4 (newFileHeader NachosNumDirect)
             (freePool 32) blankDisk 4096 = Done (true, hdr, freeMap, disk) /\
    ByteToSector NachosSectorSize NachosNumDirect 4 disk hdr 3839 = Done 30 /\
    ByteToSector NachosSectorSize NachosNumDirect 4 disk hdr 3840 = Done (-1) /\
    ByteToSector NachosSectorSize NachosNumDirect 4 disk hdr 3968 = Done (-1).
Proof.
  do 3 eexists. split; [vm_compute; reflexivity|].
  repeat split; vm_compute; reflexivity.
Qed.

(** X1: in the leaf band ([0 <= fileSize <= SingleSize]), on a header with
    its table of [NumDirect] entries and a pool with at least
    [divRoundUp(fileSize, SectorSize)] free sectors, [Allocate] returns TRUE
    having taken exactly that many sectors and written nothing to the disk,
    and [Deallocate] then returns with the pool exactly as it was before the
    allocation. *)
Theorem Allocate_Deallocate_leaf_round_trip (SectorSize NumDirect : Z)
    (depth : nat) (this : FileHeader) (freeMap : Bitmap.t) (disk : Disk)
    (fileSize : Z) :
  0 < SectorSize -> 0 < NumDirect ->
  0 <= fileSize <= SingleSize SectorSize NumDirect ->
  Z.of_nat (length (dataSectors this)) = NumDirect ->
  divRoundUp fileSize SectorSize <= Bitmap.NumClear freeMap ->
  exists (hdr : FileHeader) (freeMap' : Bitmap.t),
    Allocate SectorSize NumDirect (S depth) this freeMap disk fileSize =
      Done (true, hdr, freeMap', disk) /\
    Bitmap.NumClear freeMap' =
      Bitmap.NumClear freeMap - divRoundUp fileSize SectorSize /\
    Deallocate SectorSize NumDirect (S depth) disk hdr freeMap' = Done freeMap.
Proof.
  intros HSS HND HS Hnd Hfree.
  destruct (Allocate_leaf SectorSize NumDirect HSS HND depth this freeMap disk
              fileSize HS Hnd Hfree)
    as (hdr & freeMap' & L & Erun & Hb & Hsec & HL & Hdup & Hin & Hlen & Hnth
        & Hnum & Hds & Hent).
  exists hdr, freeMap'. split; [exact Erun|]. split; [exact Hnum|].
  cbn [Deallocate]. rewrite Hb.
  replace (fileSize >? SingleSize SectorSize NumDirect) with false by not_above.
  pose proof (leaf_sectors SectorSize NumDirect HSS HND fileSize HS) as Hn.
  destruct (DeallocateDirect_spec NumDirect (Z.to_nat (numSectors hdr)) 0%nat
              hdr freeMap' L)
    as (freeMap2 & Erun2 & Hlen2 & Hnth2 & _).
  { lia. }
  { exact Hdup. }
  { intros s Hs. rewrite Hnth. apply existsb_In in Hs. now rewrite Hs. }
  { lia. }
  { exact Hds. }
  { intros j Hj. apply (Hent j). lia. }
  change (Z.of_nat 0) with 0 in Erun2. rewrite Erun2. f_equal.
  apply nth_ext with (d := false) (d' := false); [lia|].
  intros k _. rewrite Hnth2, Hnth.
  destruct (existsb (Nat.eqb k) L) eqn:E; cbn [negb orb andb]; [|reflexivity].
  apply existsb_In in E. symmetry. now apply Hin.
Qed.

(** X1, witness: 300 bytes on a pool of 8 sectors, three of them in use. *)
Lemma Allocate_Deallocate_leaf_round_trip_witness :
  exists hdr freeMap',
    Allocate NachosSectorSize NachosNumDirect 1 (newFileHeader NachosNumDirect)
             [true; false; true; false; false; true; false; false] blankDisk 300 =
      Done (true, hdr, freeMap', blankDisk) /\
    Bitmap.NumClear freeMap' = 2 /\
    Deallocate NachosSectorSize NachosNumDirect 1 blankDisk hdr freeMap' =
      Done [true; false; true; false; false; true; false; false].
Proof.
  apply (Allocate_Deallocate_leaf_round_trip NachosSectorSize NachosNumDirect 0
           (newFileHeader NachosNumDirect)
           [true; false; true; false; false; true; false; false] blankDisk 300).
  - reflexivity.
  - reflexivity.
  - vm_compute. split; discriminate.
  - reflexivity.
  - vm_compute. discriminate.
Defined.

(** X2: in the leaf band, after [Allocate] returned TRUE (as it does on a
    pool with enough free sectors), the sectors of the file are
    [numSectors] different sectors [L] of the pool, free before the call and
    marked after it, and [ByteToSector] maps every offset of [0, fileSize)
    to the sector of [L] at position [offset / SectorSize], which is
    [dataSectors[offset / SectorSize]]. *)
Theorem ByteToSector_leaf_coverage (SectorSize NumDirect : Z)
    (depth : nat) (this : FileHeader) (freeMap : Bitmap.t) (disk : Disk)
    (fileSize : Z) :
  0 < SectorSize -> 0 < NumDirect ->
  0 <= fileSize <= SingleSize SectorSize NumDirect ->
  Z.of_nat (length (dataSectors this)) = NumDirect ->
  divRoundUp fileSize SectorSize <= Bitmap.NumClear freeMap ->
  exists (hdr : FileHeader) (freeMap' : Bitmap.t) (L : list nat),
    Allocate SectorSize NumDirect (S depth) this freeMap disk fileSize =
      Done (true, hdr, freeMap', disk) /\
    Z.of_nat (length L) = numSectors hdr /\
    NoDup L /\
    (forall s, In s L ->
       Bitmap.Test freeMap (Z.of_nat s) = false /\
       Bitmap.Test freeMap' (Z.of_nat s) = true) /\
    Bitmap.NumClear freeMap' = Bitmap.NumClear freeMap - numSectors hdr /\
    forall offset, 0 <= offset < fileSize ->
      (Z.to_nat (Z.quot offset SectorSize) < length L)%nat /\
      ByteToSector SectorSize NumDirect (S depth) disk hdr offset =
        Done (Z.of_nat (nth (Z.to_nat (Z.quot offset SectorSize)) L 0%nat)) /\
      ByteToSector SectorSize NumDirect (S depth) disk hdr offset =
        Done (nth (Z.to_nat (Z.quot offset SectorSize)) (dataSectors hdr) (-1)).
Proof.
  intros HSS HND HS Hnd Hfree.
  destruct (Allocate_leaf SectorSize NumDirect HSS HND depth this freeMap disk
              fileSize HS Hnd Hfree)
    as (hdr & freeMap' & L & Erun & Hb & Hsec & HL & Hdup & Hin & Hlen & Hnth
        & Hnum & Hds & Hent).
  exists hdr, freeMap', L. split; [exact Erun|]. split; [lia|].
  split; [exact Hdup|]. split.
  { intros s Hs. rewrite !Test_nat, Hnth. destruct (Hin s Hs) as [_ B].
    apply existsb_In in Hs. rewrite Hs, B. split; reflexivity. }
  split; [lia|].
  intros offset Hoff.
  pose proof (leaf_sectors SectorSize NumDirect HSS HND fileSize HS) as Hn.
  destruct (proj1 (divRoundUp_spec fileSize SectorSize _ ltac:(lia) HSS) eq_refl)
    as [A B].
  assert (Hq : 0 <= Z.quot offset SectorSize < divRoundUp fileSize SectorSize).
  { rewrite Z.quot_div_nonneg by lia.
    pose proof (Z.div_mod offset SectorSize ltac:(lia)) as E.
    pose proof (Z.mod_pos_bound offset SectorSize HSS) as M.
    split; [apply Z.div_pos; lia | nia]. }
  assert (Hlt : (Z.to_nat (Z.quot offset SectorSize) < length L)%nat) by lia.
  split; [exact Hlt|].
  assert (E : ByteToSector SectorSize NumDirect (S depth) disk hdr offset =
              Done (nth (Z.to_nat (Z.quot offset SectorSize)) (dataSectors hdr) (-1))).
  { cbn [ByteToSector]. rewrite Hb.
    destruct (ladder SectorSize NumDirect HSS HND) as (L1 & L2 & L3).
    replace (fileSize >? TripleSize SectorSize NumDirect) with false by not_above.
    replace (fileSize >? DoubleSize SectorSize NumDirect) with false by not_above.
    replace (fileSize >? SingleSize SectorSize NumDirect) with false by not_above.
    unfold getSector.
    replace ((0 <=? Z.quot offset SectorSize) && (Z.quot offset SectorSize <? NumDirect))
      with true
      by in_table.
    reflexivity. }
  split; [|exact E]. rewrite E, Hent by exact Hlt. reflexivity.
Qed.

(** X2, witness: 300 bytes on a pool of 8 sectors, three of them in use;
    the byte at offset 299 lies in the third sector taken. *)
Lemma ByteToSector_leaf_coverage_witness :
  exists hdr freeMap',
    Allocate NachosSectorSize NachosNumDirect 1 (newFileHeader NachosNumDirect)
             [true; false; true; false; false; true; false; false] blankDisk 300 =
      Done (true, hdr, freeMap', blankDisk) /\
    ByteToSector NachosSectorSize NachosNumDirect 1 blankDisk hdr 299 = Done 4.
Proof.
  destruct (ByteToSector_leaf_coverage NachosSectorSize NachosNumDirect 0
              (newFileHeader NachosNumDirect)
              [true; false; true; false; false; true; false; false] blankDisk 300)
    as (hdr & freeMap' & L & Erun & _ & _ & _ & _ & Hoff).
  - reflexivity.
  - reflexivity.
  - vm_compute. split; discriminate.
  - reflexivity.
  - vm_compute. discriminate.
  - exists hdr, freeMap'. split; [exact Erun|].
    destruct (Hoff 299 ltac:(lia)) as (_ & _ & E). rewrite E.
    vm_compute in Erun. injection Erun as <- _. reflexivity.
Defined.

(** X3: in the Single band ([SingleSize < fileSize <= DoubleSize]) the loop
    of [Allocate] over [SingleSize] chunks, when it returns, has written
    [divRoundUp(numSectors, NumDirect)] table entries: the bound of the loop
    of [Deallocate] is the number of child headers. *)
Theorem Deallocate_bound_matches_single_band (SectorSize NumDirect : Z)
    (depth : nat) (this : FileHeader) (freeMap : Bitmap.t) (disk : Disk)
    (fileSize : Z) (r : LoopResult) :
  0 < SectorSize -> 0 < NumDirect ->
  SingleSize SectorSize NumDirect < fileSize <= DoubleSize SectorSize NumDirect ->
  AllocateChildren NumDirect (Allocate SectorSize NumDirect depth)
    (SingleSize SectorSize NumDirect) (Z.to_nat fileSize) 0 [] fileSize
    (mkHdr fileSize (divRoundUp fileSize SectorSize) (dataSectors this))
    freeMap disk = Done r ->
  numBytes (loopHdr r) > SingleSize SectorSize NumDirect /\
  written r = divRoundUp (numSectors (loopHdr r)) NumDirect.
Proof.
  intros HSS HND HS Hrun.
  destruct (ladder SectorSize NumDirect HSS HND) as (_ & _ & L3).
  apply AllocateChildren_written in Hrun; [|exact L3].
  cbn [numBytes numSectors] in Hrun. destruct Hrun as (Hw & Hb & Hn).
  split; [lia|]. rewrite Hw, Hn.
  replace (fileSize >? 0) with true by (symmetry; apply Z.gtb_lt; lia).
  rewrite divRoundUp_twice by lia. reflexivity.
Qed.

(** X3, witness: 3841 bytes (31 sectors) on a pool of 64 free sectors; two
    child headers are written and the bound is [divRoundUp(31, 30) = 2]. *)
Lemma Deallocate_bound_matches_single_band_witness :
  exists r,
    AllocateChildren NachosNumDirect (Allocate NachosSectorSize NachosNumDirect 3)
      (SingleSize NachosSectorSize NachosNumDirect) (Z.to_nat 3841) 0 [] 3841
      (mkHdr 3841 (divRoundUp 3841 NachosSectorSize)
             (dataSectors (newFileHeader NachosNumDirect)))
      (freePool 64) blankDisk = Done r /\
    written r = 2 /\
    divRoundUp (numSectors (loopHdr r)) NachosNumDirect = 2.
Proof.
  eexists. split; [vm_compute; reflexivity|].
  match goal with |- written ?r = _ /\ _ =>
    destruct (Deallocate_bound_matches_single_band NachosSectorSize NachosNumDirect 3
                (newFileHeader NachosNumDirect) (freePool 64) blankDisk 3841 r)
      as [_ E]
  end.
  - reflexivity.
  - reflexivity.
  - vm_compute. split; [reflexivity | discriminate].
  - vm_compute. reflexivity.
  - split; [vm_compute; reflexivity|]. rewrite <- E. vm_compute. reflexivity.
Defined.

(** *** What [Allocate] may change *)

Lemma onlyMarked_refl (m : Bitmap.t) : onlyMarked m m.
Proof. split; [reflexivity|]. split; [trivial | lia]. Qed.

Lemma onlyMarked_trans (m1 m2 m3 : Bitmap.t) :
  onlyMarked m1 m2 -> onlyMarked m2 m3 -> onlyMarked m1 m3.
Proof.
  intros (L1 & K1 & C1) (L2 & K2 & C2).
  split; [congruence|]. split; [auto | lia].
Qed.

Lemma FindAndSet_cases (m : Bitmap.t) :
  Bitmap.FindAndSet m = (-1, m) \/
  exists i : nat,
    Bitmap.FindAndSet m = (Z.of_nat i, upd i true m) /\
    (i < length m)%nat /\ nth i m false = false /\
    Bitmap.NumClear (upd i true m) = Bitmap.NumClear m - 1.
Proof.
  pose proof (NumClear_nonneg m) as P.
  destruct (Z.eq_dec (Bitmap.NumClear m) 0) as [E|E].
  - left. now apply FindAndSet_none.
  - right. apply FindAndSet_found. lia.
Qed.

Lemma FindAndSet_onlyMarked (m m' : Bitmap.t) (s : Z) :
  Bitmap.FindAndSet m = (s, m') -> onlyMarked m m'.
Proof.
  destruct (FindAndSet_cases m) as [E|(i & E & Hi & Hf & Hc)]; rewrite E;
    intros [= <- <-]; [apply onlyMarked_refl|].
  split; [apply upd_length|]. split; [|lia].
  intros k Hk. rewrite nth_upd. destruct (_ && _); [reflexivity | exact Hk].
Qed.

Lemma Test_true (m : Bitmap.t) (k : Z) :
  Bitmap.Test m k = true <-> 0 <= k /\ nth (Z.to_nat k) m false = true.
Proof. unfold Bitmap.Test. rewrite andb_true_iff, Z.leb_le. tauto. Qed.

Lemma onlyMarked_Test (m m' : Bitmap.t) (k : Z) :
  onlyMarked m m' -> Bitmap.Test m k = true -> Bitmap.Test m' k = true.
Proof.
  intros (_ & K & _) H. apply Test_true in H as [H0 H]. apply Test_true. auto.
Qed.


Lemma onlyTaken_trans (m1 m2 m3 : Bitmap.t) (d1 d2 d3 : Disk) :
  onlyMarked m1 m2 -> onlyMarked m2 m3 ->
  onlyTaken m1 m2 d1 d2 -> onlyTaken m2 m3 d2 d3 -> onlyTaken m1 m3 d1 d3.
Proof.
  intros M12 M23 T12 T23 k Hk.
  rewrite T23, T12; [reflexivity| |].
  - destruct Hk as [Hk|Hk]; [now left|]. right.
    destruct (Bitmap.Test m2 k) eqn:E; [|reflexivity].
    rewrite (onlyMarked_Test m2 m3 k M23 E) in Hk. discriminate.
  - destruct Hk as [Hk|Hk]; [|now right]. left.
    now apply (onlyMarked_Test m1 m2 k M12).
Qed.

Section Frame.

Variables SectorSize NumDirect : Z.

Lemma setSector_frame (h h' : FileHeader) (i v : Z) :
  setSector NumDirect h i v = Done h' ->
  numBytes h' = numBytes h /\ numSectors h' = numSectors h /\
  length (dataSectors h') = length (dataSectors h).
Proof.
  unfold setSector. destruct (_ && _); [|discriminate].
  intros [= <-]. cbn. rewrite upd_length. auto.
Qed.

Lemma AllocateDirect_frame (n : nat) :
  forall (i : Z) (this this' : FileHeader) (m m' : Bitmap.t),
  AllocateDirect NumDirect n i this m = Done (this', m') ->
  onlyMarked m m' /\
  numBytes this' = numBytes this /\ numSectors this' = numSectors this /\
  length (dataSectors this') = length (dataSectors this).
Proof.
  induction n as [|n IH]; intros i this this' m m'; cbn [AllocateDirect].
  - intros [= <- <-]. split; [apply onlyMarked_refl | auto].
  - destruct (Bitmap.FindAndSet m) as [s m1] eqn:E.
    apply FindAndSet_onlyMarked in E.
    destruct (setSector NumDirect this i s) as [this1| |] eqn:E1; cbn [bind];
      try discriminate.
    apply setSector_frame in E1 as (A & B & C).
    intros H. apply IH in H as (M & A' & B' & C').
    split; [eapply onlyMarked_trans; eassumption|].
    split; [congruence|]. split; congruence.
Qed.


Lemma AllocateChildren_frame
    (alloc : FileHeader -> Bitmap.t -> Disk -> Z -> Outcome AllocResult)
    (chunk : Z) (fuel : nat) :
  framed alloc ->
  forall (i : Z) (oks : list bool) (fileSize : Z) (this : FileHeader)
         (m : Bitmap.t) (d : Disk) (r : LoopResult),
  AllocateChildren NumDirect alloc chunk fuel i oks fileSize this m d = Done r ->
  onlyMarked m (loopMap r) /\ onlyTaken m (loopMap r) d (loopDisk r) /\
  numBytes (loopHdr r) = numBytes this /\ numSectors (loopHdr r) = numSectors this /\
  length (dataSectors (loopHdr r)) = length (dataSectors this).
Proof.
  intros Halloc. induction fuel as [|fuel IH]; intros i oks fileSize this m d r;
    cbn [AllocateChildren]; destruct (fileSize >? 0);
    try (intros [= <-]; cbn; split; [apply onlyMarked_refl|];
         split; [intros k _; reflexivity | auto]);
    try discriminate.
  destruct (Bitmap.FindAndSet m) as [s m1] eqn:E.
  destruct (setSector NumDirect this i s) as [this1| |] eqn:E1; cbn [bind];
    try discriminate.
  apply setSector_frame in E1 as (A & B & C).
  destruct (alloc _ _ _ _) as [[[[ok hdr] m2] d2]| |] eqn:E2; cbn [bind];
    try discriminate.
  apply Halloc in E2 as [M12 T12].
  unfold WriteBack. destruct (s <? 0) eqn:Es; cbn [bind]; [discriminate|].
  apply Z.ltb_ge in Es.
  intros H. apply IH in H as (M & T & A' & B' & C').
  pose proof (FindAndSet_onlyMarked _ _ _ E) as M01.
  assert (M02 : onlyMarked m m2) by (eapply onlyMarked_trans; eassumption).
  split; [eapply onlyMarked_trans; eassumption|].
  split; [|split; [congruence | split; congruence]].
  assert (T02 : onlyTaken m m2 d (WriteSector d2 s hdr)).
  { intros k Hk. unfold WriteSector. destruct (k =? s) eqn:Ek.
    - apply Z.eqb_eq in Ek. subst k. exfalso.
      destruct (FindAndSet_cases m) as [F|(j & F & Hj & Hf & Hc)]; rewrite F in E;
        injection E as <- <-; [lia|].
      assert (T1 : Bitmap.Test (upd j true m) (Z.of_nat j) = true).
      { rewrite Test_nat, nth_upd, Nat.eqb_refl.
        apply Nat.ltb_lt in Hj. now rewrite Hj. }
      destruct Hk as [Hk|Hk].
      + rewrite Test_nat in Hk. congruence.
      + rewrite (onlyMarked_Test _ _ _ M12 T1) in Hk. discriminate.
    - apply T12. destruct Hk as [Hk|Hk]; [left | now right].
      now apply (onlyMarked_Test m m1 k M01). }
  eapply onlyTaken_trans; eassumption.
Qed.

Lemma Allocate_frame (depth : nat) : framed (Allocate SectorSize NumDirect depth).
Proof.
  induction depth as [|depth IH]; intros h m d size ok h' m' d'; [discriminate|].
  rewrite Allocate_unfold. cbv zeta. cbn [numSectors].
  destruct (_ <? _).
  { intros [= <- <- <- <-]. split; [apply onlyMarked_refl | intros k _; reflexivity]. }
  destruct (size >? TripleSize SectorSize NumDirect);
    [|destruct (size >? DoubleSize SectorSize NumDirect);
      [|destruct (size >? SingleSize SectorSize NumDirect)]].
  1-3: match goal with
       | |- bind ?c _ = _ -> _ => destruct c as [r| |] eqn:E
       end; cbn [bind finishLoop]; try discriminate;
       intros [= <- <- <- <-];
       apply (AllocateChildren_frame _ _ _ IH) in E as (M & T & _); now split.
  match goal with
  | |- bind ?c _ = _ -> _ => destruct c as [[this1 m1]| |] eqn:E
  end; cbn [bind]; try discriminate.
  intros [= <- <- <- <-]. apply AllocateDirect_frame in E as (M & _).
  split; [exact M | intros k _; reflexivity].
Qed.

Lemma Allocate_header (depth : nat) (this : FileHeader) (m : Bitmap.t) (d : Disk)
    (fileSize : Z) (ok : bool) (hdr : FileHeader) (m' : Bitmap.t) (d' : Disk) :
  Allocate SectorSize NumDirect depth this m d fileSize = Done (ok, hdr, m', d') ->
  numBytes hdr = fileSize /\ numSectors hdr = divRoundUp fileSize SectorSize /\
  length (dataSectors hdr) = length (dataSectors this).
Proof.
  destruct depth as [|depth]; [discriminate|].
  rewrite Allocate_unfold. cbv zeta. cbn [numSectors].
  destruct (_ <? _).
  { intros [= <- <- <- <-]. cbn. auto. }
  destruct (fileSize >? TripleSize SectorSize NumDirect);
    [|destruct (fileSize >? DoubleSize SectorSize NumDirect);
      [|destruct (fileSize >? SingleSize SectorSize NumDirect)]].
  1-3: match goal with
       | |- bind ?c _ = _ -> _ => destruct c as [r| |] eqn:E
       end; cbn [bind finishLoop]; try discriminate;
       intros [= <- <- <- <-];
       apply (AllocateChildren_frame _ _ _ (Allocate_frame depth)) in E
         as (_ & _ & A & B & C); cbn in A, B, C; auto.
  match goal with
  | |- bind ?c _ = _ -> _ => destruct c as [[this1 m1]| |] eqn:E
  end; cbn [bind]; try discriminate.
  intros [= <- <- <- <-]. apply AllocateDirect_frame in E as (_ & A & B & C).
  cbn in A, B, C. auto.
Qed.

End Frame.

(** X22: [Allocate] only ever takes sectors.  Whatever the size, the pool,
    the disk and the value returned, a call that returns leaves a pool of
    the same length in which every sector that was in use still is, with
    no more free sectors than before; the header holds the requested size
    and its sector count, and its table has kept its length. *)
Theorem Allocate_only_takes_sectors (SectorSize NumDirect : Z) (depth : nat)
    (this : FileHeader) (freeMap : Bitmap.t) (disk : Disk) (fileSize : Z)
    (ok : bool) (hdr : FileHeader) (freeMap' : Bitmap.t) (disk' : Disk) :
  Allocate SectorSize NumDirect depth this freeMap disk fileSize =
    Done (ok, hdr, freeMap', disk') ->
  length freeMap' = length freeMap /\
  (forall k, Bitmap.Test freeMap k = true -> Bitmap.Test freeMap' k = true) /\
  Bitmap.NumClear freeMap' <= Bitmap.NumClear freeMap /\
  numBytes hdr = fileSize /\
  numSectors hdr = divRoundUp fileSize SectorSize /\
  length (dataSectors hdr) = length (dataSectors this).
Proof.
  intros H.
  destruct (Allocate_frame SectorSize NumDirect depth _ _ _ _ _ _ _ _ H) as [M _].
  pose proof (Allocate_header SectorSize NumDirect depth _ _ _ _ _ _ _ _ H) as Hh.
  destruct M as (L & K & C).
  split; [exact L|]. split; [|split; [exact C | exact Hh]].
  intros k Hk. apply (onlyMarked_Test freeMap freeMap' k); [|exact Hk].
  split; [exact L | split; [exact K | exact C]].
Qed.

(** X22, witness: 4000 bytes on a pool of 64 sectors, the first in use. *)
Lemma Allocate_only_takes_sectors_witness :
  exists hdr freeMap' disk',
    Allocate NachosSectorSize NachosNumDirect 4 (newFileHeader NachosNumDirect)
             (true :: freePool 63) blankDisk 4000 = Done (true, hdr, freeMap', disk') /\
    length freeMap' = 64%nat /\
    Bitmap.Test freeMap' 0 = true /\
    numSectors hdr = 32.
Proof.
  assert (E : exists hdr freeMap' disk',
            Allocate NachosSectorSize NachosNumDirect 4 (newFileHeader NachosNumDirect)
              (true :: freePool 63) blankDisk 4000 = Done (true, hdr, freeMap', disk'))
    by (do 3 eexists; vm_compute; reflexivity).
  destruct E as (hdr & freeMap' & disk' & E).
  exists hdr, freeMap', disk'. split; [exact E|].
  destruct (Allocate_only_takes_sectors _ _ _ _ _ _ _ _ _ _ _ E)
    as (L & K & _ & _ & N & _).
  split; [exact L|]. split; [apply K; reflexivity | exact N].
Defined.

(** X23: [Allocate] writes to the disk only in sectors it has just taken
    from the pool.  A sector that was in use before the call, or that is
    free after it, or that lies outside the pool, holds after the call what
    it held before: no header of another file is ever overwritten. *)
Theorem Allocate_writes_only_taken_sectors (SectorSize NumDirect : Z) (depth : nat)
    (this : FileHeader) (freeMap : Bitmap.t) (disk : Disk) (fileSize : Z)
    (ok : bool) (hdr : FileHeader) (freeMap' : Bitmap.t) (disk' : Disk) :
  Allocate SectorSize NumDirect depth this freeMap disk fileSize =
    Done (ok, hdr, freeMap', disk') ->
  forall k : Z,
    Bitmap.Test freeMap k = true \/ Bitmap.Test freeMap' k = false \/
    k < 0 \/ Z.of_nat (length freeMap) <= k ->
    disk' k = disk k.
Proof.
  intros H k Hk.
  destruct (Allocate_frame SectorSize NumDirect depth _ _ _ _ _ _ _ _ H) as [M T].
  apply T. destruct Hk as [Hk|[Hk|Hk]]; [now left | now right | right].
  destruct M as (L & _ & _). unfold Bitmap.Test.
  destruct Hk as [Hk|Hk].
  - replace (0 <=? k) with false by (symmetry; apply Z.leb_gt; lia). reflexivity.
  - rewrite nth_overflow by lia. apply andb_false_r.
Qed.

(** X23, witness: 4000 bytes on a pool of 64 sectors, the first in use;
    sector 0, in use before the call, and sector 40, free after it, hold
    what they held. *)
Lemma Allocate_writes_only_taken_sectors_witness :
  exists hdr freeMap' disk',
    Allocate NachosSectorSize NachosNumDirect 4 (newFileHeader NachosNumDirect)
             (true :: freePool 63) blankDisk 4000 = Done (true, hdr, freeMap', disk') /\
    disk' 0 = blankDisk 0 /\ disk' 64 = blankDisk 64.
Proof.
  assert (E : exists hdr freeMap' disk',
            Allocate NachosSectorSize NachosNumDirect 4 (newFileHeader NachosNumDirect)
              (true :: freePool 63) blankDisk 4000 = Done (true, hdr, freeMap', disk'))
    by (do 3 eexists; vm_compute; reflexivity).
  destruct E as (hdr & freeMap' & disk' & E).
  exists hdr, freeMap', disk'. split; [exact E|].
  pose proof (Allocate_writes_only_taken_sectors _ _ _ _ _ _ _ _ _ _ _ E) as T.
  split; apply T.
  - left. reflexivity.
  - right. right. right. cbn. lia.
Defined.

(** *** What [Deallocate] may change *)

Section Release.

Variables SectorSize NumDirect : Z.

Lemma Test_false_upd (m : Bitmap.t) (i : nat) (k : Z) :
  Bitmap.Test m k = false -> Bitmap.Test (upd i false m) k = false.
Proof.
  unfold Bitmap.Test. destruct (0 <=? k); [|reflexivity]. cbn [andb].
  intros H. rewrite nth_upd. now destruct (_ && _).
Qed.

(** The leaf loop of [Deallocate], when it returns, has cleared one marked
    sector per iteration. *)
Lemma DeallocateDirect_frame (n : nat) :
  forall (i : Z) (this : FileHeader) (m m' : Bitmap.t),
  DeallocateDirect NumDirect n i this m = Done m' ->
  length m' = length m /\
  (forall k, Bitmap.Test m k = false -> Bitmap.Test m' k = false) /\
  Bitmap.NumClear m' = Bitmap.NumClear m + Z.of_nat n.
Proof.
  induction n as [|n IH]; intros i this m m'; cbn [DeallocateDirect].
  - intros [= <-]. split; [reflexivity|]. split; [trivial | lia].
  - destruct (getSector NumDirect this i) as [s| |]; cbn [bind]; try discriminate.
    destruct (Bitmap.Test m s) eqn:T; cbn [ASSERT bind]; [|discriminate].
    apply Test_true in T as [Hs T].
    intros H. apply IH in H as (L & K & C).
    unfold Bitmap.Clear in L, K, C.
    replace (0 <=? s) with true in L, K, C by (symmetry; apply Z.leb_le; lia).
    rewrite upd_length in L. rewrite NumClear_Clear in C by exact T.
    split; [exact L|]. split; [|lia].
    intros k Hk. apply K. now apply Test_false_upd.
Qed.

Lemma DeallocateChildren_frame
    (dealloc : FileHeader -> Bitmap.t -> Outcome Bitmap.t) (disk : Disk) (n : nat) :
  (forall h m m', dealloc h m = Done m' ->
     length m' = length m /\
     (forall k, Bitmap.Test m k = false -> Bitmap.Test m' k = false) /\
     Bitmap.NumClear m <= Bitmap.NumClear m') ->
  forall (i : Z) (this : FileHeader) (m m' : Bitmap.t),
  DeallocateChildren NumDirect dealloc disk n i this m = Done m' ->
  length m' = length m /\
  (forall k, Bitmap.Test m k = false -> Bitmap.Test m' k = false) /\
  Bitmap.NumClear m <= Bitmap.NumClear m'.
Proof.
  intros Hd. induction n as [|n IH]; intros i this m m'; cbn [DeallocateChildren].
  - intros [= <-]. split; [reflexivity|]. split; [trivial | lia].
  - destruct (getSector NumDirect this i) as [s| |]; cbn [bind]; try discriminate.
    destruct (FetchFrom disk s) as [hdr| |]; cbn [bind]; try discriminate.
    destruct (dealloc hdr m) as [m1| |] eqn:E; cbn [bind]; try discriminate.
    apply Hd in E as (L1 & K1 & C1).
    intros H. apply IH in H as (L & K & C).
    split; [congruence|]. split; [auto | lia].
Qed.

Lemma Deallocate_frame (depth : nat) (disk : Disk) :
  forall (this : FileHeader) (m m' : Bitmap.t),
  Deallocate SectorSize NumDirect depth disk this m = Done m' ->
  length m' = length m /\
  (forall k, Bitmap.Test m k = false -> Bitmap.Test m' k = false) /\
  Bitmap.NumClear m <= Bitmap.NumClear m'.
Proof.
  induction depth as [|depth IH]; intros this m m'; [discriminate|].
  cbn [Deallocate]. destruct (_ >? _).
  - apply DeallocateChildren_frame. exact IH.
  - intros H. apply DeallocateDirect_frame in H as (L & K & C).
    split; [exact L|]. split; [exact K | lia].
Qed.

End Release.

(** X24: [Deallocate] only ever frees sectors.  Whatever the header and
    the disk, a call that returns leaves a pool of the same length in which
    every sector that was free still is, with no fewer free sectors than
    before; and on a header of the leaf band it has freed exactly
    [numSectors] sectors (none when [numSectors] is negative). *)
Theorem Deallocate_only_frees_sectors (SectorSize NumDirect : Z) (depth : nat)
    (disk : Disk) (this : FileHeader) (freeMap freeMap' : Bitmap.t) :
  Deallocate SectorSize NumDirect depth disk this freeMap = Done freeMap' ->
  length freeMap' = length freeMap /\
  (forall k, Bitmap.Test freeMap k = false -> Bitmap.Test freeMap' k = false) /\
  Bitmap.NumClear freeMap <= Bitmap.NumClear freeMap' /\
  (numBytes this <= SingleSize SectorSize NumDirect ->
   Bitmap.NumClear freeMap' = Bitmap.NumClear freeMap + Z.max 0 (numSectors this)).
Proof.
  intros H.
  destruct (Deallocate_frame SectorSize NumDirect depth disk _ _ _ H) as (L & K & C).
  split; [exact L|]. split; [exact K|]. split; [exact C|].
  intros Hleaf. destruct depth as [|depth]; [discriminate|].
  cbn [Deallocate] in H.
  replace (numBytes this >? SingleSize SectorSize NumDirect) with false in H
    by not_above.
  apply DeallocateDirect_frame in H as (_ & _ & C'). lia.
Qed.

(** X24, witness: a leaf header of 300 bytes on the sectors 1, 3 and 4 of a
    pool of 8 sectors with 2 free: 5 are free afterwards. *)
Lemma Deallocate_only_frees_sectors_witness :
  exists freeMap',
    Deallocate NachosSectorSize NachosNumDirect 1 blankDisk
      (mkHdr 300 3 (1 :: 3 :: 4 :: repeat (-1) 27))
      [true; true; true; true; true; true; false; false] = Done freeMap' /\
    Bitmap.NumClear freeMap' = 5 /\ length freeMap' = 8%nat.
Proof.
  assert (E : exists freeMap',
            Deallocate NachosSectorSize NachosNumDirect 1 blankDisk
              (mkHdr 300 3 (1 :: 3 :: 4 :: repeat (-1) 27))
              [true; true; true; true; true; true; false; false] = Done freeMap')
    by (eexists; vm_compute; reflexivity).
  destruct E as (freeMap' & E). exists freeMap'. split; [exact E|].
  destruct (Deallocate_only_frees_sectors _ _ _ _ _ _ _ E) as (L & _ & _ & N).
  split; [|exact L]. rewrite N; [reflexivity|]. vm_compute. discriminate.
Defined.

(** X25: a second [Deallocate] of the same header is caught.  In the leaf
    band, for a file of at least one byte, after [Allocate] and [Deallocate]
    have given the pool back as it was, calling [Deallocate] once more on
    the header fails the [ASSERT] on its first sector and stops the
    kernel. *)
Theorem Deallocate_twice_asserts (SectorSize NumDirect : Z)
    (depth : nat) (this : FileHeader) (freeMap : Bitmap.t) (disk : Disk)
    (fileSize : Z) :
  0 < SectorSize -> 0 < NumDirect ->
  0 < fileSize <= SingleSize SectorSize NumDirect ->
  Z.of_nat (length (dataSectors this)) = NumDirect ->
  divRoundUp fileSize SectorSize <= Bitmap.NumClear freeMap ->
  exists (hdr : FileHeader) (freeMap' : Bitmap.t),
    Allocate SectorSize NumDirect (S depth) this freeMap disk fileSize =
      Done (true, hdr, freeMap', disk) /\
    Deallocate SectorSize NumDirect (S depth) disk hdr freeMap' = Done freeMap /\
    Deallocate SectorSize NumDirect (S depth) disk hdr freeMap = Fatal.
Proof.
  intros HSS HND HS Hnd Hfree.
  assert (HS' : 0 <= fileSize <= SingleSize SectorSize NumDirect) by lia.
  destruct (Allocate_leaf SectorSize NumDirect HSS HND depth this freeMap disk
              fileSize HS' Hnd Hfree)
    as (hdr & freeMap' & L & Erun & Hb & Hsec & HL & Hdup & Hin & Hlen & Hnth
        & Hnum & Hds & Hent).
  pose proof (leaf_sectors SectorSize NumDirect HSS HND fileSize HS') as Hn.
  assert (Hpos : 0 < divRoundUp fileSize SectorSize).
  { destruct (proj1 (divRoundUp_spec fileSize SectorSize _ ltac:(lia) HSS) eq_refl).
    nia. }
  exists hdr, freeMap'. split; [exact Erun|].
  cbn [Deallocate]. rewrite Hb.
  replace (fileSize >? SingleSize SectorSize NumDirect) with false by not_above.
  split.
  - destruct (DeallocateDirect_spec NumDirect (Z.to_nat (numSectors hdr)) 0%nat
                hdr freeMap' L)
      as (freeMap2 & Erun2 & Hlen2 & Hnth2 & _).
    { lia. }
    { exact Hdup. }
    { intros s Hs. rewrite Hnth. apply existsb_In in Hs. now rewrite Hs. }
    { lia. }
    { exact Hds. }
    { intros j Hj. apply (Hent j). lia. }
    change (Z.of_nat 0) with 0 in Erun2. rewrite Erun2. f_equal.
    apply nth_ext with (d := false) (d' := false); [lia|].
    intros k _. rewrite Hnth2, Hnth.
    destruct (existsb (Nat.eqb k) L) eqn:E; cbn [negb orb andb]; [|reflexivity].
    apply existsb_In in E. symmetry. now apply Hin.
  - destruct (Z.to_nat (numSectors hdr)) as [|n] eqn:En; [lia|].
    cbn [DeallocateDirect]. unfold getSector.
    replace ((0 <=? 0) && (0 <? NumDirect)) with true by in_table.
    cbn [bind Z.to_nat]. rewrite (Hent 0%nat) by lia.
    rewrite Test_nat.
    destruct (Hin (nth 0 L 0%nat)) as [_ F]; [apply nth_In; lia|].
    rewrite F. reflexivity.
Qed.

(** X25, witness: 300 bytes on a pool of 8 sectors, three of them in use. *)
Lemma Deallocate_twice_asserts_witness :
  exists hdr freeMap',
    Allocate NachosSectorSize NachosNumDirect 1 (newFileHeader NachosNumDirect)
             [true; false; true; false; false; true; false; false] blankDisk 300 =
      Done (true, hdr, freeMap', blankDisk) /\
    Deallocate NachosSectorSize NachosNumDirect 1 blankDisk hdr freeMap' =
      Done [true; false; true; false; false; true; false; false] /\
    Deallocate NachosSectorSize NachosNumDirect 1 blankDisk hdr
      [true; false; true; false; false; true; false; false] = Fatal.
Proof.
  apply (Deallocate_twice_asserts NachosSectorSize NachosNumDirect 0
           (newFileHeader NachosNumDirect)
           [true; false; true; false; false; true; false; false] blankDisk 300).
  - reflexivity.
  - reflexivity.
  - vm_compute. split; [reflexivity | discriminate].
  - reflexivity.
  - vm_compute. discriminate.
Defined.

(** *** Offsets outside the file *)

(** X26: [ByteToSector] never compares the offset with the length of the
    file.  On a header of the leaf band with a table of [NumDirect]
    entries, whatever [numSectors] says, every offset from
    [-SectorSize + 1] up to [SingleSize - 1] is answered with the table
    entry [offset / SectorSize], the quotient truncated toward zero: a
    negative offset above [-SectorSize] is answered with the first entry,
    and an offset past the end of the file with whatever the table holds
    there. *)
Theorem ByteToSector_unchecked_offset (SectorSize NumDirect : Z) (depth : nat)
    (disk : Disk) (this : FileHeader) (offset : Z) :
  0 < SectorSize -> 0 < NumDirect ->
  numBytes this <= SingleSize SectorSize NumDirect ->
  - SectorSize < offset < SingleSize SectorSize NumDirect ->
  ByteToSector SectorSize NumDirect (S depth) disk this offset =
    Done (nth (Z.to_nat (Z.quot offset SectorSize)) (dataSectors this) (-1)) /\
  (offset < 0 ->
   ByteToSector SectorSize NumDirect (S depth) disk this offset =
     Done (nth 0 (dataSectors this) (-1))).
Proof.
  intros HSS HND Hleaf Hoff.
  destruct (ladder SectorSize NumDirect HSS HND) as (L1 & L2 & L3).
  assert (Hq : 0 <= Z.quot offset SectorSize < NumDirect).
  { destruct (Z_lt_le_dec offset 0) as [Hneg|Hpos].
    - replace (Z.quot offset SectorSize) with 0; [lia|].
      symmetry. apply Z.quot_small_iff; lia.
    - rewrite Z.quot_div_nonneg by lia. unfold SingleSize in Hoff.
      split; [apply Z.div_pos; lia|].
      apply Z.div_lt_upper_bound; lia. }
  assert (E : ByteToSector SectorSize NumDirect (S depth) disk this offset =
              Done (nth (Z.to_nat (Z.quot offset SectorSize)) (dataSectors this) (-1))).
  { cbn [ByteToSector].
    replace (numBytes this >? TripleSize SectorSize NumDirect) with false by not_above.
    replace (numBytes this >? DoubleSize SectorSize NumDirect) with false by not_above.
    replace (numBytes this >? SingleSize SectorSize NumDirect) with false by not_above.
    unfold getSector.
    replace ((0 <=? Z.quot offset SectorSize) && (Z.quot offset SectorSize <? NumDirect))
      with true by in_table.
    reflexivity. }
  split; [exact E|]. intros Hneg. rewrite E.
  replace (Z.quot offset SectorSize) with 0; [reflexivity|].
  symmetry. apply Z.quot_small_iff; lia.
Qed.

(** X26, witness: a leaf header of 300 bytes on the sectors 1, 3 and 4; the
    offset -5 is answered with sector 1, the offset 1000 with the unused
    entry 7 of the table. *)
Lemma ByteToSector_unchecked_offset_witness :
  ByteToSector NachosSectorSize NachosNumDirect 1 blankDisk
    (mkHdr 300 3 (1 :: 3 :: 4 :: repeat (-1) 27)) (-5) = Done 1 /\
  ByteToSector NachosSectorSize NachosNumDirect 1 blankDisk
    (mkHdr 300 3 (1 :: 3 :: 4 :: repeat (-1) 27)) 1000 = Done (-1).
Proof.
  split.
  - apply (ByteToSector_unchecked_offset NachosSectorSize NachosNumDirect 0 blankDisk
             (mkHdr 300 3 (1 :: 3 :: 4 :: repeat (-1) 27)) (-5)).
    + reflexivity.
    + reflexivity.
    + vm_compute. discriminate.
    + vm_compute. split; reflexivity.
    + reflexivity.
  - apply (ByteToSector_unchecked_offset NachosSectorSize NachosNumDirect 0 blankDisk
             (mkHdr 300 3 (1 :: 3 :: 4 :: repeat (-1) 27)) 1000).
    + reflexivity.
    + reflexivity.
    + vm_compute. discriminate.
    + vm_compute. split; reflexivity.
Defined.

(** *** The Single band *)

Section Single.

Variables SectorSize NumDirect : Z.
Hypothesis SectorSize_pos : 0 < SectorSize.
Hypothesis NumDirect_pos : 0 < NumDirect.

Local Abbreviation chunk := (SingleSize SectorSize NumDirect).

Lemma divRoundUp_0 (s : Z) : divRoundUp 0 s = 0.
Proof. unfold divRoundUp. destruct s; reflexivity. Qed.

(** The first chunk and the rest: child headers. *)
Lemma chunks_step (fileSize : Z) :
  0 < fileSize ->
  divRoundUp fileSize chunk = 1 + divRoundUp (Z.max 0 (fileSize - chunk)) chunk.
Proof using SectorSize_pos NumDirect_pos.
  intros H.
  destruct (ladder SectorSize NumDirect SectorSize_pos NumDirect_pos) as (_ & _ & L3).
  destruct (Z_lt_le_dec 0 (fileSize - chunk)) as [G|G].
  - rewrite Z.max_r by lia. rewrite !divRoundUp_ceil by lia.
    replace (fileSize + chunk - 1) with (fileSize - chunk + chunk - 1 + 1 * chunk) by ring.
    rewrite Z.div_add by lia. ring.
  - rewrite Z.max_l by lia. rewrite divRoundUp_0.
    apply divRoundUp_spec; lia.
Qed.

(** The first chunk and the rest: data sectors. *)
Lemma sectors_step (fileSize : Z) :
  0 < fileSize ->
  divRoundUp fileSize SectorSize =
  divRoundUp (Z.min chunk fileSize) SectorSize +
  divRoundUp (Z.max 0 (fileSize - chunk)) SectorSize.
Proof using SectorSize_pos NumDirect_pos.
  intros H.
  destruct (ladder SectorSize NumDirect SectorSize_pos NumDirect_pos) as (_ & _ & L3).
  destruct (Z_lt_le_dec 0 (fileSize - chunk)) as [G|G].
  - rewrite Z.max_r, Z.min_l by lia. rewrite !divRoundUp_ceil by lia.
    unfold SingleSize.
    replace (fileSize + SectorSize - 1)
      with (fileSize - NumDirect * SectorSize + SectorSize - 1 + NumDirect * SectorSize)
      by ring.
    rewrite Z.div_add by lia.
    replace (NumDirect * SectorSize + SectorSize - 1)
      with (SectorSize - 1 + NumDirect * SectorSize) by ring.
    rewrite Z.div_add by lia. rewrite (Z.div_small (SectorSize - 1)) by lia. ring.
  - rewrite Z.max_l, Z.min_r by lia. rewrite divRoundUp_0. ring.
Qed.

Lemma newFileHeader_length :
  Z.of_nat (length (dataSectors (newFileHeader NumDirect))) = NumDirect.
Proof using NumDirect_pos.
  unfold newFileHeader. cbn [dataSectors]. rewrite repeat_length. lia.
Qed.

(** The loop of [Allocate] over [SingleSize] chunks, on a pool that has a
    free sector for every data sector and every child header. *)
Lemma AllocateChildren_single (d : nat) (fuel : nat) :
  forall (i : nat) (oks : list bool) (fileSize : Z) (this : FileHeader)
         (m : Bitmap.t) (disk : Disk),
  fileSize <= Z.of_nat fuel ->
  Z.of_nat i + divRoundUp (Z.max 0 fileSize) chunk <= NumDirect ->
  Z.of_nat (length (dataSectors this)) = NumDirect ->
  divRoundUp (Z.max 0 fileSize) SectorSize + divRoundUp (Z.max 0 fileSize) chunk
    <= Bitmap.NumClear m ->
  exists (r : LoopResult) (C : list Child),
    AllocateChildren NumDirect (Allocate SectorSize NumDirect (S d)) chunk fuel
      (Z.of_nat i) oks fileSize this m disk = Done r /\
    childOk r = oks ++ repeat true (length C) /\
    Z.of_nat (length C) = divRoundUp (Z.max 0 fileSize) chunk /\
    Z.of_nat (length (fileSectors C)) = divRoundUp (Z.max 0 fileSize) SectorSize /\
    NoDup (headerSectors C) /\ NoDup (fileSectors C) /\
    (forall s, In s (headerSectors C) -> ~ In s (fileSectors C)) /\
    (forall s, In s (headerSectors C) \/ In s (fileSectors C) ->
       (s < length m)%nat /\ nth s m false = false) /\
    length (loopMap r) = length m /\
    (forall k, nth k (loopMap r) false =
               existsb (Nat.eqb k) (headerSectors C) ||
               existsb (Nat.eqb k) (fileSectors C) || nth k m false) /\
    Bitmap.NumClear (loopMap r) =
      Bitmap.NumClear m -
      (divRoundUp (Z.max 0 fileSize) SectorSize + divRoundUp (Z.max 0 fileSize) chunk) /\
    numBytes (loopHdr r) = numBytes this /\
    numSectors (loopHdr r) = numSectors this /\
    length (dataSectors (loopHdr r)) = length (dataSectors this) /\
    (forall j, (j < i)%nat ->
       nth j (dataSectors (loopHdr r)) (-1) = nth j (dataSectors this) (-1)) /\
    childrenAt SectorSize NumDirect (loopDisk r) (dataSectors (loopHdr r)) i fileSize C /\
    (forall k, ~ In k (map Z.of_nat (headerSectors C)) -> loopDisk r k = disk k).
Proof using SectorSize_pos NumDirect_pos.
  destruct (ladder SectorSize NumDirect SectorSize_pos NumDirect_pos) as (_ & _ & L3).
  induction fuel as [|fuel IH]; intros i oks fileSize this m disk Hfuel Hi Hnd Hfree;
    cbn [AllocateChildren]; destruct (fileSize >? 0) eqn:G.
  1: apply Z.gtb_lt in G; lia.
  1, 3: rewrite Z.gtb_ltb in G; apply Z.ltb_ge in G;
    exists (mkLoop (Z.of_nat i) oks this m disk), [];
    rewrite Z.max_l by lia; rewrite !divRoundUp_0;
    cbn [childOk loopHdr loopMap loopDisk length repeat headerSectors fileSectors
         map flat_map existsb orb childrenAt In];
    rewrite app_nil_r;
    do 4 (split; [reflexivity|]);
    split; [constructor|]; split; [constructor|];
    split; [intros s []|]; split; [intros s [[]|[]]|];
    do 2 (split; [reflexivity|]); split; [lia|];
    do 3 (split; [reflexivity|]);
    split; [reflexivity|]; split; [exact I | reflexivity].
  apply Z.gtb_lt in G. rewrite (Z.max_r 0 fileSize) in Hi, Hfree |- * by lia.
  pose proof (chunks_step fileSize G) as Ec.
  pose proof (sectors_step fileSize G) as Es.
  set (rest := Z.max 0 (fileSize - chunk)) in *.
  assert (Hrest : 0 <= rest) by (unfold rest; lia).
  pose proof (divRoundUp_nonneg rest chunk Hrest L3) as Hrc.
  pose proof (divRoundUp_nonneg rest SectorSize Hrest SectorSize_pos) as Hrs.
  set (size := if fileSize >? chunk then chunk else fileSize).
  assert (Esize : size = Z.min chunk fileSize).
  { unfold size. destruct (fileSize >? chunk) eqn:G2.
    - apply Z.gtb_lt in G2. lia.
    - rewrite Z.gtb_ltb in G2. apply Z.ltb_ge in G2. lia. }
  assert (Hsize : 0 <= size <= chunk) by lia.
  pose proof (divRoundUp_nonneg size SectorSize ltac:(lia) SectorSize_pos) as Hss.
  rewrite <- Esize in Es.
  destruct (FindAndSet_found m ltac:(lia)) as (s & Efs & Hs & Hclear & Hcount).
  rewrite Efs. unfold setSector.
  replace ((0 <=? Z.of_nat i) && (Z.of_nat i <? NumDirect)) with true by in_table.
  cbn [bind]. rewrite Nat2Z.id.
  set (this1 := mkHdr _ _ _).
  destruct (Allocate_leaf SectorSize NumDirect SectorSize_pos NumDirect_pos d
              (newFileHeader NumDirect) (upd s true m) disk size Hsize
              newFileHeader_length ltac:(lia))
    as (hdr & m2 & L & Erun & Hb & Hsec & HL & Hdup & Hin & Hlen & Hnth
        & Hnum & Hds & Hent).
  rewrite Erun. cbn [bind]. unfold WriteBack.
  replace (Z.of_nat s <? 0) with false by (symmetry; apply Z.ltb_ge; lia).
  cbn [bind].
  replace (Z.of_nat i + 1) with (Z.of_nat (S i)) by lia.
  destruct (IH (S i) (oks ++ [true]) (fileSize - chunk) this1 m2
              (WriteSector disk (Z.of_nat s) hdr))
    as (r & C & Eloop & Hoks & HC & HD & NdH & NdD & Hdisj & Hfreed & Hlen' & Hbits
        & Hcnt & Hb' & Hsec' & Hds' & Hbelow & Hch & Hframe).
  { lia. }
  { fold rest. lia. }
  { unfold this1. cbn [dataSectors]. rewrite upd_length. exact Hnd. }
  { fold rest. lia. }
  fold rest in HC, HD, Hcnt.
  assert (Hm1 : forall k, nth k (upd s true m) false = Nat.eqb k s || nth k m false).
  { intros k. rewrite nth_upd. apply Nat.ltb_lt in Hs. rewrite Hs, andb_true_r.
    now destruct (Nat.eqb k s). }
  assert (Hs2 : nth s m2 false = true).
  { rewrite Hnth, Hm1, Nat.eqb_refl. apply orb_true_r. }
  assert (HL2 : forall x, In x L -> nth x m2 false = true).
  { intros x Hx. rewrite Hnth. apply existsb_In in Hx. now rewrite Hx. }
  assert (HsL : ~ In s L).
  { intros Hx. apply Hin in Hx as [_ Hx]. rewrite Hm1, Nat.eqb_refl in Hx. discriminate. }
  exists r, ((s, L) :: C). split; [exact Eloop|].
  cbn [length repeat headerSectors fileSectors map flat_map fst snd].
  fold (headerSectors C). fold (fileSectors C).
  split. { rewrite Hoks, <- app_assoc. reflexivity. }
  split; [lia|].
  split. { rewrite length_app. lia. }
  split.
  { constructor; [|exact NdH]. intros Hx.
    destruct (Hfreed s (or_introl Hx)) as [_ F]. congruence. }
  split.
  { apply NoDup_app; [exact Hdup | exact NdD |].
    intros x Hx Hx'. destruct (Hfreed x (or_intror Hx')) as [_ F].
    rewrite (HL2 x Hx) in F. discriminate. }
  split.
  { intros x [<-|Hx] Hx'; apply in_app_or in Hx' as [Hx'|Hx'].
    - now apply HsL.
    - destruct (Hfreed s (or_intror Hx')) as [_ F]. congruence.
    - destruct (Hfreed x (or_introl Hx)) as [_ F].
      rewrite (HL2 x Hx') in F. discriminate.
    - now apply (Hdisj x Hx). }
  assert (Hfree2 : forall x, nth x m2 false = false ->
                             x <> s /\ nth x m false = false).
  { intros x Hx. rewrite Hnth, Hm1 in Hx.
    apply orb_false_iff in Hx as [_ Hx]. apply orb_false_iff in Hx as [Hx Hx'].
    apply Nat.eqb_neq in Hx. now split. }
  split.
  { intros x [[<-|Hx]|Hx].
    - now split.
    - destruct (Hfreed x (or_introl Hx)) as [A B]. apply Hfree2 in B.
      split; [rewrite Hlen, upd_length in A; exact A | apply B].
    - apply in_app_or in Hx as [Hx|Hx].
      + destruct (Hin x Hx) as [A B]. rewrite upd_length in A.
        rewrite Hm1 in B. apply orb_false_iff in B. now split.
      + destruct (Hfreed x (or_intror Hx)) as [A B]. apply Hfree2 in B.
        split; [rewrite Hlen, upd_length in A; exact A | apply B]. }
  split. { rewrite Hlen', Hlen. apply upd_length. }
  split.
  { intros k. rewrite Hbits, Hnth, Hm1, existsb_app. cbn [existsb].
    destruct (Nat.eqb k s), (existsb (Nat.eqb k) (headerSectors C)),
      (existsb (Nat.eqb k) (fileSectors C)), (existsb (Nat.eqb k) L),
      (nth k m false); reflexivity. }
  split; [lia|]. split; [exact Hb'|]. split; [exact Hsec'|].
  split. { rewrite Hds'. unfold this1. cbn [dataSectors]. apply upd_length. }
  split.
  { intros j Hj. rewrite Hbelow by lia. unfold this1. cbn [dataSectors].
    rewrite nth_upd.
    replace (Nat.eqb j i) with false by (symmetry; apply Nat.eqb_neq; lia).
    reflexivity. }
  split.
  { cbn [childrenAt fst snd]. split.
    { rewrite Hbelow by lia. unfold this1. cbn [dataSectors].
      rewrite nth_upd, Nat.eqb_refl.
      replace (Nat.ltb i (length (dataSectors this))) with true
        by (symmetry; apply Nat.ltb_lt; lia).
      reflexivity. }
    split; [|exact Hch].
    rewrite Hframe.
    2:{ intros Hx. apply in_map_iff in Hx as (x & Ex & Hx).
        apply Nat2Z.inj in Ex. subst x.
        destruct (Hfreed s (or_introl Hx)) as [_ F]. congruence. }
    unfold WriteSector. rewrite Z.eqb_refl. rewrite <- Esize.
    unfold leafHeader. split; [exact Hb|]. split; [exact Hsize|].
    split; [lia|]. split; [exact HL|]. split; [exact Hds | exact Hent]. }
  intros k Hk. rewrite Hframe.
  - unfold WriteSector. destruct (k =? Z.of_nat s) eqn:E; [|reflexivity].
    apply Z.eqb_eq in E. exfalso. apply Hk. now left.
  - intros Hx. apply Hk. now right.
Qed.

Lemma chunks_bound (fileSize : Z) :
  0 < fileSize <= DoubleSize SectorSize NumDirect ->
  0 < divRoundUp fileSize chunk <= NumDirect.
Proof using SectorSize_pos NumDirect_pos.
  intros H.
  destruct (ladder SectorSize NumDirect SectorSize_pos NumDirect_pos) as (_ & _ & L3).
  destruct (proj1 (divRoundUp_spec fileSize chunk _ ltac:(lia) L3) eq_refl) as [A B].
  unfold DoubleSize in H. nia.
Qed.

(** [Allocate] in the Single band, on a pool that has a free sector for
    every data sector and every child header. *)
Lemma Allocate_single (d : nat) (this : FileHeader) (m : Bitmap.t) (disk : Disk)
    (fileSize : Z) :
  chunk < fileSize <= DoubleSize SectorSize NumDirect ->
  Z.of_nat (length (dataSectors this)) = NumDirect ->
  divRoundUp fileSize SectorSize + divRoundUp fileSize chunk <= Bitmap.NumClear m ->
  exists (r : LoopResult) (C : list Child),
    AllocateChildren NumDirect (Allocate SectorSize NumDirect (S d)) chunk
      (Z.to_nat fileSize) 0 [] fileSize
      (mkHdr fileSize (divRoundUp fileSize SectorSize) (dataSectors this))
      m disk = Done r /\
    Allocate SectorSize NumDirect (S (S d)) this m disk fileSize =
      Done (true, loopHdr r, loopMap r, loopDisk r) /\
    childOk r = repeat true (length C) /\
    Z.of_nat (length C) = divRoundUp fileSize chunk /\
    Z.of_nat (length (fileSectors C)) = divRoundUp fileSize SectorSize /\
    NoDup (headerSectors C) /\ NoDup (fileSectors C) /\
    (forall s, In s (headerSectors C) -> ~ In s (fileSectors C)) /\
    (forall s, In s (headerSectors C) \/ In s (fileSectors C) ->
       (s < length m)%nat /\ nth s m false = false) /\
    length (loopMap r) = length m /\
    (forall k, nth k (loopMap r) false =
               existsb (Nat.eqb k) (headerSectors C) ||
               existsb (Nat.eqb k) (fileSectors C) || nth k m false) /\
    Bitmap.NumClear (loopMap r) =
      Bitmap.NumClear m -
      (divRoundUp fileSize SectorSize + divRoundUp fileSize chunk) /\
    numBytes (loopHdr r) = fileSize /\
    numSectors (loopHdr r) = divRoundUp fileSize SectorSize /\
    Z.of_nat (length (dataSectors (loopHdr r))) = NumDirect /\
    childrenAt SectorSize NumDirect (loopDisk r) (dataSectors (loopHdr r))
               0 fileSize C /\
    (forall k, ~ In k (map Z.of_nat (headerSectors C)) -> loopDisk r k = disk k).
Proof using SectorSize_pos NumDirect_pos.
  intros HS Hnd Hfree.
  destruct (ladder SectorSize NumDirect SectorSize_pos NumDirect_pos) as (L1 & L2 & L3).
  pose proof (chunks_bound fileSize ltac:(lia)) as Hc.
  destruct (AllocateChildren_single d (Z.to_nat fileSize) 0%nat [] fileSize
              (mkHdr fileSize (divRoundUp fileSize SectorSize) (dataSectors this))
              m disk)
    as (r & C & Eloop & Hoks & HC & HD & NdH & NdD & Hdisj & Hfreed & Hlen & Hbits
        & Hcnt & Hb & Hsec & Hds & _ & Hch & Hframe).
  { lia. }
  { rewrite Z.max_r by lia. lia. }
  { exact Hnd. }
  { rewrite Z.max_r by lia. exact Hfree. }
  rewrite Z.max_r in HC, HD, Hcnt by lia.
  change (Z.of_nat 0) with 0 in Eloop.
  exists r, C. split; [exact Eloop|]. split.
  { rewrite Allocate_unfold. cbv zeta. cbn [numSectors].
    replace (Bitmap.NumClear m <? divRoundUp fileSize SectorSize) with false
      by (symmetry; apply Z.ltb_ge; lia).
    replace (fileSize >? TripleSize SectorSize NumDirect) with false by not_above.
    replace (fileSize >? DoubleSize SectorSize NumDirect) with false by not_above.
    replace (fileSize >? chunk) with true by (symmetry; apply Z.gtb_lt; lia).
    rewrite Eloop. reflexivity. }
  split; [exact Hoks|]. split; [exact HC|]. split; [exact HD|].
  split; [exact NdH|]. split; [exact NdD|]. split; [exact Hdisj|].
  split; [exact Hfreed|]. split; [exact Hlen|]. split; [exact Hbits|].
  split; [exact Hcnt|]. split; [exact Hb|]. split; [exact Hsec|].
  split; [rewrite Hds; exact Hnd|]. split; [exact Hch | exact Hframe].
Qed.

(** The loop of [Deallocate] over the children of a file of the Single
    band whose data sectors are all marked. *)
Lemma DeallocateChildren_single (d : nat) (disk : Disk) (this : FileHeader)
    (C : list Child) :
  forall (i : nat) (fileSize : Z) (m : Bitmap.t),
  Z.of_nat (length (dataSectors this)) = NumDirect ->
  (i + length C <= length (dataSectors this))%nat ->
  NoDup (fileSectors C) ->
  (forall s, In s (fileSectors C) -> nth s m false = true) ->
  childrenAt SectorSize NumDirect disk (dataSectors this) i fileSize C ->
  exists m' : Bitmap.t,
    DeallocateChildren NumDirect (Deallocate SectorSize NumDirect (S d) disk) disk
      (length C) (Z.of_nat i) this m = Done m' /\
    length m' = length m /\
    (forall k, nth k m' false =
               negb (existsb (Nat.eqb k) (fileSectors C)) && nth k m false) /\
    Bitmap.NumClear m' = Bitmap.NumClear m + Z.of_nat (length (fileSectors C)).
Proof using SectorSize_pos NumDirect_pos.
  induction C as [|c C IH]; intros i fileSize m Hnd Hi Hdup Hset Hch.
  - exists m. cbn. split; [reflexivity|]. split; [reflexivity|].
    split; [reflexivity | lia].
  - cbn [childrenAt] in Hch. destruct Hch as (Ec & (Hb & Hsz & Hsec & HL & Hds & Hent) & Hch).
    cbn [length] in Hi. cbn [fileSectors flat_map] in Hdup, Hset |- *.
    fold (fileSectors C) in Hdup, Hset |- *.
    cbn [length DeallocateChildren]. unfold getSector.
    replace ((0 <=? Z.of_nat i) && (Z.of_nat i <? NumDirect)) with true by in_table.
    cbn [bind]. rewrite Nat2Z.id, Ec. unfold FetchFrom.
    replace (Z.of_nat (fst c) <? 0) with false by (symmetry; apply Z.ltb_ge; lia).
    cbn [bind Deallocate]. rewrite Hb.
    replace (Z.min chunk fileSize >? chunk) with false by not_above.
    pose proof (leaf_sectors SectorSize NumDirect SectorSize_pos NumDirect_pos _ Hsz) as Hn.
    rewrite Hsec, Nat2Z.id.
    destruct (DeallocateDirect_spec NumDirect (length (snd c)) 0%nat
                (disk (Z.of_nat (fst c))) m (snd c))
      as (m1 & Erun & Hlen1 & Hnth1 & Hcnt1).
    { reflexivity. }
    { now apply NoDup_app_remove_r in Hdup. }
    { intros s Hs. apply Hset. apply in_or_app. now left. }
    { lia. }
    { exact Hds. }
    { exact Hent. }
    change (Z.of_nat 0) with 0 in Erun. rewrite Erun. cbn [bind].
    replace (Z.of_nat i + 1) with (Z.of_nat (S i)) by lia.
    destruct (IH (S i) (fileSize - chunk) m1 Hnd ltac:(lia))
      as (m' & Eloop & Hlen & Hnth & Hcnt).
    { now apply NoDup_app_remove_l in Hdup. }
    { intros s Hs. rewrite Hnth1.
      rewrite Hset by (apply in_or_app; now right).
      replace (existsb (Nat.eqb s) (snd c)) with false; [reflexivity|].
      symmetry. apply not_true_is_false. intros E. apply existsb_In in E.
      revert s E Hs. clear - Hdup. induction (snd c) as [|a l IHl]; intros s E Hs.
      - destruct E.
      - cbn [app] in Hdup. apply NoDup_cons_iff in Hdup as [Ha Hdup].
        destruct E as [->|E]; [|now apply (IHl Hdup s)].
        apply Ha. apply in_or_app. now right. }
    { exact Hch. }
    exists m'. split; [exact Eloop|]. split; [congruence|]. split.
    + intros k. rewrite Hnth, Hnth1, existsb_app.
      destruct (existsb (Nat.eqb k) (snd c)), (existsb (Nat.eqb k) (fileSectors C));
        reflexivity.
    + rewrite length_app. lia.
Qed.

Lemma childrenAt_nth (disk : Disk) (table : list Z) (C : list Child) :
  forall (i : nat) (fileSize : Z) (j : nat),
  childrenAt SectorSize NumDirect disk table i fileSize C ->
  (j < length C)%nat ->
  nth (i + j) table (-1) = Z.of_nat (fst (nth j C (0%nat, []))) /\
  leafHeader SectorSize NumDirect (disk (Z.of_nat (fst (nth j C (0%nat, [])))))
             (Z.min chunk (fileSize - Z.of_nat j * chunk))
             (snd (nth j C (0%nat, []))).
Proof using Type.
  induction C as [|c C IH]; intros i fileSize j Hch Hj; [cbn in Hj; lia|].
  cbn [childrenAt] in Hch. destruct Hch as (Ec & Hleaf & Hch).
  destruct j as [|j].
  - rewrite Nat.add_0_r. cbn [nth]. split; [exact Ec|].
    replace (fileSize - Z.of_nat 0 * chunk) with fileSize by lia. exact Hleaf.
  - cbn [nth length] in Hj |- *. replace (i + S j)%nat with (S i + j)%nat by lia.
    replace (fileSize - Z.of_nat (S j) * chunk)
      with (fileSize - chunk - Z.of_nat j * chunk) by lia.
    apply IH; [exact Hch | lia].
Qed.

Lemma nth_fileSectors (N : nat) (C : list Child) :
  forall j k : nat,
  (forall j', (j' < j)%nat -> length (snd (nth j' C (0%nat, []))) = N) ->
  (j < length C)%nat ->
  (k < length (snd (nth j C (0%nat, []))))%nat ->
  nth (j * N + k) (fileSectors C) 0%nat = nth k (snd (nth j C (0%nat, []))) 0%nat.
Proof using Type.
  induction C as [|c C IH]; intros j k Hfull Hj Hk; [cbn in Hj; lia|].
  cbn [fileSectors flat_map]. fold (fileSectors C). destruct j as [|j].
  - cbn [nth] in Hk |- *. cbn [Nat.mul Nat.add]. now apply app_nth1.
  - cbn [nth length] in Hj, Hk |- *.
    pose proof (Hfull 0%nat ltac:(lia)) as H0. cbn [nth] in H0.
    replace (S j * N + k)%nat with (length (snd c) + (j * N + k))%nat by lia.
    rewrite app_nth2_plus. apply IH; [|lia | exact Hk].
    intros j' Hj'. apply (Hfull (S j')). lia.
Qed.

End Single.

(** X27: what a file of the Single band costs.  For
    [SingleSize < fileSize <= DoubleSize], on a pool with a free sector for
    each of the [n = divRoundUp(fileSize, SectorSize)] data sectors and for
    each of the [divRoundUp(n, NumDirect)] child headers, every child
    allocation returns TRUE, the loop writes one table entry per child, and
    [Allocate] returns TRUE having taken exactly
    [n + divRoundUp(n, NumDirect)] sectors; the disk is written in the
    child header sectors only. *)
Theorem Allocate_single_band_cost (SectorSize NumDirect : Z) (d : nat)
    (this : FileHeader) (freeMap : Bitmap.t) (disk : Disk) (fileSize : Z) :
  0 < SectorSize -> 0 < NumDirect ->
  SingleSize SectorSize NumDirect < fileSize <= DoubleSize SectorSize NumDirect ->
  Z.of_nat (length (dataSectors this)) = NumDirect ->
  let n := divRoundUp fileSize SectorSize in
  n + divRoundUp n NumDirect <= Bitmap.NumClear freeMap ->
  exists r : LoopResult,
    AllocateChildren NumDirect (Allocate SectorSize NumDirect (S d))
      (SingleSize SectorSize NumDirect) (Z.to_nat fileSize) 0 [] fileSize
      (mkHdr fileSize n (dataSectors this)) freeMap disk = Done r /\
    Allocate SectorSize NumDirect (S (S d)) this freeMap disk fileSize =
      Done (true, loopHdr r, loopMap r, loopDisk r) /\
    written r = divRoundUp n NumDirect /\
    childOk r = repeat true (Z.to_nat (divRoundUp n NumDirect)) /\
    Bitmap.NumClear (loopMap r) =
      Bitmap.NumClear freeMap - n - divRoundUp n NumDirect /\
    forall k, (forall j, 0 <= j < divRoundUp n NumDirect ->
                 k <> nth (Z.to_nat j) (dataSectors (loopHdr r)) (-1)) ->
              loopDisk r k = disk k.
Proof.
  intros HSS HND HS Hnd n Hfree.
  destruct (ladder SectorSize NumDirect HSS HND) as (L1 & L2 & L3).
  assert (Etw : divRoundUp n NumDirect =
                divRoundUp fileSize (SingleSize SectorSize NumDirect)).
  { unfold n, SingleSize. apply divRoundUp_twice; lia. }
  rewrite Etw in Hfree |- *.
  destruct (Allocate_single SectorSize NumDirect HSS HND d this freeMap disk fileSize
              HS Hnd Hfree)
    as (r & C & Eloop & Erun & Hoks & HC & HD & NdH & NdD & Hdisj & Hfreed & Hlen
        & Hbits & Hcnt & Hb & Hsec & Hds & Hch & Hframe).
  exists r. split; [exact Eloop|]. split; [exact Erun|].
  split.
  { apply AllocateChildren_written in Eloop as (W & _); [|exact L3].
    rewrite W. replace (fileSize >? 0) with true by (symmetry; apply Z.gtb_lt; lia).
    lia. }
  split. { rewrite Hoks, <- HC, Nat2Z.id. reflexivity. }
  split; [fold n in Hcnt; lia|].
  intros k Hk. apply Hframe. intros Hin.
  apply in_map_iff in Hin as (x & Ex & Hx). unfold headerSectors in Hx.
  apply In_nth with (d := 0%nat) in Hx as (j & Hj & Ej).
  rewrite length_map in Hj.
  destruct (childrenAt_nth SectorSize NumDirect _ _ _ 0%nat fileSize j Hch Hj) as [Et _].
  apply (Hk (Z.of_nat j)). { unfold Child in *. lia. }
  rewrite Nat2Z.id. cbn [Nat.add] in Et. rewrite Et, <- Ex, <- Ej.
  f_equal. apply (map_nth fst C (0%nat, []) j).
Qed.

(** X27, witness: 4000 bytes (32 sectors, 2 child headers) on a pool of 64
    free sectors: 34 sectors are taken. *)
Lemma Allocate_single_band_cost_witness :
  exists r,
    Allocate NachosSectorSize NachosNumDirect 2 (newFileHeader NachosNumDirect)
             (freePool 64) blankDisk 4000 =
      Done (true, loopHdr r, loopMap r, loopDisk r) /\
    written r = 2 /\ childOk r = [true; true] /\
    Bitmap.NumClear (loopMap r) = 30.
Proof.
  destruct (Allocate_single_band_cost NachosSectorSize NachosNumDirect 0
              (newFileHeader NachosNumDirect) (freePool 64) blankDisk 4000)
    as (r & _ & Erun & W & K & N & _).
  - reflexivity.
  - reflexivity.
  - vm_compute. split; [reflexivity | discriminate].
  - reflexivity.
  - vm_compute. discriminate.
  - exists r. split; [exact Erun|]. split; [exact W|]. split; [exact K | exact N].
Defined.

(** X28: what [Deallocate] gives back in the Single band.  After the
    allocation of X27, [Deallocate] on the same header returns, and the pool
    then has [divRoundUp(n, NumDirect)] free sectors fewer than before the
    allocation: the [n] data sectors are free again, while each sector
    named by the first [divRoundUp(n, NumDirect)] table entries (the child
    headers), free before the allocation, is still marked. *)
Theorem Deallocate_single_band_keeps_child_headers (SectorSize NumDirect : Z)
    (d : nat) (this : FileHeader) (freeMap : Bitmap.t) (disk : Disk)
    (fileSize : Z) :
  0 < SectorSize -> 0 < NumDirect ->
  SingleSize SectorSize NumDirect < fileSize <= DoubleSize SectorSize NumDirect ->
  Z.of_nat (length (dataSectors this)) = NumDirect ->
  let n := divRoundUp fileSize SectorSize in
  n + divRoundUp n NumDirect <= Bitmap.NumClear freeMap ->
  exists (hdr : FileHeader) (freeMap1 : Bitmap.t) (disk1 : Disk) (freeMap2 : Bitmap.t),
    Allocate SectorSize NumDirect (S (S d)) this freeMap disk fileSize =
      Done (true, hdr, freeMap1, disk1) /\
    Deallocate SectorSize NumDirect (S (S d)) disk1 hdr freeMap1 = Done freeMap2 /\
    Bitmap.NumClear freeMap2 = Bitmap.NumClear freeMap - divRoundUp n NumDirect /\
    (forall j, 0 <= j < divRoundUp n NumDirect ->
       let s := nth (Z.to_nat j) (dataSectors hdr) (-1) in
       Bitmap.Test freeMap s = false /\ Bitmap.Test freeMap2 s = true) /\
    (forall k, Bitmap.Test freeMap k = true -> Bitmap.Test freeMap2 k = true).
Proof.
  intros HSS HND HS Hnd n Hfree.
  destruct (ladder SectorSize NumDirect HSS HND) as (L1 & L2 & L3).
  assert (Hn : 0 <= n) by (apply divRoundUp_nonneg; lia).
  assert (Etw : divRoundUp n NumDirect =
                divRoundUp fileSize (SingleSize SectorSize NumDirect)).
  { unfold n, SingleSize. apply divRoundUp_twice; lia. }
  pose proof (chunks_bound SectorSize NumDirect HSS HND fileSize ltac:(lia)) as Hc.
  assert (Hfree' : divRoundUp fileSize SectorSize +
                   divRoundUp fileSize (SingleSize SectorSize NumDirect)
                   <= Bitmap.NumClear freeMap) by (fold n; lia).
  destruct (Allocate_single SectorSize NumDirect HSS HND d this freeMap disk fileSize
              HS Hnd Hfree')
    as (r & C & Eloop & Erun & Hoks & HC & HD & NdH & NdD & Hdisj & Hfreed & Hlen
        & Hbits & Hcnt & Hb & Hsec & Hds & Hch & Hframe).
  destruct (DeallocateChildren_single SectorSize NumDirect HSS HND d (loopDisk r)
              (loopHdr r) C 0%nat fileSize (loopMap r) Hds ltac:(lia) NdD)
    as (m2 & Erel & Hlen2 & Hbits2 & Hcnt2).
  { intros s Hs. rewrite Hbits. apply existsb_In in Hs. rewrite Hs.
    now rewrite orb_true_r. }
  { exact Hch. }
  exists (loopHdr r), (loopMap r), (loopDisk r), m2.
  split; [exact Erun|]. split.
  { cbn [Deallocate]. rewrite Hb.
    replace (fileSize >? SingleSize SectorSize NumDirect) with true
      by (symmetry; apply Z.gtb_lt; lia).
    cbv zeta. rewrite Hsec. fold n. rewrite Etw, <- HC, Nat2Z.id. exact Erel. }
  split. { fold n in HD, Hcnt. lia. }
  split.
  - intros j Hj. cbv zeta.
    assert (Hjn : (Z.to_nat j < length C)%nat) by lia.
    destruct (childrenAt_nth SectorSize NumDirect _ _ _ 0%nat fileSize _ Hch Hjn)
      as [Et _].
    cbn [Nat.add] in Et. rewrite Et, !Test_nat.
    set (c := fst (nth (Z.to_nat j) C (0%nat, []))).
    assert (Hc' : In c (headerSectors C)).
    { unfold c, headerSectors. apply in_map. now apply nth_In. }
    destruct (Hfreed c (or_introl Hc')) as [_ F]. split; [exact F|].
    rewrite Hbits2, Hbits.
    replace (existsb (Nat.eqb c) (fileSectors C)) with false.
    + apply existsb_In in Hc'. rewrite Hc'. reflexivity.
    + symmetry. apply not_true_is_false. intros E. apply existsb_In in E.
      now apply (Hdisj c).
  - intros k Hk. apply Test_true in Hk as [Hk0 Hk]. apply Test_true.
    split; [exact Hk0|]. rewrite Hbits2, Hbits, Hk, !orb_true_r, andb_true_r.
    apply negb_true_iff. apply not_true_is_false. intros E. apply existsb_In in E.
    destruct (Hfreed _ (or_intror E)) as [_ F]. congruence.
Qed.

(** X28, witness: 4000 bytes on a pool of 64 free sectors: after
    [Allocate] and [Deallocate] 62 sectors are free, and the sector of the
    first child header is still marked. *)
Lemma Deallocate_single_band_keeps_child_headers_witness :
  exists hdr freeMap1 disk1 freeMap2,
    Allocate NachosSectorSize NachosNumDirect 2 (newFileHeader NachosNumDirect)
             (freePool 64) blankDisk 4000 = Done (true, hdr, freeMap1, disk1) /\
    Deallocate NachosSectorSize NachosNumDirect 2 disk1 hdr freeMap1 =
      Done freeMap2 /\
    Bitmap.NumClear freeMap2 = 62 /\
    Bitmap.Test freeMap2 (nth 0 (dataSectors hdr) (-1)) = true.
Proof.
  destruct (Deallocate_single_band_keeps_child_headers NachosSectorSize
              NachosNumDirect 0 (newFileHeader NachosNumDirect) (freePool 64)
              blankDisk 4000)
    as (hdr & freeMap1 & disk1 & freeMap2 & Erun & Erel & N & H & _).
  - reflexivity.
  - reflexivity.
  - vm_compute. split; [reflexivity | discriminate].
  - reflexivity.
  - vm_compute. discriminate.
  - exists hdr, freeMap1, disk1, freeMap2.
    split; [exact Erun|]. split; [exact Erel|]. split; [exact N|].
    apply (H 0). vm_compute. split; [discriminate | reflexivity].
Defined.

(** A position below a size lies in a sector below the rounded-up
    count. *)
Lemma div_below_divRoundUp (x size s : Z) :
  0 < s -> 0 <= x < size -> 0 <= x / s < divRoundUp size s.
Proof.
  intros Hs Hx.
  destruct (proj1 (divRoundUp_spec size s _ ltac:(lia) Hs) eq_refl) as [A B].
  split; [apply Z.div_pos; lia|].
  apply Z.div_lt_upper_bound; [exact Hs | lia].
Qed.

(** An offset split by chunk of [SingleSize] bytes, then by sector. *)
Lemma offset_split (SectorSize NumDirect offset : Z) :
  0 < SectorSize -> 0 < NumDirect -> 0 <= offset ->
  let chunk := SingleSize SectorSize NumDirect in
  let j := offset / chunk in
  let off' := offset - j * chunk in
  0 <= j /\ j * chunk <= offset /\ 0 <= off' < chunk /\
  offset / SectorSize = j * NumDirect + off' / SectorSize.
Proof.
  intros HSS HND Hoff chunk j off'.
  assert (Hc : 0 < chunk) by (apply Z.mul_pos_pos; assumption).
  pose proof (Z.div_mod offset chunk ltac:(lia)) as E.
  pose proof (Z.mod_pos_bound offset chunk Hc) as B. fold j in E.
  split; [apply Z.div_pos; lia|].
  split; [lia|]. split; [unfold off'; lia|].
  replace offset with (j * NumDirect * SectorSize + off') at 1
    by (unfold off', chunk, SingleSize; ring).
  apply Z.div_add_l. lia.
Qed.

(** One level of [ByteToSector]. *)
Lemma ByteToSector_unfold (SectorSize NumDirect : Z) (depth : nat) (disk : Disk)
    (this : FileHeader) (offset : Z) :
  ByteToSector SectorSize NumDirect (S depth) disk this offset =
  let descend (chunk : Z) : Outcome Z :=
    let sector := divRoundDown offset chunk in
    s <- getSector NumDirect this sector ;;
    hdr <- FetchFrom disk s ;;
    ByteToSector SectorSize NumDirect depth disk hdr (offset - sector * chunk) in
  if numBytes this >? TripleSize SectorSize NumDirect
  then descend (TripleSize SectorSize NumDirect)
  else if numBytes this >? DoubleSize SectorSize NumDirect
  then descend (DoubleSize SectorSize NumDirect)
  else if numBytes this >? SingleSize SectorSize NumDirect
  then descend (SingleSize SectorSize NumDirect)
  else getSector NumDirect this (Z.quot offset SectorSize).
Proof. reflexivity. Qed.

(** X29: [ByteToSector] in the Single band.  After the allocation of X27
    the file has [n] different data sectors [D], free before the call and
    marked after it, none of them a child header, and [ByteToSector] maps
    every offset of [0, fileSize) to the sector of [D] at position
    [offset / SectorSize], looking it up through the child header
    [offset / SingleSize]. *)
Theorem ByteToSector_single_band_coverage (SectorSize NumDirect : Z)
    (d : nat) (this : FileHeader) (freeMap : Bitmap.t) (disk : Disk)
    (fileSize : Z) :
  0 < SectorSize -> 0 < NumDirect ->
  SingleSize SectorSize NumDirect < fileSize <= DoubleSize SectorSize NumDirect ->
  Z.of_nat (length (dataSectors this)) = NumDirect ->
  let n := divRoundUp fileSize SectorSize in
  n + divRoundUp n NumDirect <= Bitmap.NumClear freeMap ->
  exists (hdr : FileHeader) (freeMap1 : Bitmap.t) (disk1 : Disk) (D : list nat),
    Allocate SectorSize NumDirect (S (S d)) this freeMap disk fileSize =
      Done (true, hdr, freeMap1, disk1) /\
    Z.of_nat (length D) = n /\ NoDup D /\
    (forall s, In s D ->
       Bitmap.Test freeMap (Z.of_nat s) = false /\
       Bitmap.Test freeMap1 (Z.of_nat s) = true /\
       forall j, 0 <= j < divRoundUp n NumDirect ->
         Z.of_nat s <> nth (Z.to_nat j) (dataSectors hdr) (-1)) /\
    forall offset, 0 <= offset < fileSize ->
      (Z.to_nat (Z.quot offset SectorSize) < length D)%nat /\
      ByteToSector SectorSize NumDirect (S (S d)) disk1 hdr offset =
        Done (Z.of_nat (nth (Z.to_nat (Z.quot offset SectorSize)) D 0%nat)).
Proof.
  intros HSS HND HS Hnd n Hfree.
  destruct (ladder SectorSize NumDirect HSS HND) as (L1 & L2 & L3).
  assert (Hn : 0 <= n) by (apply divRoundUp_nonneg; lia).
  assert (Etw : divRoundUp n NumDirect =
                divRoundUp fileSize (SingleSize SectorSize NumDirect)).
  { unfold n, SingleSize. apply divRoundUp_twice; lia. }
  pose proof (chunks_bound SectorSize NumDirect HSS HND fileSize ltac:(lia)) as Hc.
  assert (Hfree' : divRoundUp fileSize SectorSize +
                   divRoundUp fileSize (SingleSize SectorSize NumDirect)
                   <= Bitmap.NumClear freeMap) by (fold n; lia).
  destruct (Allocate_single SectorSize NumDirect HSS HND d this freeMap disk fileSize
              HS Hnd Hfree')
    as (r & C & Eloop & Erun & Hoks & HC & HD & NdH & NdD & Hdisj & Hfreed & Hlen
        & Hbits & Hcnt & Hb & Hsec & Hds & Hch & Hframe).
  exists (loopHdr r), (loopMap r), (loopDisk r), (fileSectors C).
  split; [exact Erun|]. split; [exact HD|]. split; [exact NdD|]. split.
  { intros s Hs. rewrite !Test_nat, Hbits.
    destruct (Hfreed s (or_intror Hs)) as [_ F]. split; [exact F|]. split.
    - apply existsb_In in Hs. rewrite Hs. now rewrite orb_true_r.
    - intros j Hj E.
      assert (Hjn : (Z.to_nat j < length C)%nat) by lia.
      destruct (childrenAt_nth SectorSize NumDirect _ _ _ 0%nat fileSize _ Hch Hjn)
        as [Et _].
      cbn [Nat.add] in Et. rewrite Et in E. apply Nat2Z.inj in E.
      apply (Hdisj s); [|exact Hs]. rewrite E. unfold headerSectors.
      apply in_map. now apply nth_In. }
  intros offset Hoff.
  pose proof (offset_split SectorSize NumDirect offset HSS HND ltac:(lia)) as Hsplit.
  cbv zeta in Hsplit. destruct Hsplit as (Hj0 & Hjo & Hoff' & Eq).
  rewrite <- (Z.quot_div_nonneg offset SectorSize) in Eq by lia.
  set (chunk := SingleSize SectorSize NumDirect) in *.
  set (j := offset / chunk) in *.
  set (off' := offset - j * chunk) in *.
  set (k := off' / SectorSize) in *.
  destruct (proj1 (divRoundUp_spec fileSize chunk _ ltac:(lia) L3) eq_refl) as [A B].
  assert (Hjk : j < divRoundUp fileSize chunk).
  { apply (Z.mul_lt_mono_pos_r chunk); [exact L3 | lia]. }
  assert (Hjn : (Z.to_nat j < length C)%nat) by lia.
  destruct (childrenAt_nth SectorSize NumDirect _ _ _ 0%nat fileSize _ Hch Hjn)
    as [Et (Hb' & Hsz' & Hsec' & HL' & Hds' & Hent')].
  cbn [Nat.add] in Et. rewrite Z2Nat.id in Hb', Hsz', HL' by exact Hj0.
  fold chunk in Hb', Hsz', HL'.
  set (c := nth (Z.to_nat j) C (0%nat, [])) in *.
  set (size := Z.min chunk (fileSize - j * chunk)) in *.
  assert (Hoffs : 0 <= off' < size) by (unfold size, off' in *; lia).
  pose proof (div_below_divRoundUp off' size SectorSize HSS Hoffs) as Hk. fold k in Hk.
  assert (Hkn : (Z.to_nat k < length (snd c))%nat) by lia.
  pose proof (leaf_sectors SectorSize NumDirect HSS HND size Hsz') as Hleafn.
  assert (Efull : divRoundUp chunk SectorSize = NumDirect).
  { apply divRoundUp_spec; [lia | exact HSS |]. unfold chunk, SingleSize. lia. }
  assert (Hfull : forall j', (j' < Z.to_nat j)%nat ->
                    length (snd (nth j' C (0%nat, []))) = Z.to_nat NumDirect).
  { intros j' Hj'.
    destruct (childrenAt_nth SectorSize NumDirect _ _ _ 0%nat fileSize j' Hch
                ltac:(lia)) as [_ (_ & _ & _ & HLj & _)].
    fold chunk in HLj.
    assert (Hle : (Z.of_nat j' + 1) * chunk <= j * chunk)
      by (apply Z.mul_le_mono_nonneg_r; lia).
    rewrite Z.min_l in HLj by lia. lia. }
  pose proof (nth_fileSectors (Z.to_nat NumDirect) C (Z.to_nat j) (Z.to_nat k)
                Hfull Hjn Hkn) as Enth.
  fold c in Enth.
  pose proof (div_below_divRoundUp offset fileSize SectorSize HSS Hoff) as Hq.
  rewrite <- (Z.quot_div_nonneg offset SectorSize) in Hq by lia.
  split; [fold n in HD; lia|].
  assert (Eidx : Z.to_nat (Z.quot offset SectorSize) =
                 (Z.to_nat j * Z.to_nat NumDirect + Z.to_nat k)%nat).
  { rewrite Eq.
    rewrite Z2Nat.inj_add by first [lia | apply Z.mul_nonneg_nonneg; lia].
    rewrite Z2Nat.inj_mul by lia. reflexivity. }
  rewrite Eidx.
  rewrite Enth.
  rewrite ByteToSector_unfold. cbv beta zeta. rewrite Hb.
  replace (fileSize >? TripleSize SectorSize NumDirect) with false by not_above.
  replace (fileSize >? DoubleSize SectorSize NumDirect) with false by not_above.
  fold chunk.
  replace (fileSize >? chunk) with true by (symmetry; apply Z.gtb_lt; lia).
  unfold divRoundDown. rewrite (Z.quot_div_nonneg offset chunk) by lia. fold j.
  unfold getSector at 1.
  replace ((0 <=? j) && (j <? NumDirect)) with true by in_table.
  cbn [bind]. rewrite Et. unfold FetchFrom.
  replace (Z.of_nat (fst c) <? 0) with false by (symmetry; apply Z.ltb_ge; lia).
  cbn [bind]. rewrite ByteToSector_unfold. cbv beta zeta. rewrite Hb'.
  replace (size >? TripleSize SectorSize NumDirect) with false by not_above.
  replace (size >? DoubleSize SectorSize NumDirect) with false by not_above.
  fold chunk.
  replace (size >? chunk) with false by not_above.
  fold off'. rewrite (Z.quot_div_nonneg off' SectorSize) by lia. fold k.
  unfold getSector.
  replace ((0 <=? k) && (k <? NumDirect)) with true by in_table.
  rewrite (Hent' (Z.to_nat k) Hkn). reflexivity.
Qed.

(** X29, witness: 4000 bytes on a pool of 64 free sectors; the last byte
    lies in the sector at position 31 of the file. *)
Lemma ByteToSector_single_band_coverage_witness :
  exists hdr freeMap1 disk1 D,
    Allocate NachosSectorSize NachosNumDirect 2 (newFileHeader NachosNumDirect)
             (freePool 64) blankDisk 4000 = Done (true, hdr, freeMap1, disk1) /\
    length D = 32%nat /\
    ByteToSector NachosSectorSize NachosNumDirect 2 disk1 hdr 3999 =
      Done (Z.of_nat (nth 31 D 0%nat)).
Proof.
  destruct (ByteToSector_single_band_coverage NachosSectorSize
              NachosNumDirect 0 (newFileHeader NachosNumDirect) (freePool 64)
              blankDisk 4000)
    as (hdr & freeMap1 & disk1 & D & Erun & HD & _ & _ & Hoff).
  - reflexivity.
  - reflexivity.
  - vm_compute. split; [reflexivity | discriminate].
  - reflexivity.
  - vm_compute. discriminate.
  - exists hdr, freeMap1, disk1, D. split; [exact Erun|].
    split; [apply Nat2Z.inj; exact HD|].
    apply (Hoff 3999). split; [discriminate | reflexivity].
Defined.

(** *** Above [DoubleSize] *)

(** A loop of [Deallocate] over child headers whose bound lies beyond the
    table does not return: it stops before, or reads an entry outside the
    table. *)
Lemma DeallocateChildren_overrun (NumDirect : Z)
    (dealloc : FileHeader -> Bitmap.t -> Outcome Bitmap.t) (disk : Disk) (n : nat) :
  forall (i : Z) (this : FileHeader) (m m' : Bitmap.t),
  0 <= i <= NumDirect -> NumDirect < i + Z.of_nat n ->
  DeallocateChildren NumDirect dealloc disk n i this m <> Done m'.
Proof.
  induction n as [|n IH]; intros i this m m' Hi Hn; [lia|].
  cbn [DeallocateChildren]. unfold getSector.
  destruct ((0 <=? i) && (i <? NumDirect)) eqn:E; cbn [bind]; [|discriminate].
  apply andb_true_iff in E as [_ E]. apply Z.ltb_lt in E.
  destruct (FetchFrom disk _) as [hdr| |]; cbn [bind]; try discriminate.
  destruct (dealloc hdr m) as [m1| |]; cbn [bind]; try discriminate.
  apply IH; lia.
Qed.

(** X30: a file of more than [DoubleSize] bytes cannot be given back.
    Whenever [Allocate] returns for such a size, the header it leaves has a
    sector count whose quotient by [NumDirect], rounded up, exceeds
    [NumDirect]: the loop of [Deallocate], bounded by that quotient, runs
    past the [NumDirect] entries of [dataSectors], and no call of
    [Deallocate] on that header returns, whatever the pool and the disk. *)
Theorem Deallocate_overruns_above_DoubleSize (SectorSize NumDirect : Z)
    (depth : nat) (this : FileHeader) (freeMap : Bitmap.t) (disk : Disk)
    (fileSize : Z) (ok : bool) (hdr : FileHeader) (freeMap' : Bitmap.t)
    (disk' : Disk) :
  0 < SectorSize -> 0 < NumDirect ->
  DoubleSize SectorSize NumDirect < fileSize ->
  Allocate SectorSize NumDirect depth this freeMap disk fileSize =
    Done (ok, hdr, freeMap', disk') ->
  NumDirect < divRoundUp (numSectors hdr) NumDirect /\
  forall (depth' : nat) (disk2 : Disk) (freeMap2 freeMap3 : Bitmap.t),
    Deallocate SectorSize NumDirect depth' disk2 hdr freeMap2 <> Done freeMap3.
Proof.
  intros HSS HND HS Hrun.
  destruct (ladder SectorSize NumDirect HSS HND) as (L1 & L2 & L3).
  destruct (Allocate_header SectorSize NumDirect depth _ _ _ _ _ _ _ _ Hrun)
    as (Hb & Hsec & _).
  assert (Hn : NumDirect * NumDirect < numSectors hdr).
  { rewrite Hsec.
    destruct (proj1 (divRoundUp_spec fileSize SectorSize _ ltac:(lia) HSS) eq_refl)
      as [A B].
    unfold DoubleSize, SingleSize in HS. nia. }
  assert (Hk : NumDirect < divRoundUp (numSectors hdr) NumDirect).
  { destruct (proj1 (divRoundUp_spec (numSectors hdr) NumDirect _ ltac:(nia) HND)
                eq_refl) as [A B].
    nia. }
  split; [exact Hk|].
  intros [|depth'] disk2 freeMap2 freeMap3; [discriminate|].
  cbn [Deallocate]. rewrite Hb.
  replace (fileSize >? SingleSize SectorSize NumDirect) with true
    by (symmetry; apply Z.gtb_lt; lia).
  cbv zeta. apply DeallocateChildren_overrun; lia.
Qed.

(** X30, witness: 115201 bytes, one more than [DoubleSize], on a pool of
    1024 free sectors: [Allocate] returns TRUE, the bound of the loop of
    [Deallocate] is 31 for a table of 30 entries. *)
Lemma Deallocate_overruns_above_DoubleSize_witness :
  exists hdr freeMap' disk',
    Allocate NachosSectorSize NachosNumDirect 4 (newFileHeader NachosNumDirect)
             (freePool 1024) blankDisk 115201 = Done (true, hdr, freeMap', disk') /\
    NachosNumDirect < divRoundUp (numSectors hdr) NachosNumDirect /\
    Deallocate NachosSectorSize NachosNumDirect 4 disk' hdr freeMap' <>
      Done (freePool 1024).
Proof.
  assert (E : exists hdr freeMap' disk',
            Allocate NachosSectorSize NachosNumDirect 4 (newFileHeader NachosNumDirect)
              (freePool 1024) blankDisk 115201 = Done (true, hdr, freeMap', disk'))
    by (do 3 eexists; vm_compute; reflexivity).
  destruct E as (hdr & freeMap' & disk' & E).
  exists hdr, freeMap', disk'. split; [exact E|].
  assert (HS : DoubleSize NachosSectorSize NachosNumDirect < 115201) by reflexivity.
  destruct (Deallocate_overruns_above_DoubleSize NachosSectorSize NachosNumDirect
              _ _ _ _ _ _ _ _ _ eq_refl eq_refl HS E) as [B N].
  split; [exact B | apply N].
Defined.


(** ** The scheduler *)

(** *** Admission *)

Lemma admitted_thread (s : State) (thread : ThreadRef) :
  threads (admitted s thread) thread = readied (totalTicks s) (threads s thread).
Proof.
  unfold admitted, setWaitTime, setStatus, store, readied. cbn.
  rewrite ?Nat.eqb_refl. cbn. rewrite ?Nat.eqb_refl. reflexivity.
Qed.

Lemma admitted_other (s : State) (thread r : ThreadRef) :
  r <> thread -> threads (admitted s thread) r = threads s r.
Proof.
  intros Hr. unfold admitted, setWaitTime, setStatus, store. cbn.
  apply Nat.eqb_neq in Hr. rewrite Hr. reflexivity.
Qed.

Lemma admitted_current (s : State) (thread : ThreadRef) :
  ID (threads s thread) <> ID (threads s (currentThread s)) ->
  threads (admitted s thread) (currentThread s) = threads s (currentThread s).
Proof.
  intros Hid. apply admitted_other. intros E. rewrite E in Hid. congruence.
Qed.

(** What [ReadyToRun] does to everything but the preemption request: the
    thread object is written, and the thread joins the queue of its band. *)
Lemma ReadyToRun_effect (s : State) (thread : ThreadRef) :
  level s = IntOff ->
  exists s', ReadyToRun s thread = Done s' /\
    threads s' = threads (admitted s thread) /\
    level s' = level s /\ totalTicks s' = totalTicks s /\
    currentThread s' = currentThread s /\ toBeDestroyed s' = toBeDestroyed s /\
    (preempts s <= preempts s')%nat /\
    let p := priority (threads s thread) in
    if p <? 50 then
      L1Q_ s' = L1Q_ s /\ L2Q_ s' = L2Q_ s /\ L3Q_ s' = Append (L3Q_ s) thread /\
      preempts s' = preempts s
    else if p <? 100 then
      L1Q_ s' = L1Q_ s /\ L3Q_ s' = L3Q_ s /\
      L2Q_ s' = Insert (cmpPriority (admitted s thread)) (L2Q_ s) thread
    else
      L2Q_ s' = L2Q_ s /\ L3Q_ s' = L3Q_ s /\
      L1Q_ s' = Insert (cmpBurstTime (admitted s thread)) (L1Q_ s) thread.
Proof.
  intros Hoff.
  assert (E : priority (threads (setStatus s thread READY) thread) = priority (threads s thread)).
  { unfold setStatus, store; simpl. rewrite Nat.eqb_refl. reflexivity. }
  unfold ReadyToRun. rewrite Hoff. cbn [isIntOff ASSERT bind].
  rewrite E.
  change (setWaitTime (setStatus s thread READY) thread (totalTicks (setStatus s thread READY)))
    with (admitted s thread).
  cbv zeta.
  destruct (priority (threads s thread) <? 50) eqn:E1.
  { eexists; split; [reflexivity|]. cbn. repeat split; auto. }
  destruct (priority (threads s thread) <? 100) eqn:E2.
  { match goal with |- context [if ?b then Done (Preempt ?x) else Done ?y] =>
      destruct b end;
    (eexists; split; [reflexivity|]; cbn; repeat split; auto). }
  match goal with |- context [if ?b then _ else Done ?y] => destruct b end.
  2: { eexists; split; [reflexivity|]; cbn; repeat split; auto. }
  match goal with |- context [if ?b then _ else Done (Preempt ?y)] => destruct b end.
  2: { eexists; split; [reflexivity|]; cbn; repeat split; auto. }
  match goal with |- context [if ?b then Done (Preempt ?y) else _] => destruct b end;
    (eexists; split; [reflexivity|]; cbn; repeat split; auto).
Qed.

(** *** Queue operations *)

Lemma queued_In (t : ThreadRef) (q : list ThreadRef) :
  queued t q = true <-> In t q.
Proof.
  unfold queued. rewrite existsb_exists. split.
  - intros (x & Hx & E). apply Nat.eqb_eq in E. now subst.
  - intros H. exists t. split; [assumption | apply Nat.eqb_refl].
Qed.

Lemma In_Insert (c : ThreadRef -> ThreadRef -> Z) (q : list ThreadRef)
    (t x : ThreadRef) :
  In x (Insert c q t) <-> x = t \/ In x q.
Proof.
  induction q as [|y q IH]; cbn.
  - intuition.
  - destruct (c t y <? 0); cbn; [intuition|]. rewrite IH. intuition.
Qed.

Lemma In_Append (q : list ThreadRef) (t x : ThreadRef) :
  In x (Append q t) <-> x = t \/ In x q.
Proof. unfold Append. rewrite in_app_iff. cbn. intuition. Qed.

Lemma In_Remove (q : list ThreadRef) (t x : ThreadRef) :
  In x (Remove q t) -> In x q.
Proof.
  induction q as [|y q IH]; cbn; [tauto|].
  destruct (Nat.eqb y t); cbn; intuition.
Qed.

Lemma In_Remove_other (q : list ThreadRef) (t x : ThreadRef) :
  x <> t -> In x q -> In x (Remove q t).
Proof.
  intros Hx. induction q as [|y q IH]; cbn; [tauto|].
  destruct (Nat.eqb y t) eqn:E; cbn.
  - apply Nat.eqb_eq in E. subst y. intros [H|H]; [congruence|assumption].
  - intuition.
Qed.

Lemma NoDup_Remove (q : list ThreadRef) (t : ThreadRef) :
  NoDup q -> NoDup (Remove q t) /\ ~ In t (Remove q t).
Proof.
  induction 1 as [|y q Hy Hq IH]; cbn.
  - split; [constructor | tauto].
  - destruct (Nat.eqb y t) eqn:E.
    + apply Nat.eqb_eq in E. subst y. split; assumption.
    + apply Nat.eqb_neq in E. destruct IH as [IH1 IH2]. split.
      * constructor; [|assumption]. intros H. apply Hy. eapply In_Remove; eassumption.
      * cbn. intros [H|H]; [congruence | contradiction].
Qed.

Lemma NoDup_Insert (c : ThreadRef -> ThreadRef -> Z) (q : list ThreadRef)
    (t : ThreadRef) :
  NoDup q -> ~ In t q -> NoDup (Insert c q t).
Proof.
  induction 1 as [|y q Hy Hq IH]; cbn; intros Ht.
  - constructor; [tauto | constructor].
  - destruct (c t y <? 0).
    + constructor; [exact Ht | constructor; assumption].
    + constructor.
      * rewrite In_Insert. intros [H|H]; [subst; apply Ht; now left | contradiction].
      * apply IH. intros H. apply Ht. now right.
Qed.

(** X4: with interrupts off, [ReadyToRun] returns; the thread is READY,
    waits since the current tick, keeps its priority and sits in the queue
    of its band (L3 below 50, L2 below 100, L1 from 100 on); an admission
    into L3 requests no preemption. *)
Theorem ReadyToRun_band (s : State) (thread : ThreadRef) :
  level s = IntOff ->
  exists s', ReadyToRun s thread = Done s' /\
    status (threads s' thread) = READY /\
    waitTime (threads s' thread) = totalTicks s /\
    priority (threads s' thread) = priority (threads s thread) /\
    In thread (bandQueue s' (priority (threads s thread))) /\
    (priority (threads s thread) < 50 -> preempts s' = preempts s).
Proof.
  intros Hoff.
  destruct (ReadyToRun_effect s thread Hoff) as (s' & Hrun & Hth & _ & _ & _ & _ & _ & Hq).
  exists s'. split; [exact Hrun|]. rewrite Hth, admitted_thread.
  split; [reflexivity|]. split; [reflexivity|]. split; [reflexivity|].
  cbv zeta in Hq. unfold bandQueue.
  destruct (priority (threads s thread) <? 50) eqn:E1.
  - destruct Hq as (_ & _ & Q3 & P). split; [|intros _; exact P].
    rewrite Q3. apply in_or_app. right. now left.
  - apply Z.ltb_ge in E1.
    destruct (priority (threads s thread) <? 100); destruct Hq as (_ & _ & Q);
      (split; [rewrite Q; apply In_Insert; now left | lia]).
Qed.

(** X4, witness: the priorities 110, 60 and 10 of the threads 1, 2 and 3
    lead to L1, L2 and L3. *)
Lemma ReadyToRun_band_witness :
  level srtfState = IntOff /\
  (exists s', ReadyToRun srtfState 1%nat = Done s' /\ In 1%nat (L1Q_ s')) /\
  (exists s', ReadyToRun srtfState 2%nat = Done s' /\ In 2%nat (L2Q_ s')) /\
  (exists s', ReadyToRun srtfState 3%nat = Done s' /\ In 3%nat (L3Q_ s')).
Proof.
  split; [reflexivity|]. split; [|split].
  - destruct (ReadyToRun_band srtfState 1%nat eq_refl) as (s' & Hrun & _ & _ & _ & B & _).
    exists s'. split; [exact Hrun | exact B].
  - destruct (ReadyToRun_band srtfState 2%nat eq_refl) as (s' & Hrun & _ & _ & _ & B & _).
    exists s'. split; [exact Hrun | exact B].
  - destruct (ReadyToRun_band srtfState 3%nat eq_refl) as (s' & Hrun & _ & _ & _ & B & _).
    exists s'. split; [exact Hrun | exact B].
Defined.

(** *** One step of the scan of L2 *)

Lemma waitedLong_reset (ticks : Z) (th : Thread) :
  waitTime th = ticks -> waitedLong ticks th = false.
Proof. intros E. unfold waitedLong. rewrite E, Z.gtb_ltb. apply Z.ltb_ge. lia. Qed.

Lemma AgingL2_cons (ticks : Z) (a : ThreadRef) (l : list ThreadRef) (s : State) :
  AgingL2 ticks (a :: l) s =
  if waitedLong ticks (threads s a)
  then s' <- ReadyToRun (dequeuedL2 ticks s a) a ;; Done (s', OnFreedCell)
  else AgingL2 ticks l s.
Proof. reflexivity. Qed.

Lemma dequeuedL2_thread (ticks : Z) (s : State) (a r : ThreadRef) :
  threads (dequeuedL2 ticks s a) r =
  if Nat.eqb r a then promote ticks (threads s a) else threads s r.
Proof.
  unfold dequeuedL2, setWaitTime, setPriority, setL2, store, promote. cbn.
  destruct (Nat.eqb r a) eqn:E; [|reflexivity].
  rewrite ?Nat.eqb_refl. cbn. rewrite ?Nat.eqb_refl. reflexivity.
Qed.

Lemma L2_step (ticks : Z) (s : State) (a : ThreadRef) :
  level s = IntOff -> totalTicks s = ticks ->
  exists s', ReadyToRun (dequeuedL2 ticks s a) a = Done s' /\
    level s' = IntOff /\ totalTicks s' = ticks /\
    (forall r, threads s' r =
               if Nat.eqb r a then readied ticks (promote ticks (threads s a))
               else threads s r) /\
    (forall x, x <> a ->
       (In x (L1Q_ s) <-> In x (L1Q_ s')) /\
       (In x (L2Q_ s) <-> In x (L2Q_ s')) /\
       (In x (L3Q_ s) <-> In x (L3Q_ s'))) /\
    In a (bandQueue s' (priority (threads s' a))) /\
    (NoDup (L2Q_ s) ->
       NoDup (L2Q_ s') /\ (100 <= priority (threads s' a) -> ~ In a (L2Q_ s'))).
Proof.
  intros Hoff Hticks.
  destruct (ReadyToRun_effect (dequeuedL2 ticks s a) a Hoff)
    as (s' & Hrun & Hth & Hlev & Htk & _ & _ & _ & Hq).
  exists s'. split; [exact Hrun|].
  change (level (dequeuedL2 ticks s a)) with (level s) in Hlev.
  change (totalTicks (dequeuedL2 ticks s a)) with (totalTicks s) in Htk.
  assert (Hthr : forall r, threads s' r =
               if Nat.eqb r a then readied ticks (promote ticks (threads s a))
               else threads s r).
  { intros r. rewrite Hth. destruct (Nat.eqb r a) eqn:E.
    - apply Nat.eqb_eq in E. subst r. rewrite admitted_thread.
      rewrite dequeuedL2_thread, Nat.eqb_refl.
      change (totalTicks (dequeuedL2 ticks s a)) with (totalTicks s).
      now rewrite Hticks.
    - rewrite admitted_other by (now apply Nat.eqb_neq).
      rewrite dequeuedL2_thread, E. reflexivity. }
  assert (Hpa : priority (threads s' a) = Z.min (priority (threads s a) + 10) 149).
  { rewrite Hthr, Nat.eqb_refl. reflexivity. }
  cbv zeta in Hq. rewrite dequeuedL2_thread, Nat.eqb_refl in Hq.
  change (priority (promote ticks (threads s a)))
    with (Z.min (priority (threads s a) + 10) 149) in Hq.
  rewrite <- Hpa in Hq.
  change (L1Q_ (dequeuedL2 ticks s a)) with (L1Q_ s) in Hq.
  change (L3Q_ (dequeuedL2 ticks s a)) with (L3Q_ s) in Hq.
  change (L2Q_ (dequeuedL2 ticks s a)) with (Remove (L2Q_ s) a) in Hq.
  split; [congruence|]. split; [congruence|]. split; [exact Hthr|].
  split; [|split].
  - intros x Hx.
    assert (R : In x (L2Q_ s) <-> In x (Remove (L2Q_ s) a)).
    { split; [now apply In_Remove_other | apply In_Remove]. }
    destruct (priority (threads s' a) <? 50);
      [destruct Hq as (Q1 & Q2 & Q3 & _)
      |destruct (priority (threads s' a) <? 100); destruct Hq as (Q1 & Q2 & Q3)];
      rewrite Q1, Q2, Q3; rewrite ?In_Insert, ?In_Append; intuition.
  - unfold bandQueue.
    destruct (priority (threads s' a) <? 50);
      [destruct Hq as (Q1 & Q2 & Q3 & _)
      |destruct (priority (threads s' a) <? 100); destruct Hq as (Q1 & Q2 & Q3)];
      rewrite Q3; rewrite ?In_Insert, ?In_Append; now left.
  - intros Hnd. destruct (NoDup_Remove (L2Q_ s) a Hnd) as [N1 N2].
    destruct (priority (threads s' a) <? 50) eqn:E1;
      [destruct Hq as (Q1 & Q2 & Q3 & _)
      |destruct (priority (threads s' a) <? 100) eqn:E2; destruct Hq as (Q1 & Q2 & Q3)].
    + rewrite Q2. split; [assumption|]. intros _. assumption.
    + rewrite Q3. split; [now apply NoDup_Insert|].
      apply Z.ltb_lt in E2. lia.
    + rewrite Q1. split; [assumption|]. intros _. assumption.
Qed.

(** *** The two scans *)

Lemma AgingL1_effect (ticks : Z) (l : list ThreadRef) :
  forall s : State,
  let s1 := AgingL1 ticks l s in
  L1Q_ s1 = L1Q_ s /\ L2Q_ s1 = L2Q_ s /\ L3Q_ s1 = L3Q_ s /\
  level s1 = level s /\ totalTicks s1 = totalTicks s /\
  preempts s1 = preempts s /\ currentThread s1 = currentThread s /\
  toBeDestroyed s1 = toBeDestroyed s /\
  forall r, threads s1 r =
            if queued r l && waitedLong ticks (threads s r)
            then promote ticks (threads s r) else threads s r.
Proof.
  induction l as [|a l IH]; intros s; cbn zeta.
  - cbn. repeat (split; [reflexivity|]). reflexivity.
  - cbn [AgingL1]. destruct (waitedLong ticks (threads s a)) eqn:Ea.
    + set (s2 := setWaitTime _ a ticks).
      assert (Hs2 : forall r, threads s2 r =
                if Nat.eqb r a then promote ticks (threads s a) else threads s r).
      { intros r. unfold s2, setWaitTime, setPriority, store, promote. cbn.
        destruct (Nat.eqb r a) eqn:E; [|reflexivity].
        rewrite ?Nat.eqb_refl. cbn. rewrite ?Nat.eqb_refl. reflexivity. }
      destruct (IH s2) as (Q1 & Q2 & Q3 & Lv & Tk & Pr & Cu & Tb & Th).
      repeat (split; [assumption|]).
      intros r. rewrite Th, Hs2. unfold queued. cbn [existsb].
      destruct (Nat.eqb r a) eqn:E.
      * apply Nat.eqb_eq in E. subst r. rewrite Ea.
        rewrite (waitedLong_reset ticks (promote ticks (threads s a))) by reflexivity.
        rewrite andb_false_r. reflexivity.
      * reflexivity.
    + destruct (IH s) as (Q1 & Q2 & Q3 & Lv & Tk & Pr & Cu & Tb & Th).
      repeat (split; [assumption|]).
      intros r. rewrite Th. unfold queued. cbn [existsb].
      destruct (Nat.eqb r a) eqn:E; [|reflexivity].
      apply Nat.eqb_eq in E. subst r. rewrite Ea, !andb_false_r. reflexivity.
Qed.

(** *** Burst estimates *)

Lemma double_to_int_estimate (a b : Z) :
  double_to_int (estimate a b) = Z.quot (a + b) 2.
Proof.
  unfold double_to_int, estimate, Qplus, Qmult, inject_Z. cbn [Qnum Qden Pos.mul].
  rewrite !Z.mul_1_l.
  replace (a * 2 + b * 2) with (2 * (a + b)) by ring.
  change 4 with (2 * 2).
  apply Z.quot_mul_cancel_l; lia.
Qed.

Lemma estimate_gt (a b c : Z) :
  (estimate a b < inject_Z c)%Q <-> a + b < 2 * c.
Proof.
  unfold Qlt, estimate, Qplus, Qmult, inject_Z. cbn [Qnum Qden Pos.mul]. lia.
Qed.

Lemma quot2_le (x c : Z) : x < 2 * c -> Z.quot x 2 <= c.
Proof.
  intros H. pose proof (Z.quot_rem' x 2) as E.
  destruct (Z_lt_le_dec x 0) as [Hx|Hx].
  - pose proof (Z.rem_bound_pos_neg x 2 ltac:(lia) ltac:(lia)). lia.
  - pose proof (Z.rem_bound_pos x 2 Hx ltac:(lia)). lia.
Qed.

(** *** Admission into L1 *)

Lemma ReadyToRun_L1 (s : State) (thread : ThreadRef) :
  level s = IntOff ->
  100 <= priority (threads s thread) ->
  ID (threads s thread) <> ID (threads s (currentThread s)) ->
  ID (threads s (currentThread s)) <> 0 ->
  let cur := threads s (currentThread s) in
  let q := setL1 (admitted s thread)
                 (Insert (cmpBurstTime (admitted s thread)) (L1Q_ s) thread) in
  ReadyToRun s thread =
  Done (if priority cur >=? 100 then
          if burstTime (threads s thread)
             <? double_to_int (estimate (burstTime cur) (totalTicks s - burstStart cur))
          then Preempt q else q
        else Preempt q).
Proof.
  intros Hoff Hp Hid Hidle cur q.
  pose proof (admitted_current s thread Hid) as Hc.
  pose proof (admitted_thread s thread) as Ht.
  assert (E : priority (threads (setStatus s thread READY) thread) = priority (threads s thread)).
  { unfold setStatus, store; simpl. rewrite Nat.eqb_refl. reflexivity. }
  unfold ReadyToRun. rewrite Hoff. cbn [isIntOff ASSERT bind].
  rewrite E.
  destruct (priority (threads s thread) <? 50) eqn:E1; [apply Z.ltb_lt in E1; lia|].
  destruct (priority (threads s thread) <? 100) eqn:E2; [apply Z.ltb_lt in E2; lia|].
  change (setWaitTime (setStatus s thread READY) thread (totalTicks (setStatus s thread READY)))
    with (admitted s thread).
  change (threads (setL1 (admitted s thread) ?x)) with (threads (admitted s thread)).
  change (currentThread (setL1 (admitted s thread) ?x)) with (currentThread s).
  change (L1Q_ (admitted s thread)) with (L1Q_ s).
  change (totalTicks (setStatus s thread READY)) with (totalTicks s).
  rewrite Hc, Ht. cbn [ID burstTime readied]. fold cur. fold q.
  replace (ID (threads s thread) =? ID cur) with false by (symmetry; apply Z.eqb_neq; exact Hid).
  replace (ID cur =? 0) with false by (symmetry; apply Z.eqb_neq; exact Hidle).
  cbn [negb andb].
  destruct (priority cur >=? 100); [|reflexivity].
  destruct (burstTime (threads s thread) <? _); reflexivity.
Qed.

(** C6 (as amended): a thread admitted into L1, distinct from the running
    thread, while the running thread is not the idle thread (ID 0) and is
    itself in the L1 band.  [ReadyToRun] returns, and it requests a
    preemption exactly when the admitted thread's burst estimate is strictly
    smaller than the running thread's remaining estimate
    [0.5 * lastEstimate + 0.5 * (now - burstStart)] truncated to an [int];
    it requests none when the admitted estimate is larger than the
    (untruncated) remaining estimate. *)
Theorem ReadyToRun_L1_srtf_truncated (s : State) (thread : ThreadRef) :
  level s = IntOff ->
  100 <= priority (threads s thread) ->
  ID (threads s thread) <> ID (threads s (currentThread s)) ->
  ID (threads s (currentThread s)) <> 0 ->
  100 <= priority (threads s (currentThread s)) ->
  let cur := threads s (currentThread s) in
  let remaining := estimate (burstTime cur) (totalTicks s - burstStart cur) in
  exists s', ReadyToRun s thread = Done s' /\
    In thread (L1Q_ s') /\
    (preempts s' = S (preempts s) <->
     burstTime (threads s thread) < double_to_int remaining) /\
    (preempts s' = preempts s <->
     double_to_int remaining <= burstTime (threads s thread)) /\
    ((remaining < inject_Z (burstTime (threads s thread)))%Q ->
     preempts s' = preempts s).
Proof.
  intros Hoff Hp Hid Hidle Hcur cur remaining.
  rewrite (ReadyToRun_L1 s thread Hoff Hp Hid Hidle). fold cur. fold remaining.
  replace (priority cur >=? 100) with true
    by (symmetry; rewrite Z.geb_leb; apply Z.leb_le; exact Hcur).
  assert (Hgt : (remaining < inject_Z (burstTime (threads s thread)))%Q ->
                double_to_int remaining <= burstTime (threads s thread)).
  { unfold remaining. rewrite estimate_gt, double_to_int_estimate. apply quot2_le. }
  destruct (burstTime (threads s thread) <? double_to_int remaining) eqn:E;
    [apply Z.ltb_lt in E | apply Z.ltb_ge in E];
    (eexists; split; [reflexivity|]);
    cbn [preempts Preempt setL1 L1Q_ admitted setWaitTime setStatus store];
    (split; [apply In_Insert; now left|]); repeat split; intros;
    try lia; specialize (Hgt ltac:(assumption)); lia.
Qed.

(** C6, witness: thread 1 (estimate 2) admitted at tick 2 while thread 0
    (estimate 3, burst started at tick 0) runs. *)
Lemma ReadyToRun_L1_srtf_truncated_witness :
  level srtfState = IntOff /\
  100 <= priority (threads srtfState 1%nat) /\
  ID (threads srtfState 1%nat) <> ID (threads srtfState (currentThread srtfState)) /\
  ID (threads srtfState (currentThread srtfState)) <> 0 /\
  100 <= priority (threads srtfState (currentThread srtfState)) /\
  exists s', ReadyToRun srtfState 1%nat = Done s' /\
    (preempts s' = preempts srtfState <-> double_to_int (estimate 3 (2 - 0)) <= 2).
Proof.
  assert (H1 : level srtfState = IntOff) by reflexivity.
  assert (H2 : 100 <= priority (threads srtfState 1%nat)) by (cbn; lia).
  assert (H3 : ID (threads srtfState 1%nat) <> ID (threads srtfState (currentThread srtfState)))
    by (cbn; lia).
  assert (H4 : ID (threads srtfState (currentThread srtfState)) <> 0) by (cbn; lia).
  assert (H5 : 100 <= priority (threads srtfState (currentThread srtfState))) by (cbn; lia).
  repeat (split; [assumption|]).
  destruct (ReadyToRun_L1_srtf_truncated srtfState 1%nat H1 H2 H3 H4 H5)
    as (s' & Hrun & _ & _ & Hsame & _).
  exists s'. split; [exact Hrun | exact Hsame].
Defined.

(** C6, counterexample to the claim as stated: at tick 2 the running L1
    thread has last estimate 3 and started its burst at tick 0, so its
    remaining estimate is [0.5 * 3 + 0.5 * 2 = 2.5]; the admitted L1 thread
    has estimate 2, strictly smaller, and yet no preemption is requested. *)
Lemma ReadyToRun_L1_srtf_half_tick :
  level srtfState = IntOff /\
  100 <= priority (threads srtfState 1%nat) /\
  ID (threads srtfState 1%nat) <> ID (threads srtfState (currentThread srtfState)) /\
  ID (threads srtfState (currentThread srtfState)) <> 0 /\
  100 <= priority (threads srtfState (currentThread srtfState)) /\
  (inject_Z (burstTime (threads srtfState 1%nat))
   < estimate (burstTime (threads srtfState (currentThread srtfState)))
              (totalTicks srtfState
               - burstStart (threads srtfState (currentThread srtfState))))%Q /\
  exists s', ReadyToRun srtfState 1%nat = Done s' /\
             preempts s' = preempts srtfState.
Proof.
  repeat split; try (cbn; lia); try reflexivity.
  eexists. split; reflexivity.
Qed.

(** C10: a thread admitted into L1, distinct from the running thread, while
    the running thread is not the idle thread (ID 0) and has a priority
    below 100 (L2 band or L3 band alike).  [ReadyToRun] returns and has
    requested a preemption, whatever the burst estimates. *)
Theorem ReadyToRun_L1_preempts_lower_band (s : State) (thread : ThreadRef) :
  level s = IntOff ->
  100 <= priority (threads s thread) ->
  ID (threads s thread) <> ID (threads s (currentThread s)) ->
  ID (threads s (currentThread s)) <> 0 ->
  priority (threads s (currentThread s)) < 100 ->
  exists s', ReadyToRun s thread = Done s' /\
             In thread (L1Q_ s') /\
             preempts s' = S (preempts s).
Proof.
  intros Hoff Hp Hid Hidle Hcur.
  rewrite (ReadyToRun_L1 s thread Hoff Hp Hid Hidle).
  replace (priority (threads s (currentThread s)) >=? 100) with false
    by (symmetry; rewrite Z.geb_leb; apply Z.leb_gt; exact Hcur).
  eexists; split; [reflexivity|]. split; [|reflexivity].
  cbn [Preempt L1Q_ setL1]. apply In_Insert. now left.
Qed.

(** C10, witness: thread 1 (priority 110, estimate 2) admitted while the
    L3 thread 3 (priority 10, estimate 5) runs. *)
Lemma ReadyToRun_L1_preempts_lower_band_witness :
  level lowState = IntOff /\
  100 <= priority (threads lowState 1%nat) /\
  ID (threads lowState 1%nat) <> ID (threads lowState (currentThread lowState)) /\
  ID (threads lowState (currentThread lowState)) <> 0 /\
  priority (threads lowState (currentThread lowState)) < 50 /\
  exists s', ReadyToRun lowState 1%nat = Done s' /\ preempts s' = 1%nat.
Proof.
  assert (H1 : level lowState = IntOff) by reflexivity.
  assert (H2 : 100 <= priority (threads lowState 1%nat)) by (cbn; lia).
  assert (H3 : ID (threads lowState 1%nat) <> ID (threads lowState (currentThread lowState)))
    by (cbn; lia).
  assert (H4 : ID (threads lowState (currentThread lowState)) <> 0) by (cbn; lia).
  assert (H5 : priority (threads lowState (currentThread lowState)) < 50) by (cbn; lia).
  repeat (split; [assumption|]).
  destruct (ReadyToRun_L1_preempts_lower_band lowState 1%nat H1 H2 H3 H4 ltac:(lia))
    as (s' & Hrun & _ & Hpre).
  exists s'. split; [exact Hrun | exact Hpre].
Defined.

(** *** Selection and dispatch *)

(** C7: with interrupts off, [FindNextToRun] returns.  If L1 is not empty
    it returns the head of L1, and afterwards L1 is its tail and L2 and L3
    are what they were; otherwise, if L2 is not empty, it returns the head
    of L2, and afterwards L2 is its tail and L1 and L3 are what they were;
    otherwise, if L3 is not empty, it returns the head of L3, and
    afterwards L3 is its tail; otherwise it returns no thread and the
    state, with its three empty queues, is what it was.  Nothing but the
    queue served is changed: the thread objects, the running thread, the
    thread awaiting destruction, the clock, the interrupt level and the
    preemption requests are those of before. *)
Theorem FindNextToRun_strict_priority (s : State) :
  level s = IntOff ->
  exists ret s', FindNextToRun s = Done (ret, s') /\
    threads s' = threads s /\ toBeDestroyed s' = toBeDestroyed s /\
    currentThread s' = currentThread s /\ totalTicks s' = totalTicks s /\
    level s' = level s /\ preempts s' = preempts s /\
    (forall t q, L1Q_ s = t :: q ->
       ret = Some t /\ L1Q_ s' = q /\ L2Q_ s' = L2Q_ s /\ L3Q_ s' = L3Q_ s) /\
    (forall t q, L1Q_ s = [] -> L2Q_ s = t :: q ->
       ret = Some t /\ L1Q_ s' = [] /\ L2Q_ s' = q /\ L3Q_ s' = L3Q_ s) /\
    (forall t q, L1Q_ s = [] -> L2Q_ s = [] -> L3Q_ s = t :: q ->
       ret = Some t /\ L1Q_ s' = [] /\ L2Q_ s' = [] /\ L3Q_ s' = q) /\
    (L1Q_ s = [] -> L2Q_ s = [] -> L3Q_ s = [] ->
       ret = None /\ s' = s).
Proof.
  intros Hoff. unfold FindNextToRun. rewrite Hoff. cbn [isIntOff ASSERT bind].
  destruct (L1Q_ s) as [|t1 q1] eqn:E1; cbn [IsEmpty negb RemoveFront bind].
  2: { exists (Some t1), (setL1 s q1). split; [reflexivity|].
       cbn [setL1 threads toBeDestroyed currentThread totalTicks level preempts
            L1Q_ L2Q_ L3Q_].
       do 6 (split; [first [reflexivity | exact Hoff]|]).
       split; [intros t q [= <- <-]; now repeat split|].
       split; [intros t q [=]|]. split; [intros t q [=] | intros [=]]. }
  destruct (L2Q_ s) as [|t2 q2] eqn:E2; cbn [IsEmpty negb RemoveFront bind].
  2: { exists (Some t2), (setL2 s q2). split; [reflexivity|].
       cbn [setL2 threads toBeDestroyed currentThread totalTicks level preempts
            L1Q_ L2Q_ L3Q_].
       do 6 (split; [first [reflexivity | exact Hoff]|]).
       split; [intros t q [=]|].
       split; [intros t q _ [= <- <-]; now repeat split|].
       split; [intros t q _ [=] | intros _ [=]]. }
  destruct (L3Q_ s) as [|t3 q3] eqn:E3; cbn [IsEmpty negb RemoveFront bind].
  2: { exists (Some t3), (setL3 s q3). split; [reflexivity|].
       cbn [setL3 threads toBeDestroyed currentThread totalTicks level preempts
            L1Q_ L2Q_ L3Q_].
       do 6 (split; [first [reflexivity | exact Hoff]|]).
       split; [intros t q [=]|]. split; [intros t q _ [=]|].
       split; [intros t q _ _ [= <- <-]; now repeat split | intros _ _ [=]]. }
  exists None, s. split; [reflexivity|]. do 6 (split; [first [reflexivity | exact Hoff]|]).
  split; [intros t q [=]|]. split; [intros t q _ [=]|].
  split; [intros t q _ _ [=]|]. intros _ _ _. now repeat split.
Qed.

(** C7, witness: with one thread in each queue the thread of L1 is taken
    and L2, L3 keep theirs; with L1 empty the thread of L2 is taken and L3
    keeps its own; with L1 and L2 empty the thread of L3 is taken. *)
Lemma FindNextToRun_strict_priority_witness :
  level queueState = IntOff /\
  (exists s', FindNextToRun queueState = Done (Some 1%nat, s') /\
     L1Q_ s' = [] /\ L2Q_ s' = [2%nat] /\ L3Q_ s' = [3%nat]) /\
  (exists s',
     FindNextToRun
       (mkState exThreads [] [2%nat] [3%nat] None 0%nat 2000 IntOff 0%nat) =
       Done (Some 2%nat, s') /\
     L1Q_ s' = [] /\ L2Q_ s' = [] /\ L3Q_ s' = [3%nat]) /\
  (exists s',
     FindNextToRun
       (mkState exThreads [] [] [3%nat] None 0%nat 2000 IntOff 0%nat) =
       Done (Some 3%nat, s') /\
     L1Q_ s' = [] /\ L2Q_ s' = [] /\ L3Q_ s' = []).
Proof.
  split; [reflexivity|]. split; [|split].
  - destruct (FindNextToRun_strict_priority queueState eq_refl)
      as (ret & s' & Hrun & _ & _ & _ & _ & _ & _ & H1 & _).
    destruct (H1 1%nat [] eq_refl) as (-> & Q).
    exists s'. split; [exact Hrun | exact Q].
  - destruct (FindNextToRun_strict_priority
                (mkState exThreads [] [2%nat] [3%nat] None 0%nat 2000 IntOff 0%nat)
                eq_refl)
      as (ret & s' & Hrun & _ & _ & _ & _ & _ & _ & _ & H2 & _).
    destruct (H2 2%nat [] eq_refl eq_refl) as (-> & Q).
    exists s'. split; [exact Hrun | exact Q].
  - destruct (FindNextToRun_strict_priority
                (mkState exThreads [] [] [3%nat] None 0%nat 2000 IntOff 0%nat)
                eq_refl)
      as (ret & s' & Hrun & _ & _ & _ & _ & _ & _ & _ & _ & H3 & _).
    destruct (H3 3%nat [] eq_refl eq_refl eq_refl) as (-> & Q).
    exists s'. split; [exact Hrun | exact Q].
Defined.

(** C9: with interrupts off, [Run] called with a thread whose ID is that of
    the running thread returns at once: the state is unchanged, whatever
    [finishing] is (nothing is marked for destruction, no estimate or burst
    start is written, the running thread stays). *)
Theorem Run_same_thread_is_noop (s : State) (nextThread : ThreadRef)
    (finishing : bool) :
  level s = IntOff ->
  ID (threads s (currentThread s)) = ID (threads s nextThread) ->
  Run s nextThread finishing = Done s.
Proof.
  intros Hoff Hid. unfold Run. rewrite Hoff. cbn [isIntOff ASSERT bind].
  rewrite Hid, Z.eqb_refl. reflexivity.
Qed.

(** C9, witness: the running thread 0 handed to [Run] with [finishing]. *)
Lemma Run_same_thread_is_noop_witness :
  level srtfState = IntOff /\
  ID (threads srtfState (currentThread srtfState)) = ID (threads srtfState 0%nat) /\
  Run srtfState 0%nat true = Done srtfState /\
  toBeDestroyed srtfState = None.
Proof.
  split; [reflexivity|]. split; [reflexivity|]. split; [|reflexivity].
  apply (Run_same_thread_is_noop srtfState 0%nat true); reflexivity.
Defined.

(** *** Aging *)

(** C8, at the failing input: tick 2000, thread 1 in L1 and the threads 5
    (priority 90) and 2 (priority 60) in L2, all three waiting for more
    than 1500 ticks.  The scan of L1 raises thread 1 to 120 in place.  The
    scan of L2 takes thread 5 out of L2, raises it to 100 and hands it to
    [ReadyToRun], which puts it into L1 behind thread 1 and requests a
    preemption; [L2Q_->Remove] has freed the cell the iterator stands on,
    and the [it2->Next()] that follows is called on that cell.  At that
    point thread 2 is still in L2 with priority 60, waiting since tick 100:
    it has not been promoted, and nothing in the code takes the scan to
    it.  The model gives [Aging] no result from there on. *)
Lemma Aging_scans_L2_from_a_freed_cell :
  totalTicks agingState - waitTime (threads agingState 5%nat) > 1500 /\
  totalTicks agingState - waitTime (threads agingState 2%nat) > 1500 /\
  (exists s',
     AgingL2 2000 (ListIterator (L2Q_ agingState))
       (AgingL1 2000 (ListIterator (L1Q_ agingState)) agingState) =
       Done (s', OnFreedCell) /\
     priority (threads s' 1%nat) = 120 /\ waitTime (threads s' 1%nat) = 2000 /\
     priority (threads s' 5%nat) = 100 /\ waitTime (threads s' 5%nat) = 2000 /\
     status (threads s' 5%nat) = READY /\
     L1Q_ s' = [1%nat; 5%nat] /\ L2Q_ s' = [2%nat] /\ L3Q_ s' = [3%nat] /\
     preempts s' = 1%nat /\
     priority (threads s' 2%nat) = 60 /\ waitTime (threads s' 2%nat) = 100) /\
  Aging agingState = Fatal.
Proof.
  split; [reflexivity|]. split; [reflexivity|]. split.
  - eexists. split; [vm_compute; reflexivity|]. repeat split.
  - vm_compute. reflexivity.
Qed.

(** *** The queues as a whole *)

(** The state with one thread in each queue is well formed. *)
Lemma queueState_wellFormed : wellFormed queueState.
Proof.
  split; [repeat constructor; cbn; intuition discriminate|].
  split; [intros t [<-|[]]; cbn; lia|].
  split; [intros t [<-|[]]; cbn; lia|].
  split; [intros t [<-|[]]; cbn; lia|].
  split; repeat constructor.
Qed.

(** *** Order and content of the queues *)

Lemma Insert_perm (c : ThreadRef -> ThreadRef -> Z) (q : list ThreadRef)
    (t : ThreadRef) :
  Permutation (Insert c q t) (t :: q).
Proof.
  induction q as [|x q IH]; cbn [Insert]; [reflexivity|].
  destruct (c t x <? 0); [reflexivity|].
  rewrite IH. apply perm_swap.
Qed.

Lemma Remove_perm (q : list ThreadRef) (t : ThreadRef) :
  In t q -> Permutation q (t :: Remove q t).
Proof.
  induction q as [|x q IH]; cbn [Remove In]; [tauto|].
  destruct (Nat.eqb x t) eqn:E.
  - apply Nat.eqb_eq in E. subst x. reflexivity.
  - intros [H|H]; [apply Nat.eqb_neq in E; congruence|].
    rewrite (IH H) at 1. apply perm_swap.
Qed.

(** [Insert] splits the queue where the new item goes: it lands behind
    every item that does not compare greater, so behind its equals. *)
Lemma Insert_split (key : ThreadRef -> Z) (c : ThreadRef -> ThreadRef -> Z)
    (q : list ThreadRef) (t : ThreadRef) :
  (forall x, (c t x <? 0) = (key t <? key x)) ->
  StronglySorted (fun x y => key x <= key y) q ->
  exists l1 l2,
    q = l1 ++ l2 /\ Insert c q t = l1 ++ t :: l2 /\
    Forall (fun x => key x <= key t) l1 /\
    Forall (fun x => key t < key x) l2.
Proof.
  intros Hc. induction 1 as [|x q Hq IH Hx]; cbn [Insert].
  - exists [], []. repeat split; constructor.
  - rewrite Hc. destruct (key t <? key x) eqn:E.
    + apply Z.ltb_lt in E. exists [], (x :: q). repeat split; [constructor|].
      constructor; [exact E|]. eapply Forall_impl; [|exact Hx].
      cbn. intros y Hy. lia.
    + apply Z.ltb_ge in E. destruct IH as (l1 & l2 & E1 & E2 & F1 & F2).
      exists (x :: l1), l2. cbn. rewrite E1 at 1. rewrite E2.
      repeat split; [constructor; assumption | assumption].
Qed.

Lemma Insert_sorted (key : ThreadRef -> Z) (c : ThreadRef -> ThreadRef -> Z)
    (q : list ThreadRef) (t : ThreadRef) :
  (forall x, (c t x <? 0) = (key t <? key x)) ->
  StronglySorted (fun x y => key x <= key y) q ->
  StronglySorted (fun x y => key x <= key y) (Insert c q t).
Proof.
  intros Hc. induction 1 as [|x q Hq IH Hx]; cbn [Insert].
  - repeat constructor.
  - rewrite Hc. destruct (key t <? key x) eqn:E.
    + apply Z.ltb_lt in E. constructor; [constructor; assumption|].
      constructor; [lia|]. eapply Forall_impl; [|exact Hx]. cbn. intros y Hy. lia.
    + apply Z.ltb_ge in E. constructor; [exact IH|].
      apply Forall_forall. intros y Hy. apply In_Insert in Hy.
      destruct Hy as [->|Hy]; [exact E|].
      rewrite Forall_forall in Hx. now apply Hx.
Qed.

Lemma Remove_sorted (R : ThreadRef -> ThreadRef -> Prop) (q : list ThreadRef)
    (t : ThreadRef) :
  StronglySorted R q -> StronglySorted R (Remove q t).
Proof.
  induction 1 as [|x q Hq IH Hx]; cbn [Remove]; [constructor|].
  destruct (Nat.eqb x t); [assumption|].
  constructor; [assumption|].
  apply Forall_forall. intros y Hy. apply In_Remove in Hy.
  rewrite Forall_forall in Hx. now apply Hx.
Qed.

Lemma sorted_ext (R R' : ThreadRef -> ThreadRef -> Prop) (q : list ThreadRef) :
  (forall x y, In x q -> In y q -> R x y -> R' x y) ->
  StronglySorted R q -> StronglySorted R' q.
Proof.
  intros H S. induction S as [|x q Hq IH Hx]; [constructor|].
  constructor.
  - apply IH. intros a b Ha Hb. apply H; now right.
  - rewrite Forall_forall in *. intros y Hy. apply H; [now left | now right | now apply Hx].
Qed.

(** *** More on admission *)

Lemma admitted_keys (s : State) (thread r : ThreadRef) :
  ID (threads (admitted s thread) r) = ID (threads s r) /\
  priority (threads (admitted s thread) r) = priority (threads s r) /\
  burstTime (threads (admitted s thread) r) = burstTime (threads s r) /\
  burstStart (threads (admitted s thread) r) = burstStart (threads s r) /\
  space (threads (admitted s thread) r) = space (threads s r).
Proof.
  destruct (Nat.eq_dec r thread) as [->|Hr].
  - rewrite admitted_thread. repeat split.
  - rewrite admitted_other by assumption. repeat split.
Qed.

Lemma cmpBurstTime_key (s : State) (t x : ThreadRef) :
  (cmpBurstTime s t x <? 0) =
  (burstTime (threads s t) <? burstTime (threads s x)).
Proof.
  unfold cmpBurstTime.
  destruct (burstTime (threads s t) <? burstTime (threads s x)) eqn:E;
    [apply Z.ltb_lt in E; apply Z.ltb_lt | apply Z.ltb_ge in E; apply Z.ltb_ge]; lia.
Qed.

Lemma cmpPriority_key (s : State) (t x : ThreadRef) :
  (cmpPriority s t x <? 0) =
  (- priority (threads s t) <? - priority (threads s x)).
Proof.
  unfold cmpPriority.
  destruct (- priority (threads s t) <? - priority (threads s x)) eqn:E;
    [apply Z.ltb_lt in E; apply Z.ltb_lt | apply Z.ltb_ge in E; apply Z.ltb_ge]; lia.
Qed.

Lemma priorityOrdered_key (s : State) (q : list ThreadRef) :
  priorityOrdered s q <->
  StronglySorted (fun x y => - priority (threads s x) <= - priority (threads s y)) q.
Proof.
  unfold priorityOrdered. split; apply sorted_ext; intros; lia.
Qed.

(** X7: where [ReadyToRun] puts the thread.  With interrupts off the call
    returns and changes one queue only.  Below priority 50 the thread goes
    to the tail of L3.  From 50 to 99 it goes into L2 behind every thread
    whose priority is at least its own and before those of lower priority
    (L2 being in priority order); from 100 on it goes into L1 behind every
    thread whose burst estimate is at most its own and before those with a
    larger one (L1 being in burst order).  Equal threads are served in the
    order of their admission. *)
Theorem ReadyToRun_position (s : State) (thread : ThreadRef) :
  level s = IntOff ->
  burstOrdered s (L1Q_ s) -> priorityOrdered s (L2Q_ s) ->
  let p := priority (threads s thread) in
  let b := burstTime (threads s thread) in
  exists s', ReadyToRun s thread = Done s' /\
    (p < 50 ->
       L1Q_ s' = L1Q_ s /\ L2Q_ s' = L2Q_ s /\ L3Q_ s' = L3Q_ s ++ [thread]) /\
    (50 <= p < 100 ->
       L1Q_ s' = L1Q_ s /\ L3Q_ s' = L3Q_ s /\
       exists l1 l2, L2Q_ s = l1 ++ l2 /\ L2Q_ s' = l1 ++ thread :: l2 /\
         Forall (fun x => p <= priority (threads s x)) l1 /\
         Forall (fun x => priority (threads s x) < p) l2) /\
    (100 <= p ->
       L2Q_ s' = L2Q_ s /\ L3Q_ s' = L3Q_ s /\
       exists l1 l2, L1Q_ s = l1 ++ l2 /\ L1Q_ s' = l1 ++ thread :: l2 /\
         Forall (fun x => burstTime (threads s x) <= b) l1 /\
         Forall (fun x => b < burstTime (threads s x)) l2).
Proof.
  intros Hoff HL1 HL2 p b.
  destruct (ReadyToRun_effect s thread Hoff) as (s' & Hrun & _ & _ & _ & _ & _ & _ & Hq).
  exists s'. split; [exact Hrun|]. cbv zeta in Hq. fold p in Hq.
  destruct (p <? 50) eqn:E1; [apply Z.ltb_lt in E1 | apply Z.ltb_ge in E1].
  { destruct Hq as (Q1 & Q2 & Q3 & _). split; [|split]; intros; try lia.
    repeat split; assumption. }
  destruct (p <? 100) eqn:E2; [apply Z.ltb_lt in E2 | apply Z.ltb_ge in E2];
    destruct Hq as (Q1 & Q2 & Q3); (split; [|split]); intros; try lia.
  - split; [exact Q1|]. split; [exact Q2|].
    destruct (Insert_split (fun r => - priority (threads s r))
                (cmpPriority (admitted s thread)) (L2Q_ s) thread)
      as (l1 & l2 & E & Ei & F1 & F2).
    + intros x. rewrite cmpPriority_key.
      destruct (admitted_keys s thread thread) as (_ & -> & _).
      destruct (admitted_keys s thread x) as (_ & -> & _). reflexivity.
    + now apply priorityOrdered_key.
    + exists l1, l2. split; [exact E|]. split; [now rewrite Q3|].
      split; (eapply Forall_impl; [|eassumption]); cbn; intros; unfold p; lia.
  - split; [exact Q1|]. split; [exact Q2|].
    destruct (Insert_split (fun r => burstTime (threads s r))
                (cmpBurstTime (admitted s thread)) (L1Q_ s) thread)
      as (l1 & l2 & E & Ei & F1 & F2).
    + intros x. rewrite cmpBurstTime_key.
      destruct (admitted_keys s thread thread) as (_ & _ & -> & _).
      destruct (admitted_keys s thread x) as (_ & _ & -> & _). reflexivity.
    + exact HL1.
    + exists l1, l2. split; [exact E|]. split; [now rewrite Q3|].
      split; assumption.
Qed.

(** X7, witness: thread 0 (priority 120, estimate 3) admitted while thread
    1 (estimate 2) is in L1 goes behind it. *)
Lemma ReadyToRun_position_witness :
  level queueState = IntOff /\
  exists s', ReadyToRun queueState 0%nat = Done s' /\
    L1Q_ s' = [1%nat; 0%nat] /\ L2Q_ s' = [2%nat] /\ L3Q_ s' = [3%nat].
Proof.
  split; [reflexivity|].
  destruct (ReadyToRun_position queueState 0%nat eq_refl
              (proj1 (proj2 (proj2 (proj2 (proj2 queueState_wellFormed)))))
              (proj2 (proj2 (proj2 (proj2 (proj2 queueState_wellFormed))))))
    as (s' & Hrun & _ & _ & H).
  exists s'. split; [exact Hrun|].
  destruct (H ltac:(cbn; lia)) as (Q2 & Q3 & _).
  split; [|split; [exact Q2 | exact Q3]].
  vm_compute in Hrun. injection Hrun as <-. reflexivity.
Defined.

Lemma allQueued_admitted (s s' : State) (thread : ThreadRef) :
  (let p := priority (threads s thread) in
   if p <? 50 then
     L1Q_ s' = L1Q_ s /\ L2Q_ s' = L2Q_ s /\ L3Q_ s' = Append (L3Q_ s) thread /\
     preempts s' = preempts s
   else if p <? 100 then
     L1Q_ s' = L1Q_ s /\ L3Q_ s' = L3Q_ s /\
     L2Q_ s' = Insert (cmpPriority (admitted s thread)) (L2Q_ s) thread
   else
     L2Q_ s' = L2Q_ s /\ L3Q_ s' = L3Q_ s /\
     L1Q_ s' = Insert (cmpBurstTime (admitted s thread)) (L1Q_ s) thread) ->
  Permutation (allQueued s') (thread :: allQueued s).
Proof.
  cbv zeta. unfold allQueued.
  destruct (priority (threads s thread) <? 50);
    [|destruct (priority (threads s thread) <? 100)].
  - intros (-> & -> & -> & _). unfold Append.
    rewrite !app_assoc. rewrite <- Permutation_cons_append. reflexivity.
  - intros (-> & -> & ->). rewrite Insert_perm.
    cbn [app]. symmetry. apply Permutation_middle.
  - intros (-> & -> & ->). rewrite Insert_perm. reflexivity.
Qed.

(** X8: [ReadyToRun] adds the thread to the ready queues once and takes
    nothing out: with interrupts off the call returns, and the queued
    threads are those queued before plus the admitted one. *)
Theorem ReadyToRun_adds_the_thread (s : State) (thread : ThreadRef) :
  level s = IntOff ->
  exists s', ReadyToRun s thread = Done s' /\
    Permutation (allQueued s') (thread :: allQueued s) /\
    length (allQueued s') = S (length (allQueued s)).
Proof.
  intros Hoff.
  destruct (ReadyToRun_effect s thread Hoff) as (s' & Hrun & _ & _ & _ & _ & _ & _ & Hq).
  exists s'. split; [exact Hrun|].
  pose proof (allQueued_admitted s s' thread Hq) as P.
  split; [exact P|]. apply Permutation_length in P. exact P.
Qed.

(** X8, witness: thread 0 admitted to the three queued threads. *)
Lemma ReadyToRun_adds_the_thread_witness :
  level queueState = IntOff /\
  exists s', ReadyToRun queueState 0%nat = Done s' /\
    Permutation (allQueued s') [0%nat; 1%nat; 2%nat; 3%nat] /\
    length (allQueued s') = 4%nat.
Proof.
  split; [reflexivity|].
  apply (ReadyToRun_adds_the_thread queueState 0%nat). reflexivity.
Defined.

(** Admission keeps well-formed queues well formed; the scan of L2 in
    [Aging] relies on it too. *)
Lemma ReadyToRun_wf (s : State) (thread : ThreadRef) :
  level s = IntOff ->
  wellFormed s ->
  ~ In thread (allQueued s) ->
  exists s', ReadyToRun s thread = Done s' /\ wellFormed s'.
Proof.
  intros Hoff (Hnd & B1 & B2 & B3 & O1 & O2) Hnew.
  destruct (ReadyToRun_effect s thread Hoff) as (s' & Hrun & Hth & _ & _ & _ & _ & _ & Hq).
  exists s'. split; [exact Hrun|].
  pose proof (allQueued_admitted s s' thread Hq) as P.
  assert (Kp : forall r, priority (threads s' r) = priority (threads s r)).
  { intros r. rewrite Hth. apply admitted_keys. }
  assert (Kb : forall r, burstTime (threads s' r) = burstTime (threads s r)).
  { intros r. rewrite Hth. apply admitted_keys. }
  assert (O1' : forall q, burstOrdered s q -> burstOrdered s' q).
  { intros q. apply sorted_ext. intros x y _ _. rewrite !Kb. trivial. }
  assert (O2' : forall q, priorityOrdered s q -> priorityOrdered s' q).
  { intros q. apply sorted_ext. intros x y _ _. rewrite !Kp. trivial. }
  split.
  { eapply Permutation_NoDup; [symmetry; exact P|]. constructor; assumption. }
  cbv zeta in Hq.
  destruct (priority (threads s thread) <? 50) eqn:E1;
    [apply Z.ltb_lt in E1 | apply Z.ltb_ge in E1].
  { destruct Hq as (Q1 & Q2 & Q3 & _). rewrite Q1, Q2, Q3.
    split; [intros t Ht; rewrite Kp; now apply B1|].
    split; [intros t Ht; rewrite Kp; now apply B2|].
    split; [|split; [now apply O1' | now apply O2']].
    intros t Ht. rewrite Kp. apply In_Append in Ht.
    destruct Ht as [->|Ht]; [exact E1 | now apply B3]. }
  destruct (priority (threads s thread) <? 100) eqn:E2;
    [apply Z.ltb_lt in E2 | apply Z.ltb_ge in E2];
    destruct Hq as (Q1 & Q2 & Q3); rewrite Q1, Q2, Q3.
  - split; [intros t Ht; rewrite Kp; now apply B1|].
    split; [|split; [intros t Ht; rewrite Kp; now apply B3|]].
    + intros t Ht. rewrite Kp. apply In_Insert in Ht.
      destruct Ht as [->|Ht]; [lia | now apply B2].
    + split; [now apply O1'|]. apply O2'. apply priorityOrdered_key.
      apply Insert_sorted; [|now apply priorityOrdered_key].
      intros x. rewrite cmpPriority_key.
      destruct (admitted_keys s thread thread) as (_ & -> & _).
      destruct (admitted_keys s thread x) as (_ & -> & _). reflexivity.
  - split; [|split; [intros t Ht; rewrite Kp; now apply B2|]].
    + intros t Ht. rewrite Kp. apply In_Insert in Ht.
      destruct Ht as [->|Ht]; [lia | now apply B1].
    + split; [intros t Ht; rewrite Kp; now apply B3|].
      split; [|now apply O2']. apply O1'.
      apply (Insert_sorted (fun r => burstTime (threads s r))); [|exact O1].
      intros x. rewrite cmpBurstTime_key.
      destruct (admitted_keys s thread thread) as (_ & _ & -> & _).
      destruct (admitted_keys s thread x) as (_ & _ & -> & _). reflexivity.
Qed.

(** X9: [ReadyToRun] keeps the queues well formed.  If every thread is
    queued at most once, in the queue of its band, with L1 in burst order
    and L2 in priority order, and the admitted thread is not queued yet,
    then the same holds after the call. *)
Theorem ReadyToRun_keeps_wellFormed (s : State) (thread : ThreadRef) :
  level s = IntOff ->
  wellFormed s ->
  ~ In thread (allQueued s) ->
  exists s', ReadyToRun s thread = Done s' /\ wellFormed s'.
Proof.
  intros Hoff Hwf Hnew. now apply ReadyToRun_wf.
Qed.

(** X9, witness: thread 0 admitted to the three queued threads. *)
Lemma ReadyToRun_keeps_wellFormed_witness :
  level queueState = IntOff /\ wellFormed queueState /\
  exists s', ReadyToRun queueState 0%nat = Done s' /\ wellFormed s'.
Proof.
  split; [reflexivity|]. split; [exact queueState_wellFormed|].
  apply (ReadyToRun_keeps_wellFormed queueState 0%nat eq_refl queueState_wellFormed).
  cbn. intuition discriminate.
Defined.

(** X10: admission into L2.  With interrupts off, a thread of priority 50
    to 99 handed to [ReadyToRun] makes it request a preemption exactly when
    that priority exceeds the running thread's and the running thread is not
    the idle thread (ID 0); the burst estimates play no part, and a thread
    readmitted while it is itself the running thread requests none. *)
Theorem ReadyToRun_L2_preempts_lower_priority (s : State) (thread : ThreadRef) :
  level s = IntOff ->
  50 <= priority (threads s thread) < 100 ->
  exists s', ReadyToRun s thread = Done s' /\
    In thread (L2Q_ s') /\
    (preempts s' = S (preempts s) <->
     priority (threads s (currentThread s)) < priority (threads s thread) /\
     ID (threads s (currentThread s)) <> 0) /\
    (preempts s' = preempts s <->
     priority (threads s thread) <= priority (threads s (currentThread s)) \/
     ID (threads s (currentThread s)) = 0) /\
    (thread = currentThread s -> preempts s' = preempts s).
Proof.
  intros Hoff Hp.
  assert (E : priority (threads (setStatus s thread READY) thread) =
              priority (threads s thread)).
  { unfold setStatus, store; simpl. rewrite Nat.eqb_refl. reflexivity. }
  unfold ReadyToRun. rewrite Hoff. cbn [isIntOff ASSERT bind]. rewrite E.
  replace (priority (threads s thread) <? 50) with false
    by (symmetry; apply Z.ltb_ge; lia).
  replace (priority (threads s thread) <? 100) with true
    by (symmetry; apply Z.ltb_lt; lia).
  change (setWaitTime (setStatus s thread READY) thread (totalTicks (setStatus s thread READY)))
    with (admitted s thread).
  change (threads (setL2 (admitted s thread) ?x)) with (threads (admitted s thread)).
  change (currentThread (setL2 (admitted s thread) ?x)) with (currentThread s).
  change (L2Q_ (admitted s thread)) with (L2Q_ s).
  destruct (admitted_keys s thread (currentThread s)) as (-> & -> & _).
  destruct (Z.eq_dec (ID (threads s (currentThread s))) 0) as [Hid|Hid].
  - rewrite Hid. cbn [Z.eqb negb]. rewrite andb_false_r.
    eexists. split; [reflexivity|].
    cbn [L2Q_ setL2 preempts admitted setWaitTime setStatus store].
    split; [apply In_Insert; now left|].
    split; [split; [lia | tauto]|]. split; [tauto | reflexivity].
  - replace (ID (threads s (currentThread s)) =? 0) with false
      by (symmetry; now apply Z.eqb_neq).
    cbn [negb]. rewrite andb_true_r.
    destruct (priority (threads s thread) >? priority (threads s (currentThread s))) eqn:G;
      [apply Z.gtb_lt in G | rewrite Z.gtb_ltb in G; apply Z.ltb_ge in G];
      (eexists; split; [reflexivity|]);
      cbn [L2Q_ setL2 Preempt preempts admitted setWaitTime setStatus store];
      (split; [apply In_Insert; now left|]).
    + split; [tauto|]. split; [split; [lia | intros [H|H]; [lia | contradiction]]|].
      intros ->. lia.
    + split; [split; [lia | intros [H _]; lia]|]. split; [tauto | reflexivity].
Qed.

(** X10, witness: thread 2 (priority 60) admitted while thread 3 (priority
    10, ID 4) runs requests a preemption. *)
Lemma ReadyToRun_L2_preempts_lower_priority_witness :
  level lowState = IntOff /\
  exists s', ReadyToRun lowState 2%nat = Done s' /\
    In 2%nat (L2Q_ s') /\ preempts s' = 1%nat.
Proof.
  split; [reflexivity|].
  destruct (ReadyToRun_L2_preempts_lower_priority lowState 2%nat eq_refl)
    as (s' & Hrun & Hin & Hp & _).
  - cbn. lia.
  - exists s'. split; [exact Hrun|]. split; [exact Hin|].
    apply Hp. cbn. split; [lia | discriminate].
Defined.

(** X11: what [ReadyToRun] never does.  With interrupts off, a call
    requests at most one preemption, and none at all while the idle thread
    (ID 0) is running, whatever the band of the admitted thread. *)
Theorem ReadyToRun_spares_the_idle_thread (s : State) (thread : ThreadRef) :
  level s = IntOff ->
  exists s', ReadyToRun s thread = Done s' /\
    (preempts s <= preempts s' <= S (preempts s))%nat /\
    (ID (threads s (currentThread s)) = 0 -> preempts s' = preempts s).
Proof.
  intros Hoff.
  assert (E : priority (threads (setStatus s thread READY) thread) =
              priority (threads s thread)).
  { unfold setStatus, store; simpl. rewrite Nat.eqb_refl. reflexivity. }
  unfold ReadyToRun. rewrite Hoff. cbn [isIntOff ASSERT bind]. rewrite E.
  change (setWaitTime (setStatus s thread READY) thread (totalTicks (setStatus s thread READY)))
    with (admitted s thread).
  change (threads (setL2 (admitted s thread) ?x)) with (threads (admitted s thread)).
  change (currentThread (setL2 (admitted s thread) ?x)) with (currentThread s).
  change (threads (setL1 (admitted s thread) ?x)) with (threads (admitted s thread)).
  change (currentThread (setL1 (admitted s thread) ?x)) with (currentThread s).
  destruct (admitted_keys s thread (currentThread s)) as (-> & _).
  destruct (priority (threads s thread) <? 50).
  { eexists. split; [reflexivity|]. cbn. split; [lia | reflexivity]. }
  destruct (ID (threads s (currentThread s)) =? 0) eqn:I0;
    [|apply Z.eqb_neq in I0]; cbn [negb]; rewrite ?andb_false_r, ?andb_true_r.
  - destruct (priority (threads s thread) <? 100);
      (eexists; split; [reflexivity|]); cbn; (split; [lia | reflexivity]).
  - destruct (priority (threads s thread) <? 100).
    + match goal with |- context [if ?c then _ else _] => destruct c end;
        (eexists; split; [reflexivity|]); cbn; (split; [lia | intros; contradiction]).
    + match goal with |- context [if ?c then _ else Done ?y] => destruct c end.
      2: { eexists; split; [reflexivity|]; cbn; split; [lia | intros; contradiction]. }
      match goal with |- context [if ?c then _ else Done (Preempt ?y)] => destruct c end.
      2: { eexists; split; [reflexivity|]; cbn; split; [lia | intros; contradiction]. }
      match goal with |- context [if ?c then Done (Preempt ?y) else _] => destruct c end;
        (eexists; split; [reflexivity|]); cbn; (split; [lia | intros; contradiction]).
Qed.

(** X11, witness: thread 1 (L1 band) admitted while the idle thread runs
    requests no preemption. *)
Lemma ReadyToRun_spares_the_idle_thread_witness :
  level idleState = IntOff /\
  exists s', ReadyToRun idleState 1%nat = Done s' /\ preempts s' = 0%nat.
Proof.
  split; [reflexivity|].
  destruct (ReadyToRun_spares_the_idle_thread idleState 1%nat eq_refl)
    as (s' & Hrun & _ & Hp).
  exists s'. split; [exact Hrun|]. apply Hp. reflexivity.
Defined.

(** *** More on selection *)

Lemma FindNextToRun_head (s : State) :
  level s = IntOff ->
  exists ret s', FindNextToRun s = Done (ret, s') /\
    threads s' = threads s /\
    match ret with
    | None => allQueued s = [] /\ s' = s
    | Some t =>
        allQueued s = t :: allQueued s' /\
        ((exists q, L1Q_ s = t :: q /\ L1Q_ s' = q /\
                    L2Q_ s' = L2Q_ s /\ L3Q_ s' = L3Q_ s) \/
         (exists q, L1Q_ s = [] /\ L2Q_ s = t :: q /\ L1Q_ s' = [] /\
                    L2Q_ s' = q /\ L3Q_ s' = L3Q_ s) \/
         (exists q, L1Q_ s = [] /\ L2Q_ s = [] /\ L3Q_ s = t :: q /\
                    L1Q_ s' = [] /\ L2Q_ s' = [] /\ L3Q_ s' = q))
    end.
Proof.
  intros Hoff. unfold FindNextToRun. rewrite Hoff. cbn [isIntOff ASSERT bind].
  unfold allQueued.
  destruct (L1Q_ s) as [|t1 q1] eqn:E1; cbn [IsEmpty negb RemoveFront bind].
  2: { exists (Some t1), (setL1 s q1). split; [reflexivity|]. split; [reflexivity|].
       cbn [L1Q_ L2Q_ L3Q_ setL1]. split; [reflexivity|]. left. exists q1. now repeat split. }
  destruct (L2Q_ s) as [|t2 q2] eqn:E2; cbn [IsEmpty negb RemoveFront bind].
  2: { exists (Some t2), (setL2 s q2). split; [reflexivity|]. split; [reflexivity|].
       cbn [L1Q_ L2Q_ L3Q_ setL2]. rewrite E1. split; [reflexivity|].
       right; left. exists q2. now repeat split. }
  destruct (L3Q_ s) as [|t3 q3] eqn:E3; cbn [IsEmpty negb RemoveFront bind].
  2: { exists (Some t3), (setL3 s q3). split; [reflexivity|]. split; [reflexivity|].
       cbn [L1Q_ L2Q_ L3Q_ setL3]. rewrite E1, E2. split; [reflexivity|].
       right; right. exists q3. now repeat split. }
  exists None, s. repeat split.
Qed.

(** X12: whom [FindNextToRun] picks.  With interrupts off, L1 in burst
    order and L2 in priority order, the call returns no thread only when
    nothing is queued; otherwise the thread it returns has the least burst
    estimate of L1 when L1 is not empty, and else the highest priority of L2
    when L2 is not empty; exactly that thread leaves the queues and no
    thread object is written. *)
Theorem FindNextToRun_picks_the_best (s : State) :
  level s = IntOff ->
  burstOrdered s (L1Q_ s) -> priorityOrdered s (L2Q_ s) ->
  exists ret s', FindNextToRun s = Done (ret, s') /\
    threads s' = threads s /\
    match ret with
    | None => allQueued s = [] /\ s' = s
    | Some t =>
        allQueued s = t :: allQueued s' /\
        (forall u, In u (L1Q_ s) ->
           In t (L1Q_ s) /\ burstTime (threads s t) <= burstTime (threads s u)) /\
        (L1Q_ s = [] -> forall u, In u (L2Q_ s) ->
           In t (L2Q_ s) /\ priority (threads s u) <= priority (threads s t))
    end.
Proof.
  intros Hoff O1 O2.
  destruct (FindNextToRun_head s Hoff) as (ret & s' & Hrun & Hth & Hret).
  exists ret, s'. split; [exact Hrun|]. split; [exact Hth|].
  destruct ret as [t|]; [|exact Hret].
  destruct Hret as (Hall & Hcase). split; [exact Hall|].
  destruct Hcase as [(q & E1 & _)|[(q & E1 & E2 & _)|(q & E1 & E2 & E3 & _)]].
  - rewrite E1 in *. split; [|discriminate].
    intros u Hu. split; [now left|].
    inversion O1 as [|? ? _ Hx]; subst. destruct Hu as [->|Hu]; [lia|].
    rewrite Forall_forall in Hx. now apply Hx.
  - rewrite E1, E2 in *. split; [intros u []|].
    intros _ u Hu. split; [now left|].
    inversion O2 as [|? ? _ Hx]; subst. destruct Hu as [->|Hu]; [lia|].
    rewrite Forall_forall in Hx. now apply Hx.
  - rewrite E1, E2. split; [intros u [] | intros _ u []].
Qed.

(** X12, witness: with one thread in each queue, thread 1 of L1 is
    picked. *)
Lemma FindNextToRun_picks_the_best_witness :
  level queueState = IntOff /\
  exists s', FindNextToRun queueState = Done (Some 1%nat, s') /\
    allQueued s' = [2%nat; 3%nat] /\ threads s' = threads queueState.
Proof.
  split; [reflexivity|].
  destruct (FindNextToRun_picks_the_best queueState eq_refl
              (proj1 (proj2 (proj2 (proj2 (proj2 queueState_wellFormed)))))
              (proj2 (proj2 (proj2 (proj2 (proj2 queueState_wellFormed))))))
    as (ret & s' & Hrun & Hth & Hret).
  assert (E : ret = Some 1%nat).
  { vm_compute in Hrun. now injection Hrun as <- _. }
  subst ret. exists s'. split; [exact Hrun|]. split; [|exact Hth].
  destruct Hret as (Hq & _). cbn in Hq. now injection Hq as <-.
Defined.

(** X13: [FindNextToRun] keeps the queues well formed. *)
Theorem FindNextToRun_keeps_wellFormed (s : State) :
  level s = IntOff ->
  wellFormed s ->
  exists ret s', FindNextToRun s = Done (ret, s') /\ wellFormed s'.
Proof.
  intros Hoff Hwf. pose proof Hwf as (Hnd & B1 & B2 & B3 & O1 & O2).
  destruct (FindNextToRun_head s Hoff) as (ret & s' & Hrun & Hth & Hret).
  exists ret, s'. split; [exact Hrun|].
  destruct ret as [t|]; [|destruct Hret as [_ ->]; exact Hwf].
  destruct Hret as (Hall & Hcase).
  unfold wellFormed, burstOrdered, priorityOrdered. rewrite Hth.
  split.
  { rewrite Hall in Hnd. now inversion Hnd. }
  destruct Hcase as [(q & E1 & -> & -> & ->)
                    |[(q & E1 & E2 & -> & -> & ->)
                     |(q & E1 & E2 & E3 & -> & -> & ->)]].
  - rewrite E1 in *. split; [intros u Hu; apply B1; now right|].
    split; [exact B2|]. split; [exact B3|].
    split; [now inversion O1 | exact O2].
  - rewrite E1, E2 in *. split; [intros u []|].
    split; [intros u Hu; apply B2; now right|]. split; [exact B3|].
    split; [constructor | now inversion O2].
  - rewrite E3 in *. split; [intros u []|]. split; [intros u []|].
    split; [intros u Hu; apply B3; now right|]. split; constructor.
Qed.

(** X13, witness: the state with one thread in each queue. *)
Lemma FindNextToRun_keeps_wellFormed_witness :
  level queueState = IntOff /\ wellFormed queueState /\
  exists ret s', FindNextToRun queueState = Done (ret, s') /\ wellFormed s'.
Proof.
  split; [reflexivity|]. split; [exact queueState_wellFormed|].
  apply (FindNextToRun_keeps_wellFormed queueState eq_refl queueState_wellFormed).
Defined.

(** X14: admission and selection compose.  On a scheduler just
    constructed, with interrupts off, a thread handed to [ReadyToRun] is the
    one [FindNextToRun] returns next, whatever its priority, and the queues
    are empty again afterwards. *)
Theorem ReadyToRun_then_FindNextToRun (s : State) (thread : ThreadRef) :
  level s = IntOff ->
  exists s1 s2,
    ReadyToRun (newScheduler s) thread = Done s1 /\
    FindNextToRun s1 = Done (Some thread, s2) /\
    allQueued s2 = [] /\
    threads s2 = threads (admitted s thread).
Proof.
  intros Hoff.
  destruct (ReadyToRun_effect (newScheduler s) thread Hoff)
    as (s1 & Hrun & Hth & Hlev & _ & _ & _ & _ & Hq).
  change (level (newScheduler s)) with (level s) in Hlev. rewrite Hoff in Hlev.
  destruct (FindNextToRun_head s1 Hlev) as (ret & s2 & Hfind & Hth2 & Hret).
  pose proof (allQueued_admitted (newScheduler s) s1 thread Hq) as P.
  change (allQueued (newScheduler s)) with (@nil ThreadRef) in P.
  symmetry in P. apply Permutation_length_1_inv in P.
  exists s1, s2. split; [exact Hrun|].
  destruct ret as [t|].
  - destruct Hret as (Hall & _). rewrite P in Hall. injection Hall as <- Hall.
    split; [exact Hfind|]. split; [now symmetry|].
    rewrite Hth2, Hth. reflexivity.
  - destruct Hret as [Hall _]. rewrite P in Hall. discriminate.
Qed.

(** X14, witness: thread 3 of the L3 band on a new scheduler. *)
Lemma ReadyToRun_then_FindNextToRun_witness :
  level queueState = IntOff /\
  exists s1 s2,
    ReadyToRun (newScheduler queueState) 3%nat = Done s1 /\
    FindNextToRun s1 = Done (Some 3%nat, s2) /\
    allQueued s2 = [] /\
    threads s2 = threads (admitted queueState 3%nat).
Proof.
  split; [reflexivity|].
  apply (ReadyToRun_then_FindNextToRun queueState 3%nat). reflexivity.
Defined.

(** *** More on dispatch *)

Lemma double_to_int_half (x : Z) :
  double_to_int (inject_Z x * (1 # 2)) = Z.quot x 2.
Proof.
  unfold double_to_int, Qmult, inject_Z. cbn [Qnum Qden Pos.mul].
  rewrite Z.mul_1_r. reflexivity.
Qed.

Lemma quot2_between (b d : Z) :
  Z.min b d <= Z.quot (b + d) 2 <= Z.max b d.
Proof.
  pose proof (Z.quot_rem' (b + d) 2) as E.
  destruct (Z_lt_le_dec (b + d) 0) as [H|H].
  - pose proof (Z.rem_bound_pos_neg (b + d) 2 ltac:(lia) ltac:(lia)). lia.
  - pose proof (Z.rem_bound_pos (b + d) 2 H ltac:(lia)). lia.
Qed.

(** A value within the range of an [int] is held as it is. *)
Lemma int32_id (z : Z) : - 2 ^ 31 <= z < 2 ^ 31 -> int32 z = z.
Proof.
  intros H. unfold int32. rewrite Z.mod_small; lia.
Qed.

(** [Run] up to [CheckOverflow], past the comparison of the IDs. *)
Lemma Run_overflow (s : State) (nextThread : ThreadRef) (finishing : bool) :
  level s = IntOff ->
  ID (threads s (currentThread s)) <> ID (threads s nextThread) ->
  (finishing = true -> toBeDestroyed s = None) ->
  stackIntact (threads s (currentThread s)) = false ->
  Run s nextThread finishing = Fatal.
Proof.
  intros Hoff Hid Hfin Hst.
  unfold Run. rewrite Hoff. cbn [isIntOff ASSERT bind].
  replace (ID (threads s (currentThread s)) =? ID (threads s nextThread)) with false
    by (symmetry; now apply Z.eqb_neq).
  destruct finishing.
  - rewrite (Hfin eq_refl). cbn [ASSERT bind setToBeDestroyed threads].
    unfold CheckOverflow. rewrite Hst. reflexivity.
  - cbn [bind]. unfold CheckOverflow. rewrite Hst. reflexivity.
Qed.

(** What [Run] writes when it goes past [CheckOverflow]. *)
Lemma Run_switch (s : State) (nextThread : ThreadRef) (finishing : bool) :
  level s = IntOff ->
  ID (threads s (currentThread s)) <> ID (threads s nextThread) ->
  (finishing = true -> toBeDestroyed s = None) ->
  stackIntact (threads s (currentThread s)) = true ->
  let old := currentThread s in
  let ticks := totalTicks s in
  exists s', Run s nextThread finishing = Done s' /\
    currentThread s' = nextThread /\
    L1Q_ s' = L1Q_ s /\ L2Q_ s' = L2Q_ s /\ L3Q_ s' = L3Q_ s /\
    preempts s' = preempts s /\ level s' = level s /\ totalTicks s' = ticks /\
    toBeDestroyed s' = (if finishing then Some old else toBeDestroyed s) /\
    (forall r, threads s' r =
       let th := threads s r in
       if Nat.eqb r old then
         mkThread (ID th) (status th) (priority th)
                  (Z.quot (int32 (burstTime th + (ticks - burstStart th))) 2)
                  (burstStart th) (waitTime th) (space th) (stackIntact th)
       else if Nat.eqb r nextThread then
         mkThread (ID th) RUNNING (priority th) (burstTime th) ticks
                  (waitTime th) (space th) (stackIntact th)
       else th).
Proof.
  intros Hoff Hid Hfin Hst old ticks.
  assert (Hne : Nat.eqb old nextThread = false).
  { apply Nat.eqb_neq. intros E. apply Hid. unfold old in E. now rewrite E. }
  assert (Hne' : Nat.eqb nextThread old = false) by (now rewrite Nat.eqb_sym).
  unfold Run. rewrite Hoff. cbn [isIntOff ASSERT bind].
  replace (ID (threads s (currentThread s)) =? ID (threads s nextThread)) with false
    by (symmetry; now apply Z.eqb_neq).
  destruct finishing.
  - rewrite (Hfin eq_refl). cbn [ASSERT bind setToBeDestroyed threads].
    unfold CheckOverflow. rewrite Hst. cbn [ASSERT bind].
    eexists. split; [reflexivity|].
    cbn [currentThread L1Q_ L2Q_ L3Q_ preempts level totalTicks toBeDestroyed
         setBurstTime setBurstStart setStatus setCurrentThread setToBeDestroyed
         store threads].
    do 8 (split; [rewrite ?Hoff; reflexivity|]).
    intros r. cbv zeta. fold old. rewrite double_to_int_half.
    rewrite Hne, ?Nat.eqb_refl. cbn [burstTime burstStart].
    destruct (Nat.eqb r old) eqn:E1.
    + apply Nat.eqb_eq in E1. subst r. rewrite ?Hne, ?Nat.eqb_refl. reflexivity.
    + destruct (Nat.eqb r nextThread) eqn:E2; [|reflexivity].
      apply Nat.eqb_eq in E2. subst r. rewrite ?Nat.eqb_refl. reflexivity.
  - cbn [bind]. unfold CheckOverflow. rewrite Hst. cbn [ASSERT bind].
    eexists. split; [reflexivity|].
    cbn [currentThread L1Q_ L2Q_ L3Q_ preempts level totalTicks toBeDestroyed
         setBurstTime setBurstStart setStatus setCurrentThread setToBeDestroyed
         store threads].
    do 8 (split; [rewrite ?Hoff; reflexivity|]).
    intros r. cbv zeta. fold old. rewrite double_to_int_half.
    rewrite Hne, ?Nat.eqb_refl. cbn [burstTime burstStart].
    destruct (Nat.eqb r old) eqn:E1.
    + apply Nat.eqb_eq in E1. subst r. rewrite ?Hne, ?Nat.eqb_refl. reflexivity.
    + destruct (Nat.eqb r nextThread) eqn:E2; [|reflexivity].
      apply Nat.eqb_eq in E2. subst r. rewrite ?Nat.eqb_refl. reflexivity.
Qed.

(** X15: what [Run] hands over.  With interrupts off, a next thread whose
    ID differs from the running thread's and, when [finishing], no thread
    pending destruction: if the outgoing thread's stack has overflowed,
    [CheckOverflow] stops the kernel.  Otherwise [Run] reaches the context
    switch with: the next thread current, RUNNING, its burst starting now;
    the outgoing thread's estimate replaced by half, rounded toward zero,
    of the [int] sum of its last estimate and the ticks it ran since its
    burst started; the outgoing thread pending destruction exactly when
    [finishing]; the three queues, the preemption requests and every other
    thread as they were.  When the sum is within the range of an [int], the
    new estimate is the mean of the two, rounded toward zero, hence a value
    between them; when it is not, the sum wraps around. *)
Theorem Run_hands_over (s : State) (nextThread : ThreadRef) (finishing : bool) :
  level s = IntOff ->
  ID (threads s (currentThread s)) <> ID (threads s nextThread) ->
  (finishing = true -> toBeDestroyed s = None) ->
  let old := currentThread s in
  let ran := totalTicks s - burstStart (threads s old) in
  (stackIntact (threads s old) = false ->
   Run s nextThread finishing = Fatal) /\
  (stackIntact (threads s old) = true ->
   exists s', Run s nextThread finishing = Done s' /\
    currentThread s' = nextThread /\
    status (threads s' nextThread) = RUNNING /\
    burstStart (threads s' nextThread) = totalTicks s /\
    burstTime (threads s' nextThread) = burstTime (threads s nextThread) /\
    burstTime (threads s' old) =
      Z.quot (int32 (burstTime (threads s old) + ran)) 2 /\
    (- 2 ^ 31 <= burstTime (threads s old) + ran < 2 ^ 31 ->
     burstTime (threads s' old) = Z.quot (burstTime (threads s old) + ran) 2 /\
     Z.min (burstTime (threads s old)) ran <= burstTime (threads s' old)
       <= Z.max (burstTime (threads s old)) ran) /\
    burstStart (threads s' old) = burstStart (threads s old) /\
    status (threads s' old) = status (threads s old) /\
    toBeDestroyed s' = (if finishing then Some old else toBeDestroyed s) /\
    L1Q_ s' = L1Q_ s /\ L2Q_ s' = L2Q_ s /\ L3Q_ s' = L3Q_ s /\
    preempts s' = preempts s /\
    (forall r, r <> old -> r <> nextThread -> threads s' r = threads s r) /\
    (forall r, ID (threads s' r) = ID (threads s r) /\
               priority (threads s' r) = priority (threads s r) /\
               waitTime (threads s' r) = waitTime (threads s r) /\
               stackIntact (threads s' r) = stackIntact (threads s r))).
Proof.
  intros Hoff Hid Hfin old ran.
  split; [now apply Run_overflow|]. intros Hst.
  destruct (Run_switch s nextThread finishing Hoff Hid Hfin Hst)
    as (s' & Hrun & Hc & Q1 & Q2 & Q3 & Hp & _ & _ & Hd & Hth).
  cbv zeta in Hth. fold old in Hth, Hd.
  assert (Hne : Nat.eqb nextThread old = false).
  { apply Nat.eqb_neq. intros E. apply Hid. unfold old in E. now rewrite <- E. }
  exists s'. split; [exact Hrun|]. split; [exact Hc|].
  pose proof (Hth nextThread) as Hn. rewrite Hne, Nat.eqb_refl in Hn.
  pose proof (Hth old) as Ho. rewrite Nat.eqb_refl in Ho.
  rewrite Hn, Ho. cbn [status burstStart burstTime].
  do 4 (split; [reflexivity|]).
  split.
  { intros Hr. fold ran. rewrite (int32_id _ Hr).
    split; [reflexivity | apply quot2_between]. }
  do 2 (split; [reflexivity|]). split; [exact Hd|].
  do 4 (split; [assumption|]). split.
  - intros r R1 R2. rewrite Hth.
    apply Nat.eqb_neq in R1, R2. now rewrite R1, R2.
  - intros r. rewrite Hth.
    destruct (Nat.eqb r old); [|destruct (Nat.eqb r nextThread)]; repeat split.
Qed.

(** X15, witness: at tick 2 thread 0 (estimate 3, burst started at tick 0)
    hands over to thread 1: its new estimate is [(3 + 2) / 2 = 2].  At tick
    1 a thread whose estimate is 2147483647 hands over: the sum wraps
    around to -2147483648 and the new estimate is -1073741824. *)
Lemma Run_hands_over_witness :
  level srtfState = IntOff /\
  (exists s', Run srtfState 1%nat false = Done s' /\
     currentThread s' = 1%nat /\
     status (threads s' 1%nat) = RUNNING /\
     burstStart (threads s' 1%nat) = 2 /\
     burstTime (threads s' 0%nat) = 2 /\
     toBeDestroyed s' = None) /\
  (exists s', Run wrapState 1%nat false = Done s' /\
     burstTime (threads s' 0%nat) = -1073741824).
Proof.
  split; [reflexivity|]. split.
  - destruct (Run_hands_over srtfState 1%nat false eq_refl) as [_ H].
    + cbn. discriminate.
    + discriminate.
    + destruct (H eq_refl)
        as (s' & Hrun & Hc & Hs & Hbs & _ & _ & Hb & _ & _ & Hd & _).
      exists s'. split; [exact Hrun|]. split; [exact Hc|]. split; [exact Hs|].
      split; [exact Hbs|]. split; [|exact Hd].
      apply Hb. cbn. lia.
  - destruct (Run_hands_over wrapState 1%nat false eq_refl) as [_ H].
    + cbn. discriminate.
    + discriminate.
    + destruct (H eq_refl) as (s' & Hrun & _ & _ & _ & _ & Hb & _).
      exists s'. split; [exact Hrun | exact Hb].
Defined.





(** *** More on aging *)

Lemma allQueued_dequeuedL2 (ticks : Z) (s : State) (a : ThreadRef) :
  In a (L2Q_ s) ->
  Permutation (allQueued s) (a :: allQueued (dequeuedL2 ticks s a)).
Proof.
  intros Ha. unfold allQueued.
  change (L1Q_ (dequeuedL2 ticks s a)) with (L1Q_ s).
  change (L2Q_ (dequeuedL2 ticks s a)) with (Remove (L2Q_ s) a).
  change (L3Q_ (dequeuedL2 ticks s a)) with (L3Q_ s).
  rewrite (Remove_perm (L2Q_ s) a Ha) at 1. cbn [app].
  symmetry. apply Permutation_middle.
Qed.

Lemma dequeuedL2_wf (ticks : Z) (s : State) (a : ThreadRef) :
  wellFormed s -> In a (L2Q_ s) ->
  wellFormed (dequeuedL2 ticks s a) /\ ~ In a (allQueued (dequeuedL2 ticks s a)).
Proof.
  intros (Hnd & B1 & B2 & B3 & O1 & O2) Ha.
  pose proof (allQueued_dequeuedL2 ticks s a Ha) as P.
  pose proof (Permutation_NoDup P Hnd) as Hnd'.
  apply NoDup_cons_iff in Hnd' as [Hout Hnd'].
  split; [|exact Hout].
  assert (Hoth : forall r, In r (allQueued (dequeuedL2 ticks s a)) ->
                           threads (dequeuedL2 ticks s a) r = threads s r).
  { intros r Hr. rewrite dequeuedL2_thread.
    replace (Nat.eqb r a) with false; [reflexivity|].
    symmetry. apply Nat.eqb_neq. intros ->. contradiction. }
  unfold allQueued in Hoth.
  change (L1Q_ (dequeuedL2 ticks s a)) with (L1Q_ s) in Hoth.
  change (L2Q_ (dequeuedL2 ticks s a)) with (Remove (L2Q_ s) a) in Hoth.
  change (L3Q_ (dequeuedL2 ticks s a)) with (L3Q_ s) in Hoth.
  unfold wellFormed.
  change (L1Q_ (dequeuedL2 ticks s a)) with (L1Q_ s).
  change (L2Q_ (dequeuedL2 ticks s a)) with (Remove (L2Q_ s) a).
  change (L3Q_ (dequeuedL2 ticks s a)) with (L3Q_ s).
  split; [exact Hnd'|].
  split.
  { intros t Ht. rewrite Hoth by (apply in_or_app; now left). now apply B1. }
  split.
  { intros t Ht. rewrite Hoth by (apply in_or_app; right; apply in_or_app; now left).
    apply B2. eapply In_Remove; eassumption. }
  split.
  { intros t Ht. rewrite Hoth by (apply in_or_app; right; apply in_or_app; now right).
    now apply B3. }
  split.
  - revert O1. apply sorted_ext. intros x y Hx Hy.
    rewrite !Hoth by (apply in_or_app; now left). trivial.
  - apply (Remove_sorted _ _ a) in O2. revert O2. apply sorted_ext. intros x y Hx Hy.
    rewrite !Hoth by (apply in_or_app; right; apply in_or_app; now left). trivial.
Qed.

(** One step of the scan of L2 on a thread that is in L2: the queued
    threads stay the same threads, and well-formed queues stay so. *)
Lemma L2_step_queues (ticks : Z) (s s4 : State) (a : ThreadRef) :
  level s = IntOff ->
  In a (L2Q_ s) ->
  ReadyToRun (dequeuedL2 ticks s a) a = Done s4 ->
  Permutation (allQueued s4) (allQueued s) /\
  (wellFormed s -> wellFormed s4) /\
  currentThread s4 = currentThread s /\ toBeDestroyed s4 = toBeDestroyed s /\
  (preempts s <= preempts s4)%nat.
Proof.
  intros Hoff Ha Hrun.
  destruct (ReadyToRun_effect (dequeuedL2 ticks s a) a Hoff)
    as (s' & Hrun' & _ & _ & _ & Hc & Hd & Hp & Hq).
  rewrite Hrun in Hrun'. injection Hrun' as <-.
  pose proof (allQueued_admitted _ _ _ Hq) as P.
  split; [|split; [|split; [exact Hc | split; [exact Hd | exact Hp]]]].
  - rewrite P. symmetry. now apply allQueued_dequeuedL2.
  - intros Hwf. destruct (dequeuedL2_wf ticks s a Hwf Ha) as [Hwf3 Hout].
    destruct (ReadyToRun_wf (dequeuedL2 ticks s a) a Hoff Hwf3 Hout)
      as (s' & Hrun' & Hwf').
    rewrite Hrun in Hrun'. now injection Hrun' as <-.
Qed.

Lemma waitedLong_false (ticks : Z) (th : Thread) :
  waitedLong ticks th = false <-> ticks - waitTime th <= 1500.
Proof. unfold waitedLong. rewrite Z.gtb_ltb, Z.ltb_ge. tauto. Qed.

Lemma AgingL1_rested (ticks : Z) (l : list ThreadRef) (s : State) :
  (forall x, In x l -> waitedLong ticks (threads s x) = false) ->
  AgingL1 ticks l s = s.
Proof.
  induction l as [|a l IH]; intros H; [reflexivity|].
  cbn [AgingL1]. rewrite (H a) by now left.
  apply IH. intros x Hx. apply H. now right.
Qed.

(** The scan of L2 when no thread it meets has waited long: it ends behind
    the last cell. *)
Lemma AgingL2_rested (ticks : Z) (l : list ThreadRef) (s : State) :
  (forall x, In x l -> waitedLong ticks (threads s x) = false) ->
  AgingL2 ticks l s = Done (s, AtEnd).
Proof.
  induction l as [|a l IH]; intros H; [reflexivity|].
  rewrite AgingL2_cons, (H a) by now left.
  apply IH. intros x Hx. apply H. now right.
Qed.

(** The scan of L2 up to the first thread that has waited long. *)
Lemma AgingL2_first (ticks : Z) (pre post : list ThreadRef) (a : ThreadRef)
    (s : State) :
  (forall x, In x pre -> waitedLong ticks (threads s x) = false) ->
  waitedLong ticks (threads s a) = true ->
  AgingL2 ticks (pre ++ a :: post) s =
  (s' <- ReadyToRun (dequeuedL2 ticks s a) a ;; Done (s', OnFreedCell)).
Proof.
  induction pre as [|b pre IH]; intros Hpre Ha; cbn [app].
  - rewrite AgingL2_cons, Ha. reflexivity.
  - rewrite AgingL2_cons, (Hpre b) by now left.
    apply IH; [|exact Ha]. intros x Hx. apply Hpre. now right.
Qed.

(** A queue holds no thread that has waited long, or a first one. *)
Lemma first_waitedLong (ticks : Z) (s : State) (l : list ThreadRef) :
  (forall x, In x l -> waitedLong ticks (threads s x) = false) \/
  exists pre a post, l = pre ++ a :: post /\
    (forall x, In x pre -> waitedLong ticks (threads s x) = false) /\
    waitedLong ticks (threads s a) = true.
Proof.
  induction l as [|a l IH].
  - left. intros x [].
  - destruct (waitedLong ticks (threads s a)) eqn:Ea.
    + right. exists [], a, l. split; [reflexivity|]. split; [intros x []|exact Ea].
    + destruct IH as [H|(pre & b & post & E & Hpre & Hb)].
      * left. intros x [<-|Hx]; auto.
      * right. exists (a :: pre), b, post. rewrite E.
        split; [reflexivity|]. split; [|exact Hb]. intros x [<-|Hx]; auto.
Qed.

(** The scan of L1 leaves no thread of L1 that waited long. *)
Lemma AgingL1_rests (ticks : Z) (s : State) (x : ThreadRef) :
  In x (L1Q_ s) ->
  waitedLong ticks (threads (AgingL1 ticks (L1Q_ s) s) x) = false.
Proof.
  intros Hx.
  destruct (AgingL1_effect ticks (L1Q_ s) s) as (_ & _ & _ & _ & _ & _ & _ & _ & Th).
  rewrite Th. replace (queued x (L1Q_ s)) with true.
  - cbn [andb]. destruct (waitedLong ticks (threads s x)) eqn:E; [|exact E].
    now apply waitedLong_reset.
  - symmetry. apply existsb_exists. exists x. split; [exact Hx | apply Nat.eqb_refl].
Qed.

(** After the scan of L1 a thread has waited long exactly when it had
    before the scan and is not in L1. *)
Lemma AgingL1_waitedLong (ticks : Z) (s : State) (x : ThreadRef) :
  waitedLong ticks (threads (AgingL1 ticks (L1Q_ s) s) x) =
  negb (queued x (L1Q_ s)) && waitedLong ticks (threads s x).
Proof.
  destruct (AgingL1_effect ticks (L1Q_ s) s) as (_ & _ & _ & _ & _ & _ & _ & _ & Th).
  rewrite Th. destruct (queued x (L1Q_ s)); cbn [andb negb]; [|reflexivity].
  destruct (waitedLong ticks (threads s x)) eqn:E; [|exact E].
  now apply waitedLong_reset.
Qed.

Lemma AgingL1_wf (ticks : Z) (s : State) :
  wellFormed s -> wellFormed (AgingL1 ticks (L1Q_ s) s).
Proof.
  intros (Hnd & B1 & B2 & B3 & O1 & O2).
  destruct (AgingL1_effect ticks (L1Q_ s) s)
    as (Q1 & Q2 & Q3 & _ & _ & _ & _ & _ & Th).
  set (s1 := AgingL1 ticks (L1Q_ s) s) in *. cbv zeta in Th.
  assert (Hout : forall t, ~ In t (L1Q_ s) -> threads s1 t = threads s t).
  { intros t Ht. rewrite Th. replace (queued t (L1Q_ s)) with false; [reflexivity|].
    symmetry. apply not_true_is_false. intros E. apply existsb_exists in E.
    destruct E as (y & Hy & E). apply Nat.eqb_eq in E. now subst y. }
  assert (Hsplit : forall t, In t (L2Q_ s) \/ In t (L3Q_ s) -> ~ In t (L1Q_ s)).
  { intros t Ht H1. unfold allQueued in Hnd.
    apply NoDup_app_remove_r in Hnd as Hn1.
    revert Hnd. clear - Ht H1. intros Hnd.
    induction (L1Q_ s) as [|a l IH]; [destruct H1|].
    cbn [app] in Hnd. apply NoDup_cons_iff in Hnd as [Ha Hnd].
    destruct H1 as [->|H1]; [|now apply IH].
    apply Ha. apply in_or_app. right. apply in_or_app. tauto. }
  assert (Hb : forall t, burstTime (threads s1 t) = burstTime (threads s t)).
  { intros t. rewrite Th. now destruct (queued t (L1Q_ s) && _). }
  unfold wellFormed, allQueued. rewrite Q1, Q2, Q3.
  split; [exact Hnd|]. split.
  { intros t Ht. rewrite Th. specialize (B1 t Ht).
    destruct (queued t (L1Q_ s) && _); [cbn; lia | exact B1]. }
  split. { intros t Ht. rewrite Hout by (apply Hsplit; now left). now apply B2. }
  split. { intros t Ht. rewrite Hout by (apply Hsplit; now right). now apply B3. }
  split.
  - revert O1. apply sorted_ext. intros x y _ _. now rewrite !Hb.
  - revert O2. apply sorted_ext. intros x y Hx Hy.
    rewrite !Hout by (apply Hsplit; now left). trivial.
Qed.

(** What the two scans of [Aging] establish together, up to the point
    where the scan of L2 ends or [it2->Next()] is called on a freed cell:
    in the first case no thread of L2 had waited long after the scan of L1
    and the state is the one that scan left; in the second the first
    thread of L2 that had waited long has been taken out of L2, promoted
    and handed to [ReadyToRun], and no thread behind it has been looked
    at. *)
Lemma Aging_scans (s : State) :
  level s = IntOff ->
  let ticks := totalTicks s in
  let s1 := AgingL1 ticks (ListIterator (L1Q_ s)) s in
  exists s' c,
    AgingL2 ticks (ListIterator (L2Q_ s)) s1 = Done (s', c) /\
    Aging s = match c with AtEnd => Done s' | OnFreedCell => Fatal end /\
    level s' = IntOff /\ totalTicks s' = ticks /\
    Permutation (allQueued s') (allQueued s) /\
    (wellFormed s -> wellFormed s') /\
    currentThread s' = currentThread s /\ toBeDestroyed s' = toBeDestroyed s /\
    (preempts s <= preempts s')%nat /\
    match c with
    | AtEnd =>
        s' = s1 /\
        forall x, In x (L2Q_ s) -> waitedLong ticks (threads s1 x) = false
    | OnFreedCell =>
        exists pre a post, L2Q_ s = pre ++ a :: post /\
          (forall x, In x pre -> waitedLong ticks (threads s1 x) = false) /\
          waitedLong ticks (threads s1 a) = true /\
          ReadyToRun (dequeuedL2 ticks s1 a) a = Done s' /\
          (forall r, threads s' r =
                     if Nat.eqb r a
                     then readied ticks (promote ticks (threads s1 a))
                     else threads s1 r) /\
          In a (bandQueue s' (priority (threads s' a)))
    end.
Proof.
  intros Hoff ticks s1. unfold ListIterator in *.
  destruct (AgingL1_effect ticks (L1Q_ s) s)
    as (Q1 & Q2 & Q3 & Lv1 & Tk1 & Pr1 & Cu1 & Tb1 & Th1).
  fold s1 in Q1, Q2, Q3, Lv1, Tk1, Pr1, Cu1, Tb1, Th1. cbv zeta in Th1.
  rewrite Hoff in Lv1. fold ticks in Tk1.
  assert (Hag : forall r, AgingL2 ticks (L2Q_ s) s1 = Done r ->
                Aging s = match snd r with AtEnd => Done (fst r) | OnFreedCell => Fatal end).
  { intros [s' c] E. unfold Aging, ListIterator. fold ticks. fold s1.
    rewrite E. reflexivity. }
  destruct (first_waitedLong ticks s1 (L2Q_ s))
    as [Hrest|(pre & a & post & E & Hpre & Ha)].
  - pose proof (AgingL2_rested ticks (L2Q_ s) s1 Hrest) as R.
    exists s1, AtEnd. split; [exact R|]. split; [exact (Hag _ R)|].
    split; [exact Lv1|]. split; [exact Tk1|].
    split. { unfold allQueued. now rewrite Q1, Q2, Q3. }
    split. { intros Hwf. now apply AgingL1_wf. }
    split; [exact Cu1|]. split; [exact Tb1|]. split; [lia|].
    split; [reflexivity | exact Hrest].
  - destruct (L2_step ticks s1 a Lv1 Tk1)
      as (s4 & Hrun & Lv4 & Tk4 & Th4 & _ & Hband & _).
    assert (Hin : In a (L2Q_ s1)).
    { rewrite Q2, E. apply in_or_app. right. now left. }
    destruct (L2_step_queues ticks s1 s4 a Lv1 Hin Hrun) as (P4 & W4 & C4 & D4 & R4).
    assert (R : AgingL2 ticks (L2Q_ s) s1 = Done (s4, OnFreedCell)).
    { rewrite E, (AgingL2_first ticks pre post a s1 Hpre Ha), Hrun. reflexivity. }
    exists s4, OnFreedCell. split; [exact R|]. split; [exact (Hag _ R)|].
    split; [exact Lv4|]. split; [exact Tk4|].
    split. { rewrite P4. unfold allQueued. now rewrite Q1, Q2, Q3. }
    split. { intros Hwf. apply W4. now apply AgingL1_wf. }
    split; [congruence|]. split; [congruence|]. split; [lia|].
    exists pre, a, post. split; [exact E|]. split; [exact Hpre|].
    split; [exact Ha|]. split; [exact Hrun|]. split; [exact Th4 | exact Hband].
Qed.

(** When no thread of L2 has waited more than 1500 ticks, none has after
    the scan of L1 either. *)
Lemma AgingL1_leaves_L2_rested (s : State) :
  (forall r, In r (L2Q_ s) -> totalTicks s - waitTime (threads s r) <= 1500) ->
  forall x, In x (L2Q_ s) ->
    waitedLong (totalTicks s) (threads (AgingL1 (totalTicks s) (L1Q_ s) s) x) = false.
Proof.
  intros H x Hx. rewrite AgingL1_waitedLong.
  replace (waitedLong (totalTicks s) (threads s x)) with false;
    [apply andb_false_r|].
  symmetry. apply waitedLong_false. now apply H.
Qed.

(** [Aging] when no thread of L2 has waited more than 1500 ticks: the
    call returns what the scan of L1 leaves. *)
Lemma Aging_rested (s : State) :
  (forall r, In r (L2Q_ s) -> totalTicks s - waitTime (threads s r) <= 1500) ->
  Aging s = Done (AgingL1 (totalTicks s) (L1Q_ s) s).
Proof.
  intros H. unfold Aging, ListIterator.
  rewrite AgingL2_rested by (now apply AgingL1_leaves_L2_rested).
  reflexivity.
Qed.

(** X18: aging loses no thread and invents none.  With interrupts off the
    scan of L1 and the scan of L2 reach a state in which the scan of L2 has
    ended or [it2->Next()] is called on the cell [Remove] has just freed.
    In that state the three queues together hold exactly the threads they
    held before the call, each as often as before; the running thread, the
    thread awaiting destruction, the clock and the interrupt level are
    those of before.  [Aging] returns that state when the scan has ended,
    which it does when no thread of L2 has waited more than 1500 ticks;
    when a thread that is in L2 and not in L1 has waited longer, the scan
    is on the freed cell and the call has no defined result. *)
Theorem Aging_keeps_the_queued_threads (s : State) :
  level s = IntOff ->
  let ticks := totalTicks s in
  exists s' c,
    AgingL2 ticks (ListIterator (L2Q_ s))
      (AgingL1 ticks (ListIterator (L1Q_ s)) s) = Done (s', c) /\
    Aging s = match c with AtEnd => Done s' | OnFreedCell => Fatal end /\
    Permutation (allQueued s') (allQueued s) /\
    currentThread s' = currentThread s /\ toBeDestroyed s' = toBeDestroyed s /\
    totalTicks s' = totalTicks s /\ level s' = level s /\
    (preempts s <= preempts s')%nat /\
    ((forall r, In r (L2Q_ s) -> ticks - waitTime (threads s r) <= 1500) ->
     c = AtEnd) /\
    (forall r, In r (L2Q_ s) -> ~ In r (L1Q_ s) ->
               1500 < ticks - waitTime (threads s r) -> c = OnFreedCell).
Proof.
  intros Hoff ticks.
  destruct (Aging_scans s Hoff) as (s' & c & Hscan & Hrun & Lv & Tk & P & _ & C & D & R & Hc).
  exists s', c. split; [exact Hscan|]. split; [exact Hrun|]. split; [exact P|].
  split; [exact C|]. split; [exact D|]. split; [exact Tk|].
  split; [congruence|]. split; [exact R|].
  unfold ListIterator in Hc. fold ticks in Hc. split.
  - intros Hl2. destruct c; [reflexivity|].
    destruct Hc as (pre & a & post & E & _ & Ha & _).
    rewrite (AgingL1_leaves_L2_rested s Hl2) in Ha; [discriminate|].
    rewrite E. apply in_or_app. right. now left.
  - intros r H2 H1 Hw. destruct c; [|reflexivity].
    destruct Hc as [_ Hrest]. specialize (Hrest r H2).
    rewrite AgingL1_waitedLong in Hrest.
    replace (queued r (L1Q_ s)) with false in Hrest.
    + cbn [negb andb] in Hrest. apply waitedLong_false in Hrest. lia.
    + symmetry. apply not_true_is_false. intros Q. now apply queued_In in Q.
Qed.

(** X18, witness: at tick 2000 with one thread in each queue, thread 2 of
    L2 has waited 1900 ticks: the scan of L2 is on a freed cell, and the
    queues hold the threads 1, 2 and 3. *)
Lemma Aging_keeps_the_queued_threads_witness :
  level queueState = IntOff /\
  exists s',
    AgingL2 2000 (ListIterator (L2Q_ queueState))
      (AgingL1 2000 (ListIterator (L1Q_ queueState)) queueState) =
      Done (s', OnFreedCell) /\
    Aging queueState = Fatal /\
    Permutation (allQueued s') [1%nat; 2%nat; 3%nat] /\
    currentThread s' = 0%nat /\ toBeDestroyed s' = None /\
    totalTicks s' = 2000 /\ level s' = IntOff.
Proof.
  split; [reflexivity|].
  destruct (Aging_keeps_the_queued_threads queueState eq_refl)
    as (s' & c & Hscan & Hrun & P & C & D & Tk & Lv & _ & _ & Hc).
  assert (E : c = OnFreedCell).
  { apply (Hc 2%nat); cbn; [now left | intuition discriminate | lia]. }
  subst c. exists s'. split; [exact Hscan|]. split; [exact Hrun|].
  split; [exact P|]. split; [exact C|]. split; [exact D|].
  split; [exact Tk | exact Lv].
Defined.

(** X19: [Aging] keeps the queues well formed.  With interrupts off, if
    before the call every thread was queued at most once and in the queue
    of its band, with L1 in burst order and L2 in priority order, the same
    holds, for the priorities raised, in the state in which the scan of L2
    has ended or is on a freed cell; when no thread of L2 has waited more
    than 1500 ticks, [Aging] returns that state. *)
Theorem Aging_keeps_wellFormed (s : State) :
  level s = IntOff ->
  wellFormed s ->
  let ticks := totalTicks s in
  exists s' c,
    AgingL2 ticks (ListIterator (L2Q_ s))
      (AgingL1 ticks (ListIterator (L1Q_ s)) s) = Done (s', c) /\
    wellFormed s' /\
    ((forall r, In r (L2Q_ s) -> ticks - waitTime (threads s r) <= 1500) ->
     Aging s = Done s').
Proof.
  intros Hoff Hwf ticks.
  destruct (Aging_scans s Hoff) as (s' & c & Hscan & Hrun & _ & _ & _ & W & _ & _ & _ & Hc).
  exists s', c. split; [exact Hscan|]. split; [now apply W|].
  intros Hl2. rewrite (Aging_rested s Hl2).
  unfold ListIterator in Hscan.
  rewrite AgingL2_rested in Hscan by (now apply AgingL1_leaves_L2_rested).
  now injection Hscan as <- _.
Qed.

(** X19, witness: at tick 1600 with one thread in each queue, thread 2 of
    L2 has waited 1500 ticks: [Aging] returns well-formed queues. *)
Lemma Aging_keeps_wellFormed_witness :
  level earlyState = IntOff /\ wellFormed earlyState /\
  exists s', Aging earlyState = Done s' /\ wellFormed s'.
Proof.
  split; [reflexivity|].
  assert (Hwf : wellFormed earlyState) by exact queueState_wellFormed.
  split; [exact Hwf|].
  destruct (Aging_keeps_wellFormed earlyState eq_refl Hwf)
    as (s' & c & _ & Hwf' & Hrun).
  exists s'. split; [|exact Hwf'].
  apply Hrun. intros r [<-|[]]. cbn. lia.
Defined.

(** X20: when no thread of L2 has waited more than 1500 ticks, [Aging]
    returns, after it no thread of L1 or L2 has waited more than 1500
    ticks, and a second call at the same tick changes nothing. *)
Theorem Aging_twice_at_one_tick (s : State) :
  (forall r, In r (L2Q_ s) -> totalTicks s - waitTime (threads s r) <= 1500) ->
  exists s', Aging s = Done s' /\
    (forall t, In t (L1Q_ s') \/ In t (L2Q_ s') ->
               totalTicks s' - waitTime (threads s' t) <= 1500) /\
    Aging s' = Done s'.
Proof.
  intros Hl2.
  destruct (AgingL1_effect (totalTicks s) (L1Q_ s) s)
    as (Q1 & Q2 & _ & _ & Tk & _).
  cbv zeta in Q1, Q2, Tk.
  set (s1 := AgingL1 (totalTicks s) (L1Q_ s) s) in *.
  assert (F : forall t, In t (L1Q_ s1) \/ In t (L2Q_ s1) ->
                        waitedLong (totalTicks s1) (threads s1 t) = false).
  { intros t Ht. rewrite Tk. rewrite Q1, Q2 in Ht. destruct Ht as [Ht|Ht].
    - now apply AgingL1_rests.
    - now apply AgingL1_leaves_L2_rested. }
  exists s1. split; [now apply Aging_rested|]. split.
  - intros t Ht. apply waitedLong_false. now apply F.
  - rewrite Aging_rested.
    + rewrite AgingL1_rested; [reflexivity|]. intros x Hx. apply F. now left.
    + intros r Hr. apply waitedLong_false. apply F. now right.
Qed.

(** X20, witness: at tick 1600 thread 1 of L1 has waited 1600 ticks and
    thread 2 of L2 1500. *)
Lemma Aging_twice_at_one_tick_witness :
  (forall r, In r (L2Q_ earlyState) ->
             totalTicks earlyState - waitTime (threads earlyState r) <= 1500) /\
  exists s', Aging earlyState = Done s' /\
    (forall t, In t (L1Q_ s') \/ In t (L2Q_ s') ->
               totalTicks s' - waitTime (threads s' t) <= 1500) /\
    Aging s' = Done s'.
Proof.
  assert (H : forall r, In r (L2Q_ earlyState) ->
             totalTicks earlyState - waitTime (threads earlyState r) <= 1500).
  { intros r [<-|[]]. cbn. lia. }
  split; [exact H|].
  apply (Aging_twice_at_one_tick earlyState H).
Defined.

(** X21: what [Aging] leaves alone.  With interrupts off, in the state in
    which the scan of L2 has ended or is on a freed cell: no thread has
    another identifier, burst estimate, burst start, address space or
    stack than before the call; a thread that is in neither L1 nor L2, or
    that has waited at most 1500 ticks, is as it was; a thread of L1 that
    is not in L2 and has waited longer has its priority raised and its
    waiting time reset and is otherwise as it was.  When no thread of L2
    has waited more than 1500 ticks the scan has ended, no thread has
    moved, [Preempt] has not been called and no status has changed. *)
Theorem Aging_leaves_the_rest (s : State) :
  level s = IntOff ->
  let ticks := totalTicks s in
  exists s' c,
    AgingL2 ticks (ListIterator (L2Q_ s))
      (AgingL1 ticks (ListIterator (L1Q_ s)) s) = Done (s', c) /\
    Aging s = match c with AtEnd => Done s' | OnFreedCell => Fatal end /\
    (forall r, ID (threads s' r) = ID (threads s r) /\
               burstTime (threads s' r) = burstTime (threads s r) /\
               burstStart (threads s' r) = burstStart (threads s r) /\
               space (threads s' r) = space (threads s r) /\
               stackIntact (threads s' r) = stackIntact (threads s r)) /\
    (forall r, (~ In r (L1Q_ s) /\ ~ In r (L2Q_ s)) \/
               ticks - waitTime (threads s r) <= 1500 ->
               threads s' r = threads s r) /\
    (forall r, In r (L1Q_ s) -> ~ In r (L2Q_ s) ->
               1500 < ticks - waitTime (threads s r) ->
               threads s' r = promote ticks (threads s r)) /\
    ((forall r, In r (L2Q_ s) -> ticks - waitTime (threads s r) <= 1500) ->
     c = AtEnd /\
     L1Q_ s' = L1Q_ s /\ L2Q_ s' = L2Q_ s /\ L3Q_ s' = L3Q_ s /\
     preempts s' = preempts s /\
     forall r, status (threads s' r) = status (threads s r)).
Proof.
  intros Hoff ticks.
  destruct (Aging_scans s Hoff)
    as (s' & c & Hscan & Hrun & _ & _ & _ & _ & _ & _ & _ & Hc).
  destruct (AgingL1_effect ticks (L1Q_ s) s)
    as (Q1 & Q2 & Q3 & _ & _ & Pr1 & _ & _ & Th1).
  unfold ListIterator in *. fold ticks in Hc, Hscan.
  cbv zeta in Th1, Q1, Q2, Q3, Pr1.
  pose proof (AgingL1_waitedLong ticks s) as Hw1.
  set (s1 := AgingL1 ticks (L1Q_ s) s) in *.
  assert (Hnot : forall r q, ~ In r q -> queued r q = false).
  { intros r q Hr. apply not_true_is_false. intros E. now apply queued_In in E. }
  assert (Hyes : forall r q, In r q -> queued r q = true).
  { intros r q Hr. now apply queued_In. }
  assert (Hth : exists a, (c = OnFreedCell -> In a (L2Q_ s) /\
                             waitedLong ticks (threads s1 a) = true) /\
            forall r, threads s' r =
              if match c with AtEnd => false | OnFreedCell => Nat.eqb r a end
              then readied ticks (promote ticks (threads s1 a))
              else threads s1 r).
  { destruct c.
    - destruct Hc as [-> _]. exists 0%nat. split; [discriminate | reflexivity].
    - destruct Hc as (pre & a & post & E & _ & Ha & _ & Th & _).
      exists a. split; [|exact Th]. intros _. split; [|exact Ha].
      rewrite E. apply in_or_app. right. now left. }
  destruct Hth as (a & Hin & Th).
  exists s', c. split; [exact Hscan|]. split; [exact Hrun|].
  split; [|split; [|split]].
  - intros r. rewrite Th, !Th1.
    destruct (match c with AtEnd => false | OnFreedCell => Nat.eqb r a end) eqn:Er.
    + destruct c; [discriminate|]. apply Nat.eqb_eq in Er. subst r.
      destruct (queued a (L1Q_ s) && waitedLong ticks (threads s a));
        cbn; auto.
    + destruct (queued r (L1Q_ s) && _); cbn; auto.
  - intros r Hr.
    assert (Hra : match c with AtEnd => false | OnFreedCell => Nat.eqb r a end = false).
    { destruct c; [reflexivity|]. apply Nat.eqb_neq. intros ->.
      destruct (Hin eq_refl) as [H2 Hw]. rewrite Hw1 in Hw.
      apply andb_true_iff in Hw as [_ Hw].
      destruct Hr as [[_ H]|H]; [contradiction|].
      apply waitedLong_false in H. congruence. }
    rewrite Th, Hra, Th1. destruct Hr as [[H1 _]|Hw].
    + rewrite (Hnot r _ H1). reflexivity.
    + apply waitedLong_false in Hw. rewrite Hw, andb_false_r. reflexivity.
  - intros r H1 H2 Hw.
    assert (Hra : match c with AtEnd => false | OnFreedCell => Nat.eqb r a end = false).
    { destruct c; [reflexivity|]. apply Nat.eqb_neq. intros ->.
      destruct (Hin eq_refl) as [H _]. contradiction. }
    rewrite Th, Hra, Th1, (Hyes r _ H1).
    replace (waitedLong ticks (threads s r)) with true; [reflexivity|].
    symmetry. unfold waitedLong. rewrite Z.gtb_ltb. apply Z.ltb_lt. exact Hw.
  - intros Hl2.
    assert (Ec : c = AtEnd).
    { destruct c; [reflexivity|]. destruct (Hin eq_refl) as [H2 Hw].
      unfold s1, ticks in Hw.
      rewrite (AgingL1_leaves_L2_rested s Hl2 a H2) in Hw. discriminate. }
    subst c. destruct Hc as [-> _].
    split; [reflexivity|].
    split; [exact Q1|]. split; [exact Q2|]. split; [exact Q3|]. split; [exact Pr1|].
    intros r. rewrite Th1. now destruct (queued r (L1Q_ s) && _).
Qed.

(** X21, witness: at tick 2000 with one thread in each queue the scan of
    L2 takes thread 2 out; thread 3, which is in L3, and the running thread
    0 are as they were, thread 1 of L1 has priority 120 and has waited
    since tick 2000, and thread 2 has kept its estimate. *)
Lemma Aging_leaves_the_rest_witness :
  level queueState = IntOff /\
  exists s' c,
    AgingL2 2000 (ListIterator (L2Q_ queueState))
      (AgingL1 2000 (ListIterator (L1Q_ queueState)) queueState) = Done (s', c) /\
    threads s' 3%nat = threads queueState 3%nat /\
    threads s' 0%nat = threads queueState 0%nat /\
    priority (threads s' 1%nat) = 120 /\ waitTime (threads s' 1%nat) = 2000 /\
    burstTime (threads s' 2%nat) = 5.
Proof.
  split; [reflexivity|].
  destruct (Aging_leaves_the_rest queueState eq_refl)
    as (s' & c & Hscan & _ & Hf & Hr & Hp & _).
  exists s', c. split; [exact Hscan|].
  split; [apply Hr; left; cbn; intuition discriminate|].
  split; [apply Hr; left; cbn; intuition discriminate|].
  assert (H1 : threads s' 1%nat = promote 2000 (threads queueState 1%nat)).
  { apply Hp; cbn; [now left | intuition discriminate | lia]. }
  rewrite H1. split; [reflexivity|]. split; [reflexivity|].
  apply (Hf 2%nat).
Defined.

